(** * GreenwashingDashboard crawler service: a shallow embedding

    The development follows the Python sources under [app/].

    Definitions:
    - [Py], [Re], [Url]: the fragments of Python's [str], [re] and
      [urllib.parse] that the sources use; what the regular expression
      engine answers ([Re.engine]) and what [urllib] decides about a host
      in brackets ([Url.Library]) are parameters;
    - [Config], [Snippet], [Extractor], [Matcher], [Schemas], [Crud],
      [Crawler]: the sources, module by module;
    - [RuleSpec], [Accounting], [LinkSpec], [UrlSpec], [SegmentSpec],
      [WorkerSpec], [MoreSpec]: the notions in which the theorems are
      stated;
    - [Fixtures], [Fixtures2]: concrete inputs.

    Theorems: the segments of a document and their offsets
    ([ExtractorFacts], [ExtractorMore]), the rule compiler and the matcher
    ([MatcherFacts], [MatcherMore], [MatchMore], [SchemasFacts]), one
    worker run to its end ([WorkerFacts], [WorkerMore], [CsvFacts]),
    snippets ([SnippetFacts], [SnippetMore]), the counters and the tables
    under concurrent workers ([AccountingFacts], [AppendFacts]), the
    orchestrator ([OrchestratorFacts], [LedgerFacts], [CrawlFacts]), the
    links of a page ([LinkFacts]) and the URLs of the frontier
    ([FrontierFacts], [UrlMore]).

    Python strings are modelled as [string]; a character is a code point
    below 256.  Python integers are unbounded and are modelled as [Z]. *)

From Stdlib Require Import ZArith Ascii String List Lia Bool DecimalString.
From stdpp Require Import base option list strings gmap sorting.

Set Warnings "-register-all".
Local Open Scope Z_scope.

(* ===================================================================== *)
(** * Python strings *)
(* ===================================================================== *)

Module Py.

Definition chars (s : string) : list ascii := String.list_ascii_of_string s.
Definition str (l : list ascii) : string := String.string_of_list_ascii l.

(** [len(s)] *)
Definition len (s : string) : Z := Z.of_nat (String.length s).

(** [bool(s)]: a string is truthy when it is not empty. *)
Definition truthy (s : string) : bool :=
  match s with EmptyString => false | String _ _ => true end.

(** [c.isspace()] on code points below 256. *)
Definition isspace (c : ascii) : bool :=
  let n := nat_of_ascii c in
  ((9 <=? n)%nat && (n <=? 13)%nat)
  || ((28 <=? n)%nat && (n <=? 32)%nat)
  || (n =? 133)%nat || (n =? 160)%nat.

Fixpoint drop_while (p : ascii -> bool) (l : list ascii) : list ascii :=
  match l with
  | [] => []
  | c :: l' => if p c then drop_while p l' else l
  end.

(** [s.lstrip(chars)], [s.rstrip(chars)], [s.strip(chars)] with the set
    of characters given as a predicate. *)
Definition lstrip_by (p : ascii -> bool) (s : string) : string :=
  str (drop_while p (chars s)).
Definition rstrip_by (p : ascii -> bool) (s : string) : string :=
  str (rev (drop_while p (rev (chars s)))).
Definition strip_by (p : ascii -> bool) (s : string) : string :=
  rstrip_by p (lstrip_by p s).

(** [s.strip()] *)
Definition strip (s : string) : string := strip_by isspace s.

(** [s.rstrip("/")] *)
Definition rstrip_slash (s : string) : string :=
  rstrip_by (fun c => Ascii.eqb c "/") s.

(** [s.split()]: maximal runs of non-space characters. *)
Fixpoint split_go (cur : list ascii) (l : list ascii) : list string :=
  match l with
  | [] => match cur with [] => [] | _ => [str (rev cur)] end
  | c :: l' =>
      if isspace c
      then match cur with
           | [] => split_go [] l'
           | _ => str (rev cur) :: split_go [] l'
           end
      else split_go (c :: cur) l'
  end.
Definition split (s : string) : list string := split_go [] (chars s).

(** [sep.join(parts)] *)
Fixpoint join (sep : string) (parts : list string) : string :=
  match parts with
  | [] => ""
  | [p] => p
  | p :: ps => p +:+ sep +:+ join sep ps
  end.

(** [s.startswith(p)] *)
Fixpoint startswith (s p : string) : bool :=
  match p, s with
  | EmptyString, _ => true
  | String _ _, EmptyString => false
  | String a p', String b s' => Ascii.eqb a b && startswith s' p'
  end.

(** [s.endswith(p)] *)
Definition endswith (s p : string) : bool :=
  startswith (str (rev (chars s))) (str (rev (chars p))).

(** [p in s] for strings. *)
Fixpoint contains (s p : string) : bool :=
  startswith s p ||
  match s with
  | EmptyString => false
  | String _ s' => contains s' p
  end.

(** An index of a slice, as CPython adjusts it: a negative index counts
    from the end, and the result is clipped to [0, len]. *)
Definition adjust_index (n i : Z) : Z :=
  if i <? 0 then Z.max 0 (i + n) else Z.min i n.

(** [s[start:stop]] *)
Definition slice (s : string) (start stop : Z) : string :=
  let n := len s in
  let a := adjust_index n start in
  let b := adjust_index n stop in
  str (take (Z.to_nat (b - a)) (drop (Z.to_nat a) (chars s))).

(** [s[start:]] *)
Definition slice_from (s : string) (start : Z) : string :=
  slice s start (len s).

(** [s[:stop]] *)
Definition slice_to (s : string) (stop : Z) : string := slice s 0 stop.

(** [str(n)] for an integer. *)
Definition str_of_int (n : Z) : string :=
  NilZero.string_of_int (Z.to_int n).

(** [x in xs] for a collection of strings. *)
Definition mem (x : string) (xs : list string) : bool :=
  bool_decide (x ∈ xs).

End Py.

(* ===================================================================== *)
(** * Exceptions *)
(* ===================================================================== *)

(** The exceptions that the sources raise, catch or let pass. *)
Inductive exn :=
| re_error (pattern : string)
| ValueError (msg : string)
| HTTPStatusError (status_code : Z)
| RequestError (type_name : string)
| OtherException (msg : string).

(** A computation that returns a value or raises. *)
Inductive result (A : Type) :=
| Ok (a : A)
| Raise (e : exn).
Arguments Ok {A} a.
Arguments Raise {A} e.

Global Instance result_ret : MRet result := fun A a => Ok a.
Global Instance result_bind : MBind result := fun A B f m =>
  match m with
  | Ok a => f a
  | Raise e => Raise e
  end.
Global Instance result_fmap : FMap result := fun A B f m =>
  match m with
  | Ok a => Ok (f a)
  | Raise e => Raise e
  end.

(** A list comprehension whose body may raise: the first failure ends it. *)
Fixpoint for_each {A B : Type} (f : A -> result B) (l : list A)
    : result (list B) :=
  match l with
  | [] => Ok []
  | x :: l' => y ← f x; ys ← for_each f l'; mret (y :: ys)
  end.

(* ===================================================================== *)
(** * app/config.py *)
(* ===================================================================== *)

Module Config.

Record Settings := {
  crawl_concurrency : Z;
  max_pages_per_run : Z;
  snippet_context : Z
}.

(** The defaults of the class [Settings]; every field can be overridden
    from the environment. *)
Definition defaults : Settings :=
  {| crawl_concurrency := 8; max_pages_per_run := 500;
     snippet_context := 120 |}.

End Config.

(* ===================================================================== *)
(** * app/crawler.py: the snippet builder *)
(* ===================================================================== *)

Module Snippet.

(** U+2026 lies outside the modelled range of code points; one
    character that the other functions do not single out stands for it. *)
Definition ellipsis : string := String (ascii_of_nat 127) "".

(** [ctx or settings.snippet_context] *)
Definition ctx_or (settings : Config.Settings) (ctx : option Z) : Z :=
  match ctx with
  | Some c => if c =? 0 then Config.snippet_context settings else c
  | None => Config.snippet_context settings
  end.

Definition _make_snippet (settings : Config.Settings)
    (text : string) (pos : Z) (ctx : option Z) : string :=
  let ctx := ctx_or settings ctx in
  let start := Z.max 0 (pos - ctx) in
  let end_ := Z.min (Py.len text) (pos + ctx) in
  let snippet := Py.slice text start end_ in
  let snippet := if 0 <? start then ellipsis +:+ snippet else snippet in
  let snippet := if end_ <? Py.len text then snippet +:+ ellipsis else snippet in
  snippet.

End Snippet.

(* ===================================================================== *)
(** * Python's re module, as far as the sources use it *)
(* ===================================================================== *)

Module Re.

Inductive flag := IGNORECASE.

(** A compiled pattern object, with its attributes [pattern] and
    [flags]. *)
Record Pattern := {
  pattern : string;
  flags : list flag
}.

(** The matching engine is the library's.  The sources depend on it
    through three questions: does a source text compile, where does a
    pattern match in a text ([m.start()] and [m.group(0)] of every match
    of [finditer], in order), and does it match anywhere ([search]). *)
Record engine := {
  valid : string -> bool;
  finditer : Pattern -> string -> list (Z * string);
  search : Pattern -> string -> bool
}.

(** [re.compile(source, flags)] *)
Definition compile (E : engine) (source : string) (fl : list flag)
    : result Pattern :=
  if valid E source then Ok {| pattern := source; flags := fl |}
  else Raise (re_error source).

Definition _special_chars : list ascii :=
  Py.chars "()[]{}?*+-|^$\.&~# "
    ++ map ascii_of_nat [9; 10; 13; 11; 12]%nat.

(** [re.escape(s)] *)
Definition escape (s : string) : string :=
  Py.str (flat_map
            (fun c => if bool_decide (c ∈ _special_chars)
                      then ["\"%char; c] else [c])
            (Py.chars s)).

(** An engine given by a table of its answers: the sources that compile,
    and the matches of a source in a text.  It serves where a statement
    is evaluated on concrete input; the rows are what Python's [re]
    answers there. *)
Definition of_table (sources : list string)
    (rows : list (string * string * list (Z * string))) : engine :=
  let answer p t :=
    match find (fun row => bool_decide (row.1 = (pattern p, t))) rows with
    | Some row => row.2
    | None => []
    end in
  {| valid := fun source => Py.mem source sources;
     finditer := answer;
     search := fun p t => match answer p t with [] => false | _ => true end |}.

End Re.

(* ===================================================================== *)
(** * Python's urllib.parse, as far as the sources use it *)
(* ===================================================================== *)

(** [urlparse], [geturl] and [urljoin] follow CPython's [urllib/parse.py]
    on [str] arguments.  The validation of a host in square brackets is
    left to the library ([Library] below).  The check of a host outside
    ASCII, [_checknetloc], is left out: it raises for no network location
    of code points below 256, since none of them is normalised to one of
    the characters that it looks for. *)
Module Url.

Definition uses_relative : list string :=
  [ ""; "ftp"; "http"; "gopher"; "nntp"; "imap"; "wais"; "file"; "https";
    "shttp"; "mms"; "prospero"; "rtsp"; "rtsps"; "rtspu"; "sftp"; "svn";
    "svn+ssh"; "ws"; "wss" ].

Definition uses_netloc : list string :=
  [ ""; "ftp"; "http"; "gopher"; "nntp"; "telnet"; "imap"; "wais"; "file";
    "mms"; "https"; "shttp"; "snews"; "prospero"; "rtsp"; "rtsps";
    "rtspu"; "rsync"; "svn"; "svn+ssh"; "sftp"; "nfs"; "git"; "git+ssh";
    "ws"; "wss"; "itms-services" ].

Definition uses_params : list string :=
  [ ""; "ftp"; "hdl"; "prospero"; "http"; "imap"; "https"; "shttp";
    "rtsp"; "rtsps"; "rtspu"; "sip"; "sips"; "mms"; "sftp"; "tel" ].

Definition is_upper (c : ascii) : bool :=
  let n := nat_of_ascii c in (65 <=? n)%nat && (n <=? 90)%nat.
Definition is_lower (c : ascii) : bool :=
  let n := nat_of_ascii c in (97 <=? n)%nat && (n <=? 122)%nat.
Definition is_digit (c : ascii) : bool :=
  let n := nat_of_ascii c in (48 <=? n)%nat && (n <=? 57)%nat.

(** [c in scheme_chars] *)
Definition scheme_char (c : ascii) : bool :=
  is_upper c || is_lower c || is_digit c
  || bool_decide (c ∈ ["+"; "-"; "."]%char).

(** [s.lower()] on a string of scheme characters. *)
Definition lower (s : string) : string :=
  Py.str (map (fun c => if is_upper c
                        then ascii_of_nat (nat_of_ascii c + 32) else c)
              (Py.chars s)).

(** [c in _WHATWG_C0_CONTROL_OR_SPACE] *)
Definition c0_control_or_space (c : ascii) : bool :=
  (nat_of_ascii c <=? 32)%nat.

(** [c in _UNSAFE_URL_BYTES_TO_REMOVE] *)
Definition unsafe_byte (c : ascii) : bool :=
  bool_decide (nat_of_ascii c ∈ [9; 13; 10]%nat).

Definition remove_unsafe (s : string) : string :=
  Py.str (filter (fun c => unsafe_byte c = false) (Py.chars s)).

(** The text before and after the first character that satisfies [p];
    [None] when there is none. *)
Fixpoint break_at (p : ascii -> bool) (l : list ascii)
    : option (list ascii * list ascii) :=
  match l with
  | [] => None
  | c :: l' =>
      if p c then Some ([], l')
      else match break_at p l' with
           | Some (a, b) => Some (c :: a, b)
           | None => None
           end
  end.

(** [s.split(c, 1)] when [c in s]. *)
Definition split_once (c : ascii) (s : string) : option (string * string) :=
  match break_at (Ascii.eqb c) (Py.chars s) with
  | Some (a, b) => Some (Py.str a, Py.str b)
  | None => None
  end.

(** [s.split(c)] *)
Fixpoint split_on_go (c : ascii) (cur : list ascii) (l : list ascii)
    : list string :=
  match l with
  | [] => [Py.str (rev cur)]
  | x :: l' =>
      if Ascii.eqb x c then Py.str (rev cur) :: split_on_go c [] l'
      else split_on_go c (x :: cur) l'
  end.
Definition split_on (c : ascii) (s : string) : list string :=
  split_on_go c [] (Py.chars s).

Fixpoint take_until (p : ascii -> bool) (l : list ascii) : list ascii :=
  match l with
  | [] => []
  | c :: l' => if p c then [] else c :: take_until p l'
  end.

Fixpoint drop_until (p : ascii -> bool) (l : list ascii) : list ascii :=
  match l with
  | [] => []
  | c :: l' => if p c then l else drop_until p l'
  end.

(** [_splitnetloc(url, 2)]: the text after the first two characters up
    to the first of [/], [?] and [#], and what is left. *)
Definition _splitnetloc (url : string) : string * string :=
  let rest := drop 2 (Py.chars url) in
  let delim c := bool_decide (c ∈ ["/"; "?"; "#"]%char) in
  (Py.str (take_until delim rest), Py.str (drop_until delim rest)).

Definition has_char (c : ascii) (s : string) : bool :=
  bool_decide (c ∈ Py.chars s).

Record SplitResult := {
  s_scheme : string;
  s_netloc : string;
  s_path : string;
  s_query : string;
  s_fragment : string
}.

Record ParseResult := {
  scheme : string;
  netloc : string;
  path : string;
  params : string;
  query : string;
  fragment : string
}.

(** What the library decides about a network location in which both
    brackets occur.  [urlsplit] then validates the bracketed host, which
    has to be an IPv6 or IPvFuture address, and raises [ValueError] if it
    is not one.  That validation is the library's ([ipaddress]); the
    sources depend on it through this one question, and the theorems hold
    whatever the answers are. *)
Class Library := {
  check_bracketed_netloc : string -> result unit
}.

(** A library given by the network locations with brackets that it
    refuses, each with the exception that it raises.  It serves where a
    statement is evaluated on concrete input; the rows are what Python
    answers there. *)
Definition of_table (refused : list (string * exn)) : Library :=
  {| check_bracketed_netloc := fun netloc =>
       match find (fun row => bool_decide (row.1 = netloc)) refused with
       | Some row => Raise row.2
       | None => Ok tt
       end |}.

Section WithLibrary.
Context {lib : Library}.

(** [urlsplit(url, scheme)] *)
Definition urlsplit (url scheme : string) : result SplitResult :=
  let url := Py.lstrip_by c0_control_or_space url in
  let scheme := Py.strip_by c0_control_or_space scheme in
  let url := remove_unsafe url in
  let scheme := remove_unsafe scheme in
  let '(scheme, url) :=
    match split_once ":" url with
    | Some (before, after) =>
        if Py.truthy before
           && match Py.chars url with
              | c :: _ => is_upper c || is_lower c
              | [] => false
              end
           && forallb scheme_char (Py.chars before)
        then (lower before, after)
        else (scheme, url)
    | None => (scheme, url)
    end in
  '(netloc, url) ←
    (if Py.startswith url "//" then
       let '(netloc, url) := _splitnetloc url in
       if (has_char "[" netloc && negb (has_char "]" netloc))
          || (has_char "]" netloc && negb (has_char "[" netloc))
       then Raise (ValueError "Invalid IPv6 URL")
       else if has_char "[" netloc && has_char "]" netloc
       then _ ← check_bracketed_netloc netloc; Ok (netloc, url)
       else Ok (netloc, url)
     else Ok ("", url));
  let '(url, fragment) :=
    match split_once "#" url with
    | Some (before, after) => (before, after)
    | None => (url, "")
    end in
  let '(url, query) :=
    match split_once "?" url with
    | Some (before, after) => (before, after)
    | None => (url, "")
    end in
  mret {| s_scheme := scheme; s_netloc := netloc; s_path := url;
          s_query := query; s_fragment := fragment |}.

(** The position of the first [c] at or after position [start];
    [url.find(c, start)]. *)
Fixpoint find_from (c : ascii) (start : nat) (l : list ascii) (i : nat)
    : option nat :=
  match l with
  | [] => None
  | x :: l' =>
      if (start <=? i)%nat && Ascii.eqb x c then Some i
      else find_from c start l' (S i)
  end.

(** [url.rfind("/")] when there is a slash. *)
Definition rfind_slash (l : list ascii) : option nat :=
  match find_from "/" 0 (rev l) 0 with
  | Some j => Some (length l - 1 - j)%nat
  | None => None
  end.

Definition _splitparams (url : string) : string * string :=
  let l := Py.chars url in
  let i :=
    match rfind_slash l with
    | Some r => find_from ";" r l 0
    | None => find_from ";" 0 l 0
    end in
  match i with
  | Some i => (Py.str (take i l), Py.str (drop (S i) l))
  | None =>
      match rfind_slash l with
      | Some _ => (url, "")
      | None =>
          (* [i = -1]: [url[:-1]] and [url[0:]] *)
          (Py.slice_to url (-1), url)
      end
  end.

(** [urlparse(url, scheme)] *)
Definition urlparse_with (url scheme : string) : result ParseResult :=
  sr ← urlsplit url scheme;
  let '(url, params) :=
    if Py.mem (s_scheme sr) uses_params && has_char ";" (s_path sr)
    then _splitparams (s_path sr)
    else (s_path sr, "") in
  mret {| scheme := s_scheme sr; netloc := s_netloc sr; path := url;
          params := params; query := s_query sr;
          fragment := s_fragment sr |}.

(** [urlparse(url)] *)
Definition urlparse (url : string) : result ParseResult :=
  urlparse_with url "".

(** [urlunsplit((scheme, netloc, url, query, fragment))] *)
Definition urlunsplit (scheme netloc url query fragment : string) : string :=
  let url :=
    if Py.truthy netloc
       || (Py.truthy scheme && Py.mem scheme uses_netloc
           && negb (Py.startswith url "//"))
    then
      let url := if Py.truthy url && negb (Py.startswith url "/")
                 then "/" +:+ url else url in
      "//" +:+ netloc +:+ url
    else url in
  let url := if Py.truthy scheme then scheme +:+ ":" +:+ url else url in
  let url := if Py.truthy query then url +:+ "?" +:+ query else url in
  let url := if Py.truthy fragment then url +:+ "#" +:+ fragment else url in
  url.

(** [urlunparse(p)], which is [p.geturl()] *)
Definition geturl (p : ParseResult) : string :=
  let url := if Py.truthy (params p)
             then path p +:+ ";" +:+ params p else path p in
  urlunsplit (scheme p) (netloc p) url (query p) (fragment p).

(** [p._replace(fragment=f)] *)
Definition replace_fragment (p : ParseResult) (f : string) : ParseResult :=
  {| scheme := scheme p; netloc := netloc p; path := path p;
     params := params p; query := query p; fragment := f |}.

(** The loop of [urljoin] over the segments of the merged path. *)
Fixpoint resolve (segments resolved_path : list string) : list string :=
  match segments with
  | [] => resolved_path
  | seg :: rest =>
      if String.eqb seg ".." then resolve rest (removelast resolved_path)
      else if String.eqb seg "." then resolve rest resolved_path
      else resolve rest (resolved_path ++ [seg])
  end.

(** [segments[1:-1] = filter(None, segments[1:-1])] *)
Definition filter_inner (segments : list string) : list string :=
  match segments with
  | [] => []
  | [x] => [x]
  | x :: rest =>
      x :: filter (fun s => Py.truthy s = true) (removelast rest)
        ++ [List.last rest ""]
  end.

(** [urljoin(base, url)] *)
Definition urljoin (base url : string) : result string :=
  if negb (Py.truthy base) then Ok url
  else if negb (Py.truthy url) then Ok base
  else
    b ← urlparse_with base "";
    u ← urlparse_with url (scheme b);
    if negb (String.eqb (scheme u) (scheme b))
       || negb (Py.mem (scheme u) uses_relative)
    then Ok url
    else if Py.mem (scheme u) uses_netloc && Py.truthy (netloc u)
    then Ok (geturl u)
    else
      let netloc_ := if Py.mem (scheme u) uses_netloc
                     then netloc b else netloc u in
      if negb (Py.truthy (path u)) && negb (Py.truthy (params u)) then
        let query_ := if negb (Py.truthy (query u))
                      then query b else query u in
        Ok (geturl {| scheme := scheme u; netloc := netloc_;
                      path := path b; params := params b;
                      query := query_; fragment := fragment u |})
      else
        let base_parts := split_on "/" (path b) in
        let base_parts :=
          if negb (String.eqb (List.last base_parts "") "")
          then removelast base_parts else base_parts in
        let segments :=
          if Py.startswith (path u) "/" then split_on "/" (path u)
          else filter_inner (base_parts ++ split_on "/" (path u)) in
        let resolved_path := resolve segments [] in
        let resolved_path :=
          if Py.mem (List.last segments "") ["."; ".."]
          then resolved_path ++ [""] else resolved_path in
        let joined := Py.join "/" resolved_path in
        Ok (geturl {| scheme := scheme u; netloc := netloc_;
                      path := if Py.truthy joined then joined else "/";
                      params := params u; query := query u;
                      fragment := fragment u |}).

End WithLibrary.

End Url.

(* ===================================================================== *)
(** * app/extractor.py *)
(* ===================================================================== *)

Module Extractor.

(** The parse tree that [BeautifulSoup(html, "lxml")] builds.  Parsing
    itself is the library's; the functions below start from the tree. *)
Inductive node :=
| Tag (name : string) (attrs : gmap string string) (children : list node)
| NavigableString (s : string)
| Comment (s : string).

(** The children of the [BeautifulSoup] object. *)
Definition soup := list node.

Definition ALLOWED_TAGS : list string :=
  [ "p"; "pre"; "blockquote";
    "h1"; "h2"; "h3"; "h4"; "h5"; "h6";
    "li"; "dt"; "dd";
    "td"; "th"; "caption";
    "article"; "section"; "main";
    "a"; "span"; "strong"; "em"; "b"; "i"; "u"; "label"; "div";
    "q"; "figcaption" ].

Definition EXCLUDED_CONTAINERS : list string :=
  [ "nav"; "header"; "footer"; "aside"; "script"; "style"; "noscript";
    "template" ].

Record TextSegment := {
  text : string;
  tag : string;
  char_offset : Z
}.

(** An element as [find_all] hands it out: the node together with the
    names of its [.parents], innermost first.  The outermost parent is the
    [BeautifulSoup] object, whose name is ["[document]"]. *)
Record element := {
  el_node : node;
  el_parents : list string
}.

Definition el_name (el : element) : string :=
  match el_node el with
  | Tag name _ _ => name
  | _ => ""
  end.

(** [el.decompose()] for every [el] in [soup.find_all(tag_name)]. *)
Fixpoint decompose_in (tag_name : string) (n : node) : list node :=
  match n with
  | Tag name attrs children =>
      if String.eqb name tag_name then []
      else [Tag name attrs (flat_map (decompose_in tag_name) children)]
  | _ => [n]
  end.

Definition decompose_all (sp : soup) (tag_name : string) : soup :=
  flat_map (decompose_in tag_name) sp.

(** The tags below a node, in document order. *)
Fixpoint tags_of (parents : list string) (n : node) : list element :=
  match n with
  | Tag name _ children =>
      {| el_node := n; el_parents := parents |}
        :: flat_map (tags_of (name :: parents)) children
  | _ => []
  end.

(** [soup.find_all(names)] *)
Definition find_all (names : list string) (sp : soup) : list element :=
  filter (fun el => Py.mem (el_name el) names = true)
         (flat_map (tags_of ["[document]"]) sp).

Definition _has_allowed_ancestor (el : element) : bool :=
  existsb (fun parent => Py.mem parent ALLOWED_TAGS) (el_parents el).

(** The tags whose strings the tree builder keeps in a class of their
    own ([builder.string_containers]): [RubyTextString],
    [RubyParenthesisString], [Stylesheet], [Script] and
    [TemplateString]. *)
Definition string_containers : list string :=
  [ "rt"; "rp"; "style"; "script"; "template" ].

(** The class of the strings below a tag named [name], where [container]
    is the class around the tag: that of the innermost of these tags, and
    [None], which stands for [NavigableString], outside all of them. *)
Definition container_of (container : option string) (name : string)
    : option string :=
  if Py.mem name string_containers then Some name else container.

(** The strings below a node that [_all_strings] yields when the strings
    of the class [wanted] are asked for, in document order; [container]
    is the class at the node.  Comments are of no such class. *)
Fixpoint all_strings (wanted container : option string) (n : node)
    : list string :=
  match n with
  | Tag name _ children =>
      flat_map (all_strings wanted (container_of container name)) children
  | NavigableString s => if bool_decide (container = wanted) then [s] else []
  | Comment _ => []
  end.

(** [el.get_text(separator=sep, strip=True)]: the strings of the class
    that is [el.interesting_string_types], which is [NavigableString]
    unless [el] is itself one of the tags above. *)
Definition get_text (sep : string) (el : element) : string :=
  let wanted := container_of None (el_name el) in
  let container :=
    foldr (fun parent acc => container_of acc parent) None (el_parents el) in
  Py.join sep
    (filter (fun s => Py.truthy s = true)
            (map Py.strip (all_strings wanted container (el_node el)))).

(** One turn of the loop of [extract_segments]. *)
Definition segment_step (st : list TextSegment * Z) (el : element)
    : list TextSegment * Z :=
  let '(segments, running_offset) := st in
  if _has_allowed_ancestor el then st
  else
    let text := get_text " " el in
    let text := Py.join " " (Py.split text) in
    if negb (Py.truthy text) then st
    else (segments ++ [ {| text := text; tag := el_name el;
                           char_offset := running_offset |} ],
          running_offset + Py.len text + 1).

Definition extract_segments (html : soup) : list TextSegment :=
  let sp := fold_left decompose_all EXCLUDED_CONTAINERS html in
  fst (fold_left segment_step (find_all ALLOWED_TAGS sp) ([], 0)).

(** The text in which stored positions are positions: every segment's
    text followed by one space. *)
Definition virtual_text (segs : list TextSegment) : string :=
  fold_right (fun seg acc => text seg +:+ " " +:+ acc) "" segs.

(** All segment texts joined with single spaces. *)
Definition page_text (segs : list TextSegment) : string :=
  Py.join " " (map text segs).

(** [el["href"]] for an element that [find_all("a", href=True)] found. *)
Definition href_of (el : element) : option string :=
  match el_node el with
  | Tag _ attrs _ => attrs !! "href"
  | _ => None
  end.

(** The values of [a["href"]] over [soup.find_all("a", href=True)]. *)
Definition hrefs (html : soup) : list string :=
  omap href_of (find_all ["a"] html).

Definition pseudo_prefixes : list string :=
  [ "#"; "javascript:"; "mailto:"; "tel:" ].

Section WithLibrary.
Context {lib : Url.Library}.

(** One turn of the loop of [extract_links]. *)
Definition link_step (base_url : string) (base_parsed : Url.ParseResult)
    (st : gset string * list string) (raw_href : string)
    : result (gset string * list string) :=
  let '(seen, links) := st in
  let href := Py.strip raw_href in
  if negb (Py.truthy href)
     || existsb (Py.startswith href) pseudo_prefixes
  then Ok st
  else
    full ← Url.urljoin base_url href;
    parsed ← Url.urlparse full;
    if negb (Py.mem (Url.scheme parsed) ["http"; "https"]) then Ok st
    else if negb (String.eqb (Url.netloc parsed) (Url.netloc base_parsed))
    then Ok st
    else
      let normalised :=
        Py.rstrip_slash (Url.geturl (Url.replace_fragment parsed "")) in
      if bool_decide (normalised ∉ seen)
      then Ok ({[ normalised ]} ∪ seen, links ++ [normalised])
      else Ok st.

(** A [for] loop whose body may raise. *)
Fixpoint for_loop {S A : Type} (body : S -> A -> result S)
    (st : S) (l : list A) : result S :=
  match l with
  | [] => Ok st
  | x :: l' => st' ← body st x; for_loop body st' l'
  end.

Definition extract_links (html : soup) (base_url : string)
    : result (list string) :=
  base_parsed ← Url.urlparse base_url;
  st ← for_loop (link_step base_url base_parsed) (∅, []) (hrefs html);
  mret st.2.

End WithLibrary.

End Extractor.

(* ===================================================================== *)
(** * app/matcher.py *)
(* ===================================================================== *)

Module Matcher.

Record MatchResult := {
  keyword : string;
  matched_text : string;
  position : Z
}.

Definition Rule : Type := string * Re.Pattern.

Section WithEngine.
Context (E : Re.engine).

Definition compile_rule (keyword : string) : result Rule :=
  let kw := Py.strip keyword in
  if Py.startswith kw "/" && Py.endswith kw "/" && (2 <? Py.len kw) then
    pattern ← Re.compile E (Py.slice kw 1 (-1)) [Re.IGNORECASE];
    mret (kw, pattern)
  else if Py.endswith kw "*" then
    let prefix := Re.escape (Py.slice_to kw (-1)) in
    pattern ← Re.compile E ("\b" +:+ prefix +:+ "\w*") [Re.IGNORECASE];
    mret (kw, pattern)
  else
    let escaped := Re.escape kw in
    pattern ← Re.compile E ("\b" +:+ escaped +:+ "\b") [Re.IGNORECASE];
    mret (kw, pattern).

Definition compile_rules (keywords : list string) : result (list Rule) :=
  for_each compile_rule
    (filter (fun k => Py.truthy (Py.strip k) = true) keywords).

(** [results.sort(key=lambda r: r.position)]; the sort is stable. *)
Fixpoint insert_by_position (r : MatchResult) (l : list MatchResult)
    : list MatchResult :=
  match l with
  | [] => [r]
  | r' :: l' =>
      if position r <=? position r' then r :: l
      else r' :: insert_by_position r l'
  end.
Definition sort_by_position (l : list MatchResult) : list MatchResult :=
  foldr insert_by_position [] l.

Definition find_matches (text : string) (rules : list Rule)
    : list MatchResult :=
  let results :=
    flat_map
      (fun '(keyword, pattern) =>
         map (fun m => {| keyword := keyword; matched_text := m.2;
                          position := m.1 |})
             (Re.finditer E pattern text))
      rules in
  sort_by_position results.

Definition any_match (text : string) (rules : list Rule) : bool :=
  existsb (fun '(_, pattern) => Re.search E pattern text) rules.

End WithEngine.

End Matcher.

(* ===================================================================== *)
(** * The rule compiler as the specification words it *)
(* ===================================================================== *)

Module RuleSpec.

(** The three input forms, in the priority in which the specification
    lists them. *)
Inductive form := Delimited | SuffixWildcard | Plain.

Definition first_char (s : string) : option ascii := head (Py.chars s).
Definition last_char (s : string) : option ascii := last (Py.chars s).

(** A string without its last character. *)
Definition drop_last (s : string) : string :=
  Py.str (removelast (Py.chars s)).

(** A string without its first and its last character. *)
Definition enclosed (s : string) : string :=
  Py.str (removelast (tail (Py.chars s))).

Definition form_of (kw : string) : form :=
  if bool_decide (first_char kw = Some "/"%char
                  /\ last_char kw = Some "/"%char
                  /\ (2 < String.length kw)%nat)
  then Delimited
  else if bool_decide (last_char kw = Some "*"%char) then SuffixWildcard
  else Plain.

(** The regular expression of a keyword: the enclosed text as it is;
    boundary, escaped literal, word-character star; boundary on both
    sides of the escaped literal. *)
Definition source_of (kw : string) : string :=
  match form_of kw with
  | Delimited => enclosed kw
  | SuffixWildcard => "\b" +:+ Re.escape (drop_last kw) +:+ "\w*"
  | Plain => "\b" +:+ Re.escape kw +:+ "\b"
  end.

(** An entry is blank when nothing is left of it after trimming. *)
Definition blank (k : string) : Prop := Py.strip k = "".

Global Instance blank_dec k : Decision (blank k).
Proof. unfold blank. apply _. Defined.

End RuleSpec.

(* ===================================================================== *)
(** * app/crud.py *)
(* ===================================================================== *)

(** The three tables, and the statements of [app/crud.py] as functions on
    them.  Every statement is atomic and succeeds: faults of the database
    connection are not modelled.  Identifiers (UUIDs in the schema)
    are natural numbers; a new page takes the next unused one.  Timestamps
    are left out.  A statement on a row that does not exist changes
    nothing, as an [UPDATE ... WHERE id = $1] does. *)
Module Crud.

Inductive run_status := run_pending | run_running | run_completed | run_failed.
Inductive page_status := pending | scanning | completed | skipped | failed.

Record crawl_run_row := {
  domain : string;
  status : run_status;
  pages_found : Z;
  pages_scanned : Z;
  error_count : Z
}.

Record page_row := {
  id : nat;
  run_id : nat;
  url : string;
  page_state : page_status;
  total_hits : Z;
  keywords_csv : option string;
  notes : option string
}.

Record match_row := {
  page_id : nat;
  keyword : string;
  matched_text : string;
  tag : string;
  position : Z;
  snippet : string
}.

Record pool := {
  crawl_runs : gmap nat crawl_run_row;
  pages : list page_row;
  page_matches : list match_row;
  next_id : nat
}.

Definition with_runs (f : gmap nat crawl_run_row -> gmap nat crawl_run_row)
    (db : pool) : pool :=
  {| crawl_runs := f (crawl_runs db); pages := pages db;
     page_matches := page_matches db; next_id := next_id db |}.

Definition with_pages (f : list page_row -> list page_row) (db : pool)
    : pool :=
  {| crawl_runs := crawl_runs db; pages := f (pages db);
     page_matches := page_matches db; next_id := next_id db |}.

Definition set_status (s : run_status) (r : crawl_run_row) : crawl_run_row :=
  {| domain := domain r; status := s; pages_found := pages_found r;
     pages_scanned := pages_scanned r; error_count := error_count r |}.

Definition start_run (db : pool) (rid : nat) : pool :=
  with_runs (alter (set_status run_running) rid) db.

Definition finish_run (db : pool) (rid : nat) (success : bool) : pool :=
  let status := if success then run_completed else run_failed in
  with_runs (alter (set_status status) rid) db.

Definition increment_pages_found (db : pool) (rid : nat) (count : Z) : pool :=
  with_runs
    (alter (fun r =>
              {| domain := domain r; status := status r;
                 pages_found := pages_found r + count;
                 pages_scanned := pages_scanned r;
                 error_count := error_count r |}) rid) db.

Definition increment_pages_scanned (db : pool) (rid : nat) : pool :=
  with_runs
    (alter (fun r =>
              {| domain := domain r; status := status r;
                 pages_found := pages_found r;
                 pages_scanned := pages_scanned r + 1;
                 error_count := error_count r |}) rid) db.

Definition increment_error_count (db : pool) (rid : nat) : pool :=
  with_runs
    (alter (fun r =>
              {| domain := domain r; status := status r;
                 pages_found := pages_found r;
                 pages_scanned := pages_scanned r;
                 error_count := error_count r + 1 |}) rid) db.

(** Modelled from the spec: the unique constraint [idx_pages_run_id_url],
    which the schema declares and the sources only name.  It is on the
    pair of run and URL; these are the rows that a new row for the pair
    would clash with. *)
Definition conflicts (db : pool) (rid : nat) (u : string) : list page_row :=
  filter (fun p => run_id p = rid /\ url p = u) (pages db).

(** [INSERT ... ON CONFLICT ON CONSTRAINT idx_pages_run_id_url DO NOTHING
    RETURNING id] *)
Definition insert_page (db : pool) (rid : nat) (u : string)
    : option nat * pool :=
  match conflicts db rid u with
  | [] =>
      let row := {| id := next_id db; run_id := rid; url := u;
                    page_state := pending; total_hits := 0;
                    keywords_csv := None; notes := None |} in
      (Some (next_id db),
       {| crawl_runs := crawl_runs db; pages := pages db ++ [row];
          page_matches := page_matches db; next_id := S (next_id db) |})
  | _ :: _ => (None, db)
  end.

(** [UPDATE pages SET ... WHERE id = $1] *)
Definition update_page (f : page_row -> page_row) (db : pool) (pid : nat)
    : pool :=
  with_pages (map (fun p => if bool_decide (id p = pid) then f p else p)) db.

Definition update_page_scanning (db : pool) (pid : nat) : pool :=
  update_page
    (fun p => {| id := id p; run_id := run_id p; url := url p;
                 page_state := scanning; total_hits := total_hits p;
                 keywords_csv := keywords_csv p; notes := notes p |})
    db pid.

Definition update_page_completed (db : pool) (pid : nat) (hits : Z)
    (csv : option string) : pool :=
  update_page
    (fun p => {| id := id p; run_id := run_id p; url := url p;
                 page_state := completed; total_hits := hits;
                 keywords_csv := csv; notes := notes p |})
    db pid.

Definition update_page_skipped (db : pool) (pid : nat) (note : string)
    : pool :=
  update_page
    (fun p => {| id := id p; run_id := run_id p; url := url p;
                 page_state := skipped; total_hits := total_hits p;
                 keywords_csv := keywords_csv p; notes := Some note |})
    db pid.

Definition update_page_failed (db : pool) (pid : nat) (note : string)
    : pool :=
  update_page
    (fun p => {| id := id p; run_id := run_id p; url := url p;
                 page_state := failed; total_hits := total_hits p;
                 keywords_csv := keywords_csv p; notes := Some note |})
    db pid.

Definition insert_matches (db : pool) (matches : list match_row) : pool :=
  match matches with
  | [] => db
  | _ =>
      {| crawl_runs := crawl_runs db; pages := pages db;
         page_matches := page_matches db ++ matches;
         next_id := next_id db |}
  end.

End Crud.

(* ===================================================================== *)
(** * app/crawler.py *)
(* ===================================================================== *)

Module Crawler.

(** What the worker reads of an [httpx.Response]. [text] is the body as
    [BeautifulSoup] parses it. *)
Record Response := {
  status_code : Z;
  content_type : option string;
  text : Extractor.soup
}.

(** [response.raise_for_status()] *)
Definition raise_for_status (response : Response) : result unit :=
  if (200 <=? status_code response) && (status_code response <=? 299)
  then Ok tt
  else Raise (HTTPStatusError (status_code response)).

Section WithLibrary.
Context {lib : Url.Library}.

(** [p.geturl()] after [_replace(fragment="")], then [rstrip("/")]. *)
Definition _normalise_url (url : string) : result string :=
  p ← Url.urlparse url;
  mret (Py.rstrip_slash (Url.geturl (Url.replace_fragment p ""))).

Definition _same_host (url netloc : string) : result bool :=
  p ← Url.urlparse url;
  mret (String.eqb (Url.netloc p) netloc).

End WithLibrary.

(** ** Awaited calls *)

(** The statements that a worker awaits for their effect only. *)
Inductive statement :=
| increment_pages_found (run_id : nat) (count : Z)
| update_page_scanning (page_id : nat)
| update_page_failed (page_id : nat) (notes : string)
| update_page_skipped (page_id : nat) (notes : string)
| update_page_completed (page_id : nat) (total_hits : Z)
    (keywords_csv : option string)
| insert_matches (matches : list Crud.match_row)
| increment_pages_scanned (run_id : nat)
| increment_error_count (run_id : nat).

Definition execute (s : statement) (db : Crud.pool) : Crud.pool :=
  match s with
  | increment_pages_found rid count => Crud.increment_pages_found db rid count
  | update_page_scanning pid => Crud.update_page_scanning db pid
  | update_page_failed pid notes => Crud.update_page_failed db pid notes
  | update_page_skipped pid notes => Crud.update_page_skipped db pid notes
  | update_page_completed pid hits csv =>
      Crud.update_page_completed db pid hits csv
  | insert_matches ms => Crud.insert_matches db ms
  | increment_pages_scanned rid => Crud.increment_pages_scanned db rid
  | increment_error_count rid => Crud.increment_error_count db rid
  end.

(** A coroutine up to its next [await]: it has returned, or it awaits
    [crud.insert_page], [client.get] or one of the statements above and
    goes on with the answer.  Between two awaits a coroutine runs
    without interruption. *)
Inductive task (A : Type) :=
| Return (a : A)
| AwaitInsertPage (run_id : nat) (url : string) (k : option nat -> task A)
| AwaitGet (url : string) (k : result Response -> task A)
| Await (s : statement) (k : task A).
Arguments Return {A} a.
Arguments AwaitInsertPage {A} run_id url k.
Arguments AwaitGet {A} url k.
Arguments Await {A} s k.

Fixpoint then_ {A B : Type} (t : task A) (f : A -> task B) : task B :=
  match t with
  | Return a => f a
  | AwaitInsertPage rid url k => AwaitInsertPage rid url (fun r => then_ (k r) f)
  | AwaitGet url k => AwaitGet url (fun r => then_ (k r) f)
  | Await s k => Await s (then_ k f)
  end.

Notation "'await' s ;; k" := (Await s k)
  (at level 100, s at next level, k at level 200, right associativity,
   only parsing).

(** How the body of a [try] ends: it returns, or it raises while
    [discovered_links] has some value. *)
Inductive outcome :=
| Returned (links : list string)
| Raised (e : exn) (discovered_links : list string).

(** [str(exc)] *)
Definition exn_str (e : exn) : string :=
  match e with
  | re_error pattern => pattern
  | ValueError msg => msg
  | HTTPStatusError code => Py.str_of_int code
  | RequestError name => name
  | OtherException msg => msg
  end.

Section WithEnvironment.
Context {lib : Url.Library}.
Context (E : Re.engine) (settings : Config.Settings).

(** The record that step 5 of [_scan_page] appends for the match [mr] in
    the segment [seg]. *)
Definition match_record (page_id : nat) (seg : Extractor.TextSegment)
    (mr : Matcher.MatchResult) : Crud.match_row :=
  let abs_pos := Extractor.char_offset seg + Matcher.position mr in
  let snippet :=
    Snippet._make_snippet settings (Extractor.text seg)
      (Matcher.position mr) None in
  {| Crud.page_id := page_id;
     Crud.keyword := Matcher.keyword mr;
     Crud.matched_text := Matcher.matched_text mr;
     Crud.tag := Extractor.tag seg;
     Crud.position := abs_pos;
     Crud.snippet := snippet |}.

(** The two loops of step 5 of [_scan_page]. *)
Definition scan_segments (page_id : nat)
    (segments : list Extractor.TextSegment)
    (keyword_rules : list Matcher.Rule) : list Crud.match_row :=
  flat_map
    (fun seg =>
       map (match_record page_id seg)
           (Matcher.find_matches E (Extractor.text seg) keyword_rules))
    segments.

(** [",".join(sorted(hit_keywords)) or None] *)
Definition keywords_csv_of (all_matches : list Crud.match_row)
    : option string :=
  let hit_keywords : gset string :=
    list_to_set (map Crud.keyword all_matches) in
  let csv :=
    Py.join "," (merge_sort String.le (elements hit_keywords)) in
  if Py.truthy csv then Some csv else None.

(** The body of the [try] in [_scan_page]. *)
Definition scan_body (url : string) (run_id page_id : nat)
    (keyword_rules exclude_rules : list Matcher.Rule) : task outcome :=
  let discovered_links : list string := [] in
  AwaitGet url (fun got =>
  match got with
  | Raise e => Return (Raised e discovered_links)
  | Ok response =>
  match raise_for_status response with
  | Raise e => Return (Raised e discovered_links)
  | Ok _ =>
  let content_type := default "" (content_type response) in
  if negb (Py.contains content_type "html") then
    await update_page_failed page_id "Non-HTML content-type";;
    await increment_pages_scanned run_id;;
    Return (Returned [])
  else
  let html := text response in
  match Extractor.extract_links html url with
  | Raise e => Return (Raised e discovered_links)
  | Ok discovered_links =>
  let excluded : result bool :=
    match exclude_rules with
    | [] => Ok false
    | _ => p ← Url.urlparse url;
           mret (Matcher.any_match E (Url.path p) exclude_rules)
    end in
  match excluded with
  | Raise e => Return (Raised e discovered_links)
  | Ok true =>
    await update_page_skipped page_id "URL matched an exclude pattern";;
    await increment_pages_scanned run_id;;
    Return (Returned discovered_links)
  | Ok false =>
    let segments := Extractor.extract_segments html in
    let all_matches := scan_segments page_id segments keyword_rules in
    await insert_matches all_matches;;
    let keywords_csv := keywords_csv_of all_matches in
    await update_page_completed page_id
            (Z.of_nat (length all_matches)) keywords_csv;;
    await increment_pages_scanned run_id;;
    Return (Returned discovered_links)
  end end end end).

(** The [except] clauses of [_scan_page], in their order. *)
Definition scan_except (run_id page_id : nat) (o : outcome)
    : task (list string) :=
  match o with
  | Returned links => Return links
  | Raised (HTTPStatusError code) discovered_links =>
      let notes := "HTTP " +:+ Py.str_of_int code in
      await update_page_failed page_id notes;;
      await increment_error_count run_id;;
      await increment_pages_scanned run_id;;
      Return discovered_links
  | Raised (RequestError type_name) _ =>
      let notes := "Request error: " +:+ type_name in
      await update_page_failed page_id notes;;
      await increment_error_count run_id;;
      await increment_pages_scanned run_id;;
      Return []
  | Raised exc _ =>
      let notes := Py.slice_to (exn_str exc) 200 in
      await update_page_failed page_id notes;;
      await increment_error_count run_id;;
      await increment_pages_scanned run_id;;
      Return []
  end.

(** [_scan_page].  The semaphore only delays a worker; it is not
    modelled, so every schedule that it allows is among those
    considered. *)
Definition _scan_page (url : string) (run_id : nat) (netloc : string)
    (keyword_rules exclude_rules : list Matcher.Rule)
    : task (list string) :=
  AwaitInsertPage run_id url (fun page_id =>
  match page_id with
  | None => Return []
  | Some page_id =>
      await increment_pages_found run_id 1;;
      await update_page_scanning page_id;;
      then_ (scan_body url run_id page_id keyword_rules exclude_rules)
            (scan_except run_id page_id)
  end).

End WithEnvironment.

(** ** Running one coroutine to its end *)

(** [client] answers [client.get(url)]. *)
Fixpoint run {A : Type} (client : string -> result Response)
    (t : task A) (db : Crud.pool) : A * Crud.pool :=
  match t with
  | Return a => (a, db)
  | AwaitInsertPage rid url k =>
      let '(page_id, db') := Crud.insert_page db rid url in
      run client (k page_id) db'
  | AwaitGet url k => run client (k (client url)) db
  | Await s k => run client k (execute s db)
  end.

(** ** The orchestrator *)

(** The state of the loop of [crawl_run]. *)
Record frontier := {
  queue : list string;
  visited : gset string;
  pool : Crud.pool
}.

(** How the loop ends: the queue is empty or the ceiling is reached, an
    exception is raised, or the model has run out of fuel. *)
Inductive loop_end :=
| LoopDone
| LoopRaised (e : exn)
| OutOfFuel.

(** How [crawl_run] ends: it has marked the run completed, it has marked
    it failed, or an exception leaves [crawl_run]. *)
Inductive ending :=
| Completed
| Failed
| Escaped (e : exn)
| Unfinished.

(** [asyncio.Semaphore(value)] *)
Definition Semaphore (value : Z) : result unit :=
  if value <? 0
  then Raise (ValueError "Semaphore initial value must be >= 0")
  else Ok tt.

Section Orchestrator.
Context {lib : Url.Library}.
Context (E : Re.engine) (settings : Config.Settings).
(** [httpx.AsyncClient(...)]: the client, if it can be constructed. *)
Context (make_client : result (string -> result Response)).

(** The inner [while]: the next batch of URLs that are not visited. *)
Fixpoint next_batch (queue : list string) (visited : gset string)
    (batch : list string)
    : result (list string * gset string * list string) :=
  match queue with
  | [] => Ok (queue, visited, batch)
  | url :: queue' =>
      if Z.of_nat (length batch) <? Config.crawl_concurrency settings then
        norm ← _normalise_url url;
        if bool_decide (norm ∈ visited)
        then next_batch queue' visited batch
        else next_batch queue' ({[ norm ]} ∪ visited) (batch ++ [url])
      else Ok (queue, visited, batch)
  end.

(** [asyncio.gather] with [return_exceptions=True], in the schedule in
    which the workers of a batch run one after the other. *)
Fixpoint gather (client : string -> result Response) (run_id : nat)
    (netloc : string) (keyword_rules exclude_rules : list Matcher.Rule)
    (batch : list string) (db : Crud.pool)
    : list (result (list string)) * Crud.pool :=
  match batch with
  | [] => ([], db)
  | url :: batch' =>
      let out := run client
                   (_scan_page E settings url run_id netloc
                      keyword_rules exclude_rules) db in
      let rest := gather client run_id netloc keyword_rules exclude_rules
                    batch' out.2 in
      (Ok out.1 :: rest.1, rest.2)
  end.

(** [for link in result]: the links of one worker. *)
Fixpoint enqueue (netloc : string) (visited : gset string)
    (queue : list string) (links : list string) : result (list string) :=
  match links with
  | [] => Ok queue
  | link :: links' =>
      norm ← _normalise_url link;
      wanted ← (if bool_decide (norm ∉ visited)
                then _same_host link netloc else Ok false);
      enqueue netloc visited
        (if wanted : bool then queue ++ [link] else queue) links'
  end.

(** [for url, result in zip(batch, results)] *)
Fixpoint enqueue_all (netloc : string) (visited : gset string)
    (queue : list string) (results : list (result (list string)))
    : result (list string) :=
  match results with
  | [] => Ok queue
  | Raise _ :: results' => enqueue_all netloc visited queue results'
  | Ok links :: results' =>
      queue' ← enqueue netloc visited queue links;
      enqueue_all netloc visited queue' results'
  end.

(** The outer [while] of [crawl_run]; every turn costs one unit of
    fuel. *)
Fixpoint crawl_loop (fuel : nat) (client : string -> result Response)
    (run_id : nat) (netloc : string)
    (keyword_rules exclude_rules : list Matcher.Rule) (st : frontier)
    : frontier * loop_end :=
  match fuel with
  | O => (st, OutOfFuel)
  | S fuel' =>
      match queue st with
      | [] => (st, LoopDone)
      | _ :: _ =>
          if Config.max_pages_per_run settings
               <=? Z.of_nat (size (visited st))
          then (st, LoopDone)
          else
            match next_batch (queue st) (visited st) [] with
            | Raise e => (st, LoopRaised e)
            | Ok (queue', visited', batch) =>
                match batch with
                | [] =>
                    crawl_loop fuel' client run_id netloc keyword_rules
                      exclude_rules
                      {| queue := queue'; visited := visited';
                         pool := pool st |}
                | _ :: _ =>
                    let gathered :=
                      gather client run_id netloc keyword_rules
                        exclude_rules batch (pool st) in
                    match enqueue_all netloc visited' queue' gathered.1 with
                    | Raise e =>
                        ({| queue := queue'; visited := visited';
                            pool := gathered.2 |}, LoopRaised e)
                    | Ok queue'' =>
                        crawl_loop fuel' client run_id netloc keyword_rules
                          exclude_rules
                          {| queue := queue''; visited := visited';
                             pool := gathered.2 |}
                    end
                end
            end
      end
  end.

(** What [crawl_run] computes before its [try]. *)
Definition crawl_setup (domain : string) (keywords excludes : list string)
    : result (string * list Matcher.Rule * list Matcher.Rule * string) :=
  let seed :=
    if Py.startswith domain "http://" || Py.startswith domain "https://"
    then domain else "https://" +:+ domain in
  p ← Url.urlparse seed;
  let netloc := Url.netloc p in
  keyword_rules ← Matcher.compile_rules E keywords;
  exclude_rules ← Matcher.compile_rules E excludes;
  first ← _normalise_url seed;
  _ ← Semaphore (Config.crawl_concurrency settings);
  mret (netloc, keyword_rules, exclude_rules, first).

(** [crawl_run] *)
Definition crawl_run (fuel : nat) (run_id : nat) (domain : string)
    (keywords excludes : list string) (db : Crud.pool)
    : Crud.pool * ending :=
  let db := Crud.start_run db run_id in
  match crawl_setup domain keywords excludes with
  | Raise e => (db, Escaped e)
  | Ok (netloc, keyword_rules, exclude_rules, first) =>
      match make_client with
      | Raise e => (Crud.finish_run db run_id false, Failed)
      | Ok client =>
          let out :=
            crawl_loop fuel client run_id netloc keyword_rules exclude_rules
              {| queue := [first]; visited := ∅; pool := db |} in
          match out.2 with
          | LoopDone => (Crud.finish_run (pool out.1) run_id true, Completed)
          | LoopRaised e =>
              (Crud.finish_run (pool out.1) run_id false, Failed)
          | OutOfFuel => (pool out.1, Unfinished)
          end
      end
  end.

End Orchestrator.

(** ** Workers running concurrently *)

(** The tables and the coroutines that [asyncio.create_task] has made.  A
    coroutine that has returned stays in the list. *)
Record system := {
  store : Crud.pool;
  workers : list (task (list string))
}.

(** One step of the event loop: a worker is created for some URL, or
    some worker gets the answer to the call that it awaits and runs to
    its next [await].  The answer of [client.get] is arbitrary. *)
Inductive step {lib : Url.Library} (E : Re.engine)
    (settings : Config.Settings)
    : system -> system -> Prop :=
| step_create_task db ws url run_id netloc keyword_rules exclude_rules :
    step E settings
      {| store := db; workers := ws |}
      {| store := db;
         workers := ws ++ [_scan_page E settings url run_id netloc
                             keyword_rules exclude_rules] |}
| step_insert_page db ws i run_id url k :
    ws !! i = Some (AwaitInsertPage run_id url k) ->
    step E settings
      {| store := db; workers := ws |}
      {| store := (Crud.insert_page db run_id url).2;
         workers := <[i := k (Crud.insert_page db run_id url).1]> ws |}
| step_get db ws i url k answer :
    ws !! i = Some (AwaitGet url k) ->
    step E settings
      {| store := db; workers := ws |}
      {| store := db; workers := <[i := k answer]> ws |}
| step_statement db ws i s k :
    ws !! i = Some (Await s k) ->
    step E settings
      {| store := db; workers := ws |}
      {| store := execute s db; workers := <[i := k]> ws |}.

End Crawler.

(* ===================================================================== *)
(** * How a worker counts its page *)
(* ===================================================================== *)

(** The notions in which the order of a worker's counter updates is
    stated. *)
Module Accounting.
Import Crawler.

(** Where a worker stands with respect to the counters of one run: it has
    counted nothing, it has counted its page as found, or it has counted
    it as found and as scanned. *)
Inductive phase := Fresh | Found | Scanned.

(** The phase after a statement, if the statement is allowed in the
    phase: [pages_found] of the run grows once, by one, and only at the
    start; [pages_scanned] grows once and only after that.  Statements on
    other runs and on other columns are always allowed. *)
Definition advance (rid : nat) (ph : phase) (s : statement) : option phase :=
  match s with
  | increment_pages_found r count =>
      if bool_decide (r = rid) then
        match ph with
        | Fresh => if count =? 1 then Some Found else None
        | _ => None
        end
      else Some ph
  | increment_pages_scanned r =>
      if bool_decide (r = rid) then
        match ph with
        | Found => Some Scanned
        | _ => None
        end
      else Some ph
  | _ => Some ph
  end.

(** [follows rid Q ph t]: from phase [ph], whatever answers the coroutine
    [t] gets, each of its statements is allowed when it comes, and when
    [t] returns [a] in phase [ph'], [Q a ph'] holds. *)
Inductive follows {A : Type} (rid : nat) (Q : A -> phase -> Prop)
    : phase -> task A -> Prop :=
| follows_return a ph :
    Q a ph -> follows rid Q ph (Return a)
| follows_insert_page ph r u k :
    (forall page_id, follows rid Q ph (k page_id)) ->
    follows rid Q ph (AwaitInsertPage r u k)
| follows_get ph u k :
    (forall answer, follows rid Q ph (k answer)) ->
    follows rid Q ph (AwaitGet u k)
| follows_await ph ph' s k :
    advance rid ph s = Some ph' ->
    follows rid Q ph' k ->
    follows rid Q ph (Await s k).

(** What a worker in a phase has added to [pages_found] and not yet to
    [pages_scanned]. *)
Definition owed (ph : phase) : Z :=
  match ph with
  | Found => 1
  | _ => 0
  end.

Definition total_owed (phases : list phase) : Z :=
  foldr (fun ph acc => owed ph + acc) 0 phases.

(** A worker is settled when it is not in the middle phase. *)
Definition settled {A : Type} (_ : A) (ph : phase) : Prop := ph <> Found.

(** The counters of one run agree with the phases of the workers. *)
Definition balanced (rid : nat) (sys : system) : Prop :=
  exists phases,
    Forall2 (follows rid settled) phases (workers sys)
    /\ forall r, Crud.crawl_runs (store sys) !! rid = Some r ->
         Crud.pages_scanned r + total_owed phases <= Crud.pages_found r.

(** The phase of a worker of run [rid'], seen from run [rid], once it has
    counted its page as found, and once it has counted it as scanned. *)
Definition found_phase (rid rid' : nat) : phase :=
  if bool_decide (rid' = rid) then Found else Fresh.
Definition scanned_phase (rid rid' : nat) : phase :=
  if bool_decide (rid' = rid) then Scanned else Fresh.

(** A coroutine counts its page at registration, and then exactly once:
    what it awaits first is the registration of a page of the run; if no
    identifier comes back, it returns at once, with no links and having
    awaited no statement; if one comes back, the statement that it awaits
    next adds one to [pages_found] of the run, and from there on,
    whatever answers it gets, it adds one to [pages_scanned] of the run
    exactly once, and nothing more to [pages_found], before it
    returns. *)
Definition counts_at_registration (rid : nat) (t : task (list string))
    : Prop :=
  exists url k,
    t = AwaitInsertPage rid url k
    /\ k None = Return []
    /\ forall page_id, exists k',
         k (Some page_id) = Await (increment_pages_found rid 1) k'
         /\ follows rid (fun _ ph => ph = Scanned) Found k'.

(** A coroutine that, whatever answers it gets, has added one to
    [pages_found] and one to [pages_scanned] of the run, each exactly
    once, when it returns. *)
Definition counts_on_every_path (rid : nat) (t : task (list string))
    : Prop :=
  follows rid (fun _ ph => ph = Scanned) Fresh t.

End Accounting.

(* ===================================================================== *)
(** * The links of a page, one reference at a time *)
(* ===================================================================== *)

(** The notions in which the result of [extract_links] is stated. *)
Module LinkSpec.

(** What one hyperlink reference contributes to the result: nothing, or
    the canonical form of the URL that it resolves to.  A reference
    contributes when it is not empty, is none of the pseudo-links,
    resolves to an [http] or [https] URL, and that URL has the network
    location of the page. *)
Definition candidate {lib : Url.Library} (base_url : string) (base_parsed : Url.ParseResult)
    (raw_href : string) : result (option string) :=
  let href := Py.strip raw_href in
  if negb (Py.truthy href)
     || existsb (Py.startswith href) Extractor.pseudo_prefixes
  then Ok None
  else
    full ← Url.urljoin base_url href;
    parsed ← Url.urlparse full;
    if Py.mem (Url.scheme parsed) ["http"; "https"]
       && String.eqb (Url.netloc parsed) (Url.netloc base_parsed)
    then Ok (Some (Py.rstrip_slash
                     (Url.geturl (Url.replace_fragment parsed ""))))
    else Ok None.

(** The distinct elements of a list, in the order in which they are
    first seen. *)
Definition see (acc : list string) (x : string) : list string :=
  if bool_decide (x ∈ acc) then acc else acc ++ [x].
Definition first_seen (l : list string) : list string := foldl see [] l.

End LinkSpec.

(* ===================================================================== *)
(** * Canonical URLs *)
(* ===================================================================== *)

(** The notion in which the URLs of the frontier are described. *)
Module UrlSpec.

(** A URL is canonical when it is what [_normalise_url] returns for some
    URL. *)
Definition canonical {lib : Url.Library} (url : string) : Prop :=
  exists raw, Crawler._normalise_url raw = Ok url.

(** A URL is normal when [_normalise_url] returns it unchanged. *)
Definition normal {lib : Url.Library} (url : string) : Prop :=
  Crawler._normalise_url url = Ok url.

End UrlSpec.

(* ===================================================================== *)
(** * Notions for the statements about segments and workers *)
(* ===================================================================== *)

Module SegmentSpec.
Import Extractor.

(** What the loop of [extract_segments] keeps true of its two variables. *)
Definition accounted (st : list TextSegment * Z) : Prop :=
  st.2 = Py.len (virtual_text st.1) /\
  forall i seg, st.1 !! i = Some seg ->
    char_offset seg = Py.len (virtual_text (take i st.1)) /\
    Py.truthy (text seg) = true.

(** The document in the spec's words: a walk in document order, depth
    first, that does not enter the excluded containers and does not look
    below an allowed tag, which is a block. *)

(** The strings of the class [wanted] below a node that are outside the
    excluded containers, in document order; [container] is the class at
    the node. *)
Fixpoint visible (wanted container : option string) (n : node)
    : list string :=
  match n with
  | Tag name _ children =>
      if Py.mem name EXCLUDED_CONTAINERS then []
      else flat_map (visible wanted (container_of container name)) children
  | NavigableString s => if bool_decide (container = wanted) then [s] else []
  | Comment _ => []
  end.

(** The text of a block: its visible strings, trimmed, the empty ones
    left out, joined by a space and with every run of white space
    collapsed to one space. *)
Definition block_text (container : option string) (n : node) : string :=
  Py.join " "
    (Py.split
       (Py.join " "
          (filter (fun s => Py.truthy s = true)
                  (map Py.strip (visible None container n))))).

(** The blocks below a node, in document order, each with the name of
    its tag and its text: the allowed tags that are in no excluded
    container and below no allowed tag. *)
Fixpoint blocks (container : option string) (n : node)
    : list (string * string) :=
  match n with
  | Tag name _ children =>
      if Py.mem name EXCLUDED_CONTAINERS then []
      else if Py.mem name ALLOWED_TAGS then [(name, block_text container n)]
      else flat_map (blocks (container_of container name)) children
  | _ => []
  end.

(** The segments of a list of blocks: one for every block whose text is
    not empty, in the order of the blocks, at the offset at which the
    texts of the segments before it, each followed by one space, end. *)
Fixpoint layout (offset : Z) (bs : list (string * string))
    : list TextSegment :=
  match bs with
  | [] => []
  | (name, txt) :: bs' =>
      if Py.truthy txt
      then {| text := txt; tag := name; char_offset := offset |}
             :: layout (offset + Py.len txt + 1) bs'
      else layout offset bs'
  end.

(** The segments of a document. *)
Definition document_segments (html : soup) : list TextSegment :=
  layout 0 (flat_map (blocks None) html).

(** The document without the subtrees of the tags named in [names]. *)
Fixpoint prune (names : list string) (n : node) : list node :=
  match n with
  | Tag name attrs children =>
      if Py.mem name names then []
      else [Tag name attrs (flat_map (prune names) children)]
  | _ => [n]
  end.

(** What an element that [find_all] hands out adds to the segments, if
    its text is not empty. *)
Definition emit (el : element) : option (string * string) :=
  if _has_allowed_ancestor el then None
  else Some (el_name el, Py.join " " (Py.split (get_text " " el))).

End SegmentSpec.

Module WorkerSpec.
Import Crawler.

(** Every page row has an identifier that has been handed out. *)
Definition ids_issued (db : Crud.pool) : Prop :=
  Forall (fun p => (Crud.id p < Crud.next_id db)%nat) (Crud.pages db).

(** No two page rows have the same run and URL. *)
Definition pairs_unique (db : Crud.pool) : Prop :=
  forall rid u, (length (Crud.conflicts db rid u) <= 1)%nat.

(** The state in which the [try] of a worker starts. *)
Definition registered (db : Crud.pool) (rid : nat) (url : string)
    : Crud.pool :=
  Crud.update_page_scanning
    (Crud.increment_pages_found (Crud.insert_page db rid url).2 rid 1)
    (Crud.next_id db).

(** What a worker that has registered its page leaves behind when it
    has given the page the status [state] with [hits], [csv] and [note],
    and has counted it as found and as scanned, with [errors] more
    errors: the page is the one new row, and the counters of the run have
    grown accordingly. *)
Definition left_behind (db db' : Crud.pool) (rid : nat) (url : string)
    (state : Crud.page_status) (hits : Z) (csv note : option string)
    (errors : Z) : Prop :=
  Crud.pages db'
  = Crud.pages db
      ++ [ {| Crud.id := Crud.next_id db; Crud.run_id := rid;
              Crud.url := url; Crud.page_state := state;
              Crud.total_hits := hits; Crud.keywords_csv := csv;
              Crud.notes := note |} ]
  /\ forall r, Crud.crawl_runs db !! rid = Some r ->
       Crud.crawl_runs db' !! rid
       = Some {| Crud.domain := Crud.domain r;
                 Crud.status := Crud.status r;
                 Crud.pages_found := Crud.pages_found r + 1;
                 Crud.pages_scanned := Crud.pages_scanned r + 1;
                 Crud.error_count := Crud.error_count r + errors |}.

(** The three ways in which the [try] of a worker raises: the fetch
    raises, the status is not a success, or the links cannot be
    extracted. *)
Inductive fails {lib : Url.Library} (client : string -> result Response)
    (url : string)
    : exn -> Prop :=
| fails_fetch e :
    client url = Raise e -> fails client url e
| fails_status response :
    client url = Ok response ->
    ~ (200 <= status_code response <= 299) ->
    fails client url (HTTPStatusError (status_code response))
| fails_links response e :
    client url = Ok response ->
    200 <= status_code response <= 299 ->
    Py.contains (default "" (content_type response)) "html" = true ->
    Extractor.extract_links (text response) url = Raise e ->
    fails client url e.

(** The note that the [except] clauses write. *)
Definition failure_note (e : exn) : string :=
  match e with
  | HTTPStatusError code => "HTTP " +:+ Py.str_of_int code
  | RequestError type_name => "Request error: " +:+ type_name
  | _ => Py.slice_to (exn_str e) 200
  end.

(** The links that the body of a [try] holds when it ends. *)
Definition links_of (o : outcome) : list string :=
  match o with
  | Returned links => links
  | Raised _ discovered_links => discovered_links
  end.

End WorkerSpec.

(* ===================================================================== *)
(** * app/schemas.py: the validators of a request *)
(* ===================================================================== *)

Module Schemas.

(** [RunCreate.strip_domain] *)
Definition strip_domain (v : string) : string :=
  Py.rstrip_slash (Py.strip v).

(** [RunCreate.non_empty_strings] *)
Definition non_empty_strings (v : list string) : list string :=
  map Py.strip (filter (fun k => Py.truthy (Py.strip k) = true) v).

End Schemas.

(* ===================================================================== *)
(** * Further notions for the statements *)
(* ===================================================================== *)

Module MoreSpec.

(** The order of [find_matches]: by position. *)
Definition by_position (a b : Matcher.MatchResult) : Prop :=
  Matcher.position a <= Matcher.position b.

(** The names of the tags of a tree, in document order. *)
Fixpoint tag_names (n : Extractor.node) : list string :=
  match n with
  | Extractor.Tag name _ children => name :: flat_map tag_names children
  | _ => []
  end.

(** The document as [extract_segments] walks it: after every excluded
    container has been decomposed. *)
Definition stripped (html : Extractor.soup) : Extractor.soup :=
  fold_left Extractor.decompose_all Extractor.EXCLUDED_CONTAINERS html.

(** A character that is not white space. *)
Definition nsp (c : ascii) : Prop := Py.isspace c = false.

(** A word: at least one character, none of them white space. *)
Definition word (w : string) : Prop :=
  w <> "" /\ Forall nsp (Py.chars w).

(** The statuses in which a worker leaves a page. *)
Definition terminal (s : Crud.page_status) : Prop :=
  s = Crud.completed \/ s = Crud.skipped \/ s = Crud.failed.

(** Whether the exclude rules apply to a URL with the given path. *)
Definition excluded_by (E : Re.engine) (exclude_rules : list Matcher.Rule)
    (path : string) : bool :=
  match exclude_rules with
  | [] => false
  | _ => Matcher.any_match E path exclude_rules
  end.

#[global] Instance page_status_eq_dec : EqDecision Crud.page_status.
Proof. solve_decision. Defined.

(** A run row whose counters have grown. *)
Definition bump (found scanned errors : Z) (r : Crud.crawl_run_row)
    : Crud.crawl_run_row :=
  {| Crud.domain := Crud.domain r; Crud.status := Crud.status r;
     Crud.pages_found := Crud.pages_found r + found;
     Crud.pages_scanned := Crud.pages_scanned r + scanned;
     Crud.error_count := Crud.error_count r + errors |}.

(** The number of failed pages among [rows]. *)
Definition failures (rows : list Crud.page_row) : Z :=
  Z.of_nat (length (filter (fun p => Crud.page_state p = Crud.failed) rows)).

(** The number of records of [ms] for the page [pid]. *)
Definition hits_of (ms : list Crud.match_row) (pid : nat) : Z :=
  Z.of_nat (length (filter (fun m => Crud.page_id m = pid) ms)).

(** What the workers of run [rid] have made of [db]: the page rows [rows]
    and the match records [ms] have been appended and nothing else has
    changed in these tables; every new page is of the run, is in a final
    status and has as many hits as it has records; every new record is of
    a new, completed page; the run has counted every new page as found
    and as scanned, and [errors] errors, at most one per failed page. *)
Definition ledger (rid : nat) (db db' : Crud.pool)
    (rows : list Crud.page_row) (ms : list Crud.match_row) (errors : Z)
    : Prop :=
  Crud.pages db' = Crud.pages db ++ rows
  /\ Crud.page_matches db' = Crud.page_matches db ++ ms
  /\ (Crud.next_id db <= Crud.next_id db')%nat
  /\ Forall (fun p => Crud.run_id p = rid
                      /\ terminal (Crud.page_state p)
                      /\ (Crud.next_id db <= Crud.id p)%nat
                      /\ Crud.total_hits p = hits_of ms (Crud.id p)) rows
  /\ Forall (fun m => exists p, p ∈ rows
                                /\ Crud.page_id m = Crud.id p
                                /\ Crud.page_state p = Crud.completed) ms
  /\ 0 <= errors <= failures rows
  /\ forall r, Crud.crawl_runs db !! rid = Some r ->
       Crud.crawl_runs db' !! rid
       = Some (bump (Z.of_nat (length rows)) (Z.of_nat (length rows))
                 errors r).

(** The status in which [crawl_run] leaves its run. *)
Definition status_after (e : Crawler.ending) : Crud.run_status :=
  match e with
  | Crawler.Completed => Crud.run_completed
  | Crawler.Failed => Crud.run_failed
  | Crawler.Escaped _ | Crawler.Unfinished => Crud.run_running
  end.

(** [db] with the status of run [rid] set to [s]. *)
Definition marked (s : Crud.run_status) (rid : nat) (db : Crud.pool)
    : Crud.pool :=
  Crud.with_runs (alter (Crud.set_status s) rid) db.

(** The number of turns of the loop of [crawl_run] that suffice. *)
Definition turns (settings : Config.Settings) (visited : gset string) : nat :=
  Z.to_nat (Config.max_pages_per_run settings - Z.of_nat (size visited)) + 2.

(** The URLs that a run with the seed [first] on the host [netloc] may
    register: canonical URLs that are the seed or have that host. *)
Definition in_scope {lib : Url.Library} (netloc first u : string) : Prop :=
  UrlSpec.canonical u
  /\ (u = first \/ Crawler._same_host u netloc = Ok true).

(** The rows [rows] have the normal forms [norms]. *)
Definition normal_forms {lib : Url.Library} (rows : list Crud.page_row)
    (norms : list string) : Prop :=
  Forall2 (fun p n => Crawler._normalise_url (Crud.url p) = Ok n) rows norms.

(** The character that starts a fragment. *)
Definition hash : ascii := "#"%char.

(** A URL without a fragment and without a slash at its end. *)
Definition bare (url : string) : Prop :=
  Py.endswith url "/" = false /\ Url.has_char hash url = false.

(** An engine whose [search] finds a match exactly when [finditer] yields
    one, as Python's does. *)
Definition coherent (E : Re.engine) : Prop :=
  forall p t, Re.search E p t = true <-> Re.finditer E p t <> [].

(** What identifies a page row. *)
Definition key (p : Crud.page_row) : nat * nat * string :=
  (Crud.id p, Crud.run_id p, Crud.url p).

(** [db'] has the page rows of [db], with their identifiers, runs and
    URLs, and then more; it has the match records of [db] and then more;
    and it has the runs of [db], with their status and their domain. *)
Definition extends_ (db db' : Crud.pool) : Prop :=
  map key (Crud.pages db) `prefix_of` map key (Crud.pages db')
  /\ Crud.page_matches db `prefix_of` Crud.page_matches db'
  /\ forall rid,
       Crud.status <$> Crud.crawl_runs db' !! rid
       = Crud.status <$> Crud.crawl_runs db !! rid
       /\ Crud.domain <$> Crud.crawl_runs db' !! rid
          = Crud.domain <$> Crud.crawl_runs db !! rid.

End MoreSpec.
(* ===================================================================== *)
(** * Concrete inputs for the examples *)
(* ===================================================================== *)

Module Fixtures.
Import Extractor.

(** The library's answers on bracketed hosts at which the examples are
    evaluated: it refuses the host [[abc]], which is no address.  The
    theorems are stated for every library; none of them is about this
    one. *)
#[global] Instance hosts : Url.Library :=
  Url.of_table
    [ ("[abc]",
       ValueError "'abc' does not appear to be an IPv4 or IPv6 address") ].

(** An engine that knows the plain rule for [green] and refuses the
    unbalanced expression [(]. *)
Definition green_engine : Re.engine :=
  Re.of_table ["\bgreen\b"] [].

(** [<div> Hello <p>big world</p></div><p> </p><h1>Title</h1>] below a
    navigation bar. *)
Definition two_blocks : soup :=
  [ Tag "html" ∅ [ Tag "body" ∅
      [ Tag "nav" ∅ [ Tag "p" ∅ [ NavigableString "menu" ] ];
        Tag "div" ∅ [ NavigableString "  Hello  ";
                      Tag "p" ∅ [ NavigableString "big   world" ] ];
        Tag "p" ∅ [ NavigableString "   " ];
        Tag "h1" ∅ [ NavigableString "Title" ] ] ] ].

(** One run, just started, and no page yet. *)
Definition fresh_db : Crud.pool :=
  {| Crud.crawl_runs :=
       {[ 1%nat := {| Crud.domain := "example.com";
                      Crud.status := Crud.run_running;
                      Crud.pages_found := 0; Crud.pages_scanned := 0;
                      Crud.error_count := 0 |} ]};
     Crud.pages := []; Crud.page_matches := []; Crud.next_id := 0 |}.

(** A client that answers every request with a PDF. *)
Definition pdf_client (url : string) : result Crawler.Response :=
  Ok {| Crawler.status_code := 200;
        Crawler.content_type := Some "application/pdf";
        Crawler.text := [] |}.

(** A page with one link to the same host and one to another host. *)
Definition linking_page : soup :=
  [ Tag "html" ∅ [ Tag "body" ∅
      [ Tag "p" ∅ [ NavigableString "alpha" ];
        Tag "p" ∅ [ NavigableString "beta" ];
        Tag "a" {[ "href" := "/about/#team" ]} [ NavigableString "About" ];
        Tag "a" {[ "href" := "https://other.org/page" ]}
                [ NavigableString "Elsewhere" ] ] ] ].

Definition html_client (url : string) : result Crawler.Response :=
  Ok {| Crawler.status_code := 200;
        Crawler.content_type := Some "text/html; charset=utf-8";
        Crawler.text := linking_page |}.

(** The engine's answers for the rules [private] and [beta]. *)
Definition page_engine : Re.engine :=
  Re.of_table
    [ "\bprivate\b"; "\bbeta\b" ]
    [ ("\bprivate\b", "/private/report", [ (1, "private") ]);
      ("\bbeta\b", "beta", [ (0, "beta") ]) ].

Definition private_rule : Matcher.Rule :=
  ("private", {| Re.pattern := "\bprivate\b"; Re.flags := [Re.IGNORECASE] |}).

Definition beta_rule : Matcher.Rule :=
  ("beta", {| Re.pattern := "\bbeta\b"; Re.flags := [Re.IGNORECASE] |}).

(** A page with a link whose query is a single slash. *)
Definition query_slash_page : soup :=
  [ Tag "html" ∅ [ Tag "body" ∅
      [ Tag "a" {[ "href" := "/b?/" ]} [ NavigableString "b" ] ] ] ].

Definition query_slash_client (url : string) : result Crawler.Response :=
  Ok {| Crawler.status_code := 200;
        Crawler.content_type := Some "text/html";
        Crawler.text := query_slash_page |}.

(** The engine's answers for the rule [green*] on one sentence. *)
Definition wildcard_engine : Re.engine :=
  Re.of_table
    [ "\bgreen\w*" ]
    [ ("\bgreen\w*", "We are greenwashing our greenhouse gas report",
       [ (7, "greenwashing"); (24, "greenhouse") ]) ].

Definition report_page : soup :=
  [ Tag "html" ∅ [ Tag "body" ∅
      [ Tag "p" ∅
          [ NavigableString "We are greenwashing our greenhouse gas report" ]
      ] ] ].

Definition report_client (url : string) : result Crawler.Response :=
  Ok {| Crawler.status_code := 200;
        Crawler.content_type := Some "text/html";
        Crawler.text := report_page |}.

End Fixtures.

(* ===================================================================== *)
(** * More examples *)
(* ===================================================================== *)

Module Fixtures2.

(** Settings with a low page ceiling. *)
Definition small_settings : Config.Settings :=
  {| Config.crawl_concurrency := 2; Config.max_pages_per_run := 3;
     Config.snippet_context := 120 |}.

(** Settings with [CRAWL_CONCURRENCY=0]. *)
Definition idle_settings : Config.Settings :=
  {| Config.crawl_concurrency := 0; Config.max_pages_per_run := 500;
     Config.snippet_context := 120 |}.

(** A page with allowed tags inside an allowed tag, a list item outside
    of it, and a footer:
    [<div>outer <p>inner <span>deep</span></p></div>
     <ul><li>item</li></ul><footer><p>imprint</p></footer>]. *)
Definition nested_page : Extractor.soup :=
  [ Extractor.Tag "html" ∅ [ Extractor.Tag "body" ∅
      [ Extractor.Tag "div" ∅
          [ Extractor.NavigableString "outer ";
            Extractor.Tag "p" ∅
              [ Extractor.NavigableString "inner ";
                Extractor.Tag "span" ∅
                  [ Extractor.NavigableString "deep" ] ] ];
        Extractor.Tag "ul" ∅
          [ Extractor.Tag "li" ∅ [ Extractor.NavigableString "item" ] ];
        Extractor.Tag "footer" ∅
          [ Extractor.Tag "p" ∅ [ Extractor.NavigableString "imprint" ] ]
      ] ] ].

End Fixtures2.

(* ===================================================================== *)
(** * Facts about the string functions *)
(* ===================================================================== *)

Module PyFacts.

Lemma len_app (a b : string) : Py.len (a +:+ b) = Py.len a + Py.len b.
Proof.
  unfold Py.len. induction a as [|c a IH]; simpl String.length.
  - change ("" +:+ b) with b. lia.
  - change (String c a +:+ b) with (String c (a +:+ b)).
    simpl String.length. lia.
Qed.

Lemma app_assoc (a b c : string) : (a +:+ b) +:+ c = a +:+ b +:+ c.
Proof.
  induction a as [|x a IH]; [reflexivity|].
  change (String x (a +:+ b +:+ c)) with (String x a +:+ b +:+ c) in *.
  change ((String x a +:+ b) +:+ c) with (String x ((a +:+ b) +:+ c)).
  by rewrite IH.
Qed.

Lemma len_nonneg (s : string) : 0 <= Py.len s.
Proof. unfold Py.len. lia. Qed.

Lemma truthy_len (s : string) : Py.truthy s = true <-> 0 < Py.len s.
Proof. destruct s; unfold Py.len; simpl; split; (congruence || lia). Qed.

End PyFacts.

(* ===================================================================== *)
(** * Offsets of text segments *)
(* ===================================================================== *)

Module ExtractorFacts.
Import Extractor SegmentSpec.

Lemma virtual_text_snoc segs seg :
  virtual_text (segs ++ [seg]) = virtual_text segs +:+ text seg +:+ " ".
Proof.
  induction segs as [|s segs IH]; simpl.
  - reflexivity.
  - rewrite IH. by rewrite !PyFacts.app_assoc.
Qed.

Lemma len_virtual_text_snoc segs seg :
  Py.len (virtual_text (segs ++ [seg]))
  = Py.len (virtual_text segs) + Py.len (text seg) + 1.
Proof.
  rewrite virtual_text_snoc, !PyFacts.len_app.
  change (Py.len " ") with 1. lia.
Qed.

Lemma accounted_nil : accounted ([], 0).
Proof.
  split; [reflexivity|]. intros i seg H. simpl in H.
  rewrite lookup_nil in H. discriminate.
Qed.

Lemma segment_step_accounted st el :
  accounted st -> accounted (segment_step st el).
Proof.
  destruct st as [segs off]. intros [Hoff Hsegs]. unfold segment_step.
  destruct (_has_allowed_ancestor el); [by split|].
  set (txt := Py.join " " (Py.split (get_text " " el))).
  destruct (Py.truthy txt) eqn:Htxt; simpl; [|by split].
  simpl in Hoff, Hsegs. split; simpl.
  - rewrite len_virtual_text_snoc. simpl. lia.
  - intros i seg Hi.
    destruct (decide (i < length segs)%nat) as [Hlt|Hge].
    + rewrite lookup_app_l in Hi by done.
      rewrite take_app_le by lia. by apply Hsegs.
    + rewrite lookup_app_r in Hi by lia.
      destruct (i - length segs)%nat as [|k] eqn:Hk; simpl in Hi; [|done].
      inversion Hi; subst seg; clear Hi. simpl.
      assert (i = length segs) as -> by lia.
      rewrite take_app_length. by split.
Qed.

Lemma fold_segment_step_accounted els st :
  accounted st -> accounted (fold_left segment_step els st).
Proof.
  revert st. induction els as [|el els IH]; intros st Hst; simpl; [done|].
  apply IH. by apply segment_step_accounted.
Qed.

Lemma virtual_text_sum segs :
  Py.len (virtual_text segs)
  = foldr (fun seg acc => Py.len (text seg) + 1 + acc) 0 segs.
Proof.
  induction segs as [|s segs IH]; simpl; [reflexivity|].
  rewrite !PyFacts.len_app, IH. change (Py.len " ") with 1. lia.
Qed.

(** The loop invariant, read off at the end of [extract_segments]. *)
Lemma extract_segments_accounted (html : soup) (i : nat) (seg : TextSegment) :
  extract_segments html !! i = Some seg ->
  char_offset seg = Py.len (virtual_text (take i (extract_segments html)))
  /\ Py.truthy (text seg) = true.
Proof.
  intros Hi. unfold extract_segments in *.
  set (els := find_all ALLOWED_TAGS _) in *.
  destruct (fold_segment_step_accounted els ([], 0) accounted_nil)
    as [_ Hsegs].
  by apply Hsegs.
Qed.

(** ** The segments and the document *)

(** Induction on a tree, with the hypothesis for every child. *)
Lemma node_ind_children (P : node -> Prop) :
  (forall name attrs children,
     Forall P children -> P (Tag name attrs children)) ->
  (forall s, P (NavigableString s)) ->
  (forall s, P (Comment s)) ->
  forall n, P n.
Proof.
  intros Htag Hstr Hcom. fix IH 1. intros [name attrs children|s|s].
  - apply Htag. induction children as [|c children IHc]; constructor.
    + apply IH.
    + exact IHc.
  - apply Hstr.
  - apply Hcom.
Qed.

Lemma flat_map_Forall_ext {A B : Type} (f g : A -> list B) (l : list A) :
  Forall (fun x => f x = g x) l -> flat_map f l = flat_map g l.
Proof. induction 1 as [|x l Hx _ IH]; simpl; [done|]. by rewrite Hx, IH. Qed.

Lemma flat_map_flat_map {A B C : Type} (f : B -> list C) (g : A -> list B)
    (l : list A) :
  flat_map f (flat_map g l) = flat_map (fun x => flat_map f (g x)) l.
Proof.
  induction l as [|x l IH]; simpl; [done|]. by rewrite flat_map_app, IH.
Qed.

Lemma mem_app (x : string) (l1 l2 : list string) :
  Py.mem x (l1 ++ l2) = Py.mem x l1 || Py.mem x l2.
Proof.
  unfold Py.mem. apply eq_true_iff_eq.
  rewrite orb_true_iff, !bool_decide_eq_true. apply elem_of_app.
Qed.

Lemma mem_singleton (x y : string) : Py.mem x [y] = String.eqb x y.
Proof.
  unfold Py.mem. apply eq_true_iff_eq.
  rewrite bool_decide_eq_true, String.eqb_eq. apply list_elem_of_singleton.
Qed.

(** Decomposing one more name prunes one more name. *)
Lemma decompose_prune (names : list string) (tag_name : string) (n : node) :
  flat_map (decompose_in tag_name) (prune names n)
  = prune (names ++ [tag_name]) n.
Proof.
  induction n as [name attrs children IH|s|s] using node_ind_children;
    [|reflexivity..].
  cbn [prune]. rewrite mem_app, mem_singleton.
  destruct (Py.mem name names); [reflexivity|].
  cbn [flat_map decompose_in orb]. rewrite app_nil_r.
  destruct (String.eqb name tag_name); [reflexivity|].
  do 2 f_equal. rewrite flat_map_flat_map. by apply flat_map_Forall_ext.
Qed.

Lemma prune_nil (n : node) : prune [] n = [n].
Proof.
  induction n as [name attrs children IH|s|s] using node_ind_children;
    [|reflexivity..].
  cbn [prune]. change (Py.mem name []) with false. cbv iota.
  do 2 f_equal. induction IH as [|c children Hc _ IHc]; [done|].
  cbn [flat_map]. by rewrite Hc, IHc.
Qed.

Lemma fold_decompose_prune (names acc : list string) (sp : soup) :
  fold_left decompose_all names (flat_map (prune acc) sp)
  = flat_map (prune (acc ++ names)) sp.
Proof.
  revert acc. induction names as [|x names IH]; intros acc; cbn [fold_left].
  - by rewrite app_nil_r.
  - unfold decompose_all at 2. rewrite flat_map_flat_map.
    rewrite (flat_map_ext _ (prune (acc ++ [x]))) by
      (intros n; apply decompose_prune).
    rewrite IH. by rewrite <- app_assoc.
Qed.

Lemma stripped_prune (sp : soup) :
  fold_left decompose_all EXCLUDED_CONTAINERS sp
  = flat_map (prune EXCLUDED_CONTAINERS) sp.
Proof.
  assert (flat_map (prune []) sp = sp) as Hid.
  { induction sp as [|n sp IH]; [done|].
    cbn [flat_map]. by rewrite prune_nil, IH. }
  pose proof (fold_decompose_prune EXCLUDED_CONTAINERS [] sp) as H.
  rewrite Hid in H. exact H.
Qed.

(** The strings of a pruned node are the visible strings of the node. *)
Lemma all_strings_visible (wanted container : option string) (n : node) :
  flat_map (all_strings wanted container) (prune EXCLUDED_CONTAINERS n)
  = visible wanted container n.
Proof.
  revert container.
  induction n as [name attrs children IH|s|s] using node_ind_children;
    intros container; [|cbn [prune flat_map]; apply app_nil_r..].
  cbn [prune visible].
  destruct (Py.mem name EXCLUDED_CONTAINERS); [reflexivity|].
  cbn [flat_map all_strings]. rewrite app_nil_r, flat_map_flat_map.
  apply flat_map_Forall_ext. eapply Forall_impl; [exact IH|].
  intros c Hc. apply Hc.
Qed.

(** Every element below a node has the parents of the node among its
    own. *)
Lemma tags_of_parents (parents : list string) (n : node) :
  Forall (fun el => exists inner, el_parents el = inner ++ parents)
         (tags_of parents n).
Proof.
  revert parents.
  induction n as [name attrs children IH|s|s] using node_ind_children;
    intros parents; [|constructor..].
  cbn [tags_of]. constructor; [by exists []|].
  apply Forall_forall. intros el Hel.
  apply list_elem_of_In, in_flat_map in Hel as (c & Hc & Hel).
  rewrite Forall_forall in IH.
  pose proof (IH c (proj2 (list_elem_of_In _ _) Hc) (name :: parents)) as H.
  rewrite Forall_forall in H.
  destruct (H el (proj2 (list_elem_of_In _ _) Hel)) as [inner ->].
  exists (inner ++ [name]). by rewrite <- app_assoc.
Qed.

(** Below an allowed tag nothing is emitted. *)
Lemma emit_below_allowed (parents : list string) (nodes : list node) :
  existsb (fun parent => Py.mem parent ALLOWED_TAGS) parents = true ->
  omap emit
    (filter (fun el => Py.mem (el_name el) ALLOWED_TAGS = true)
            (flat_map (tags_of parents) nodes)) = [].
Proof.
  intros Hp.
  assert (Forall (fun el => emit el = None)
            (flat_map (tags_of parents) nodes)) as Hall.
  { apply Forall_forall. intros el Hel.
    apply list_elem_of_In, in_flat_map in Hel as (c & _ & Hel).
    pose proof (tags_of_parents parents c) as H.
    rewrite Forall_forall in H.
    destruct (H el (proj2 (list_elem_of_In _ _) Hel)) as [inner Hel'].
    unfold emit, _has_allowed_ancestor.
    by rewrite Hel', existsb_app, Hp, orb_true_r. }
  induction Hall as [|el els Hel _ IH]; [done|].
  rewrite filter_cons. case_decide; [|exact IH].
  cbn [omap list_omap]. by rewrite Hel.
Qed.

Lemma allowed_not_container (name : string) :
  Py.mem name ALLOWED_TAGS = true -> container_of None name = None.
Proof.
  intros Hname. unfold container_of.
  destruct (Py.mem name string_containers) eqn:Hc; [|done].
  exfalso. unfold Py.mem in Hc. apply bool_decide_eq_true in Hc.
  apply list_elem_of_In in Hc. simpl in Hc.
  repeat (destruct Hc as [<-|Hc]; [by vm_compute in Hname|]).
  done.
Qed.

(** What the elements of a pruned node emit are the blocks of the
    node. *)
Lemma emit_blocks (parents : list string) (n : node) :
  existsb (fun parent => Py.mem parent ALLOWED_TAGS) parents = false ->
  omap emit
    (filter (fun el => Py.mem (el_name el) ALLOWED_TAGS = true)
            (flat_map (tags_of parents) (prune EXCLUDED_CONTAINERS n)))
  = blocks (foldr (fun parent acc => container_of acc parent) None parents)
           n.
Proof.
  revert parents.
  induction n as [name attrs children IH|s|s] using node_ind_children;
    intros parents Hp; [|reflexivity..].
  cbn [prune blocks].
  destruct (Py.mem name EXCLUDED_CONTAINERS); [reflexivity|].
  cbn [flat_map tags_of]. rewrite app_nil_r, filter_cons.
  cbn [el_name el_node].
  destruct (Py.mem name ALLOWED_TAGS) eqn:Hname.
  - rewrite decide_True by done. cbn [omap list_omap].
    rewrite emit_below_allowed.
    2: { cbn [existsb]. by rewrite Hname. }
    unfold emit, _has_allowed_ancestor. cbn [el_parents el_name el_node].
    rewrite Hp. do 3 f_equal.
    unfold get_text, block_text. cbn [el_parents el_name el_node].
    rewrite (allowed_not_container name Hname).
    pose proof (all_strings_visible None
                  (foldr (fun parent acc => container_of acc parent) None
                     parents) (Tag name attrs children)) as H.
    cbn [prune] in H.
    assert (Py.mem name EXCLUDED_CONTAINERS = false) as Hex.
    { destruct (Py.mem name EXCLUDED_CONTAINERS) eqn:Hex; [|done].
      exfalso. unfold Py.mem in Hex. apply bool_decide_eq_true in Hex.
      apply list_elem_of_In in Hex. simpl in Hex.
      repeat (destruct Hex as [<-|Hex]; [by vm_compute in Hname|]).
      done. }
    rewrite Hex in H. cbn [flat_map] in H. rewrite app_nil_r in H.
    by rewrite H.
  - rewrite decide_False by (by intros ?).
    rewrite flat_map_flat_map.
    assert (existsb (fun parent => Py.mem parent ALLOWED_TAGS)
              (name :: parents) = false) as Hp'.
    { cbn [existsb]. by rewrite Hname, Hp. }
    induction IH as [|c children Hc _ IHc]; [reflexivity|].
    cbn [flat_map]. rewrite filter_app, omap_app.
    rewrite (Hc (name :: parents) Hp'), IHc. reflexivity.
Qed.

(** The loop of [extract_segments] lays out what the elements emit. *)
Lemma fold_segment_step_layout (els : list element)
    (segs : list TextSegment) (off : Z) :
  (fold_left segment_step els (segs, off)).1
  = segs ++ layout off (omap emit els).
Proof.
  revert segs off. induction els as [|el els IH]; intros segs off.
  - cbn. by rewrite app_nil_r.
  - cbn [fold_left omap list_omap]. unfold segment_step at 2, emit.
    destruct (_has_allowed_ancestor el); [apply IH|].
    cbn [layout].
    destruct (Py.truthy (Py.join " " (Py.split (get_text " " el))));
      cbn [negb]; [|apply IH].
    rewrite IH. by rewrite <- app_assoc.
Qed.

(** [extract_segments] returns the segments of the document. *)
Lemma extract_segments_document (html : soup) :
  extract_segments html = document_segments html.
Proof.
  unfold extract_segments, document_segments.
  rewrite fold_segment_step_layout, stripped_prune. cbn [app]. f_equal.
  unfold find_all. rewrite flat_map_flat_map.
  induction html as [|n html IH]; [reflexivity|].
  cbn [flat_map]. rewrite filter_app, omap_app, IH. f_equal.
  apply (emit_blocks ["[document]"] n). reflexivity.
Qed.


(** C1.  [extract_segments] returns the segments of the document in
    document order: one for every allowed tag that is in no excluded
    container and below no allowed tag and whose text is not empty, in
    the order of a depth-first walk, with that tag's name and text.  In
    the list that it returns, the offset of the [i]-th segment is the sum,
    over the segments before it, of the length of the text plus one; that
    is the length of the earlier texts each followed by one space.  No
    returned segment has an empty text, so an element whose text is empty
    after trimming adds nothing. *)
Theorem extract_segments_offsets (html : soup) (i : nat) (seg : TextSegment) :
  extract_segments html = document_segments html
  /\ (extract_segments html !! i = Some seg ->
      char_offset seg
        = foldr (fun s acc => Py.len (text s) + 1 + acc) 0
                (take i (extract_segments html))
      /\ char_offset seg
         = Py.len (virtual_text (take i (extract_segments html)))
      /\ 0 < Py.len (text seg)).
Proof.
  split; [apply extract_segments_document|].
  intros Hi. destruct (extract_segments_accounted html i seg Hi) as [Hoff Hne].
  rewrite <- virtual_text_sum. split; [done|]. split; [done|].
  by apply PyFacts.truthy_len.
Qed.

Lemma extract_segments_offsets_witness :
  extract_segments Fixtures.two_blocks
  = [ {| text := "Hello big world"; tag := "div"; char_offset := 0 |};
      {| text := "Title"; tag := "h1"; char_offset := 16 |} ]
  /\ document_segments Fixtures.two_blocks
     = extract_segments Fixtures.two_blocks
  /\ 16 = Py.len (virtual_text (take 1 (extract_segments Fixtures.two_blocks))).
Proof.
  split; [reflexivity|]. split.
  - symmetry.
    exact (proj1 (extract_segments_offsets Fixtures.two_blocks 1
                    {| text := "Title"; tag := "h1"; char_offset := 16 |})).
  - exact (proj1 (proj2 (proj2 (extract_segments_offsets Fixtures.two_blocks 1
                           {| text := "Title"; tag := "h1";
                              char_offset := 16 |}) eq_refl))).
Defined.

End ExtractorFacts.

(* ===================================================================== *)
(** * The rule compiler *)
(* ===================================================================== *)

Module MatcherFacts.
Import Matcher.

Lemma length_chars (s : string) : length (Py.chars s) = String.length s.
Proof. induction s as [|c s IH]; simpl; [reflexivity|]. by rewrite IH. Qed.

Lemma startswith_char (s : string) (c : ascii) :
  Py.startswith s (String c "") = true <-> RuleSpec.first_char s = Some c.
Proof.
  unfold RuleSpec.first_char. destruct s as [|b s]; simpl.
  - split; discriminate.
  - assert (Py.startswith s "" = true) as -> by (by destruct s).
    rewrite andb_true_r, Ascii.eqb_eq.
    split; [by intros -> | by intros [= ->]].
Qed.

Lemma head_rev {A} (l : list A) : head (rev l) = last l.
Proof.
  induction l as [|x l IH] using rev_ind; [reflexivity|].
  by rewrite rev_app_distr, last_snoc.
Qed.

Lemma chars_str (l : list ascii) : Py.chars (Py.str l) = l.
Proof. apply String.list_ascii_of_string_of_list_ascii. Qed.

Lemma str_chars (s : string) : Py.str (Py.chars s) = s.
Proof. apply String.string_of_list_ascii_of_string. Qed.

Lemma endswith_char (s : string) (c : ascii) :
  Py.endswith s (String c "") = true <-> RuleSpec.last_char s = Some c.
Proof.
  unfold Py.endswith. change (Py.str (rev (Py.chars (String c ""))))
    with (String c "").
  rewrite startswith_char. unfold RuleSpec.first_char, RuleSpec.last_char.
  by rewrite chars_str, head_rev.
Qed.

Lemma removelast_take {A} (l : list A) :
  removelast l = take (length l - 1) l.
Proof.
  rewrite removelast_firstn_len. f_equal. lia.
Qed.

(** [kw[:-1]] drops the last character. *)
Lemma slice_to_minus_one (kw : string) :
  Py.slice_to kw (-1) = RuleSpec.drop_last kw.
Proof.
  unfold Py.slice_to, Py.slice, RuleSpec.drop_last, Py.adjust_index, Py.len.
  rewrite removelast_take, length_chars.
  change (0 <? 0) with false. change (-1 <? 0) with true. cbv iota.
  replace (Z.to_nat (Z.min 0 (Z.of_nat (String.length kw)))) with 0%nat
    by lia.
  rewrite drop_0. do 2 f_equal. lia.
Qed.

(** [kw[1:-1]] drops the first and the last character. *)
Lemma slice_one_minus_one (kw : string) :
  Py.slice kw 1 (-1) = RuleSpec.enclosed kw.
Proof.
  unfold Py.slice, RuleSpec.enclosed, Py.adjust_index, Py.len.
  rewrite removelast_take.
  change (1 <? 0) with false. change (-1 <? 0) with true. cbv iota.
  pose proof (length_chars kw) as Hlen.
  destruct (Py.chars kw) as [|c l] eqn:Hc; simpl in Hlen.
  - rewrite <- Hlen. reflexivity.
  - rewrite <- Hlen. simpl tail.
    replace (Z.to_nat (Z.min 1 (Z.of_nat (S (length l))))) with 1%nat by lia.
    simpl drop. do 2 f_equal. lia.
Qed.

Section WithEngine.
Context (E : Re.engine).

(** What [compile_rule] asks the engine to compile. *)
Lemma compile_rule_source (k : string) :
  compile_rule E k
  = pattern ← Re.compile E (RuleSpec.source_of (Py.strip k)) [Re.IGNORECASE];
    mret (Py.strip k, pattern).
Proof.
  unfold compile_rule, RuleSpec.source_of, RuleSpec.form_of.
  set (kw := Py.strip k).
  destruct (Py.startswith kw "/") eqn:Hs; simpl.
  - destruct (Py.endswith kw "/") eqn:He; simpl.
    + apply startswith_char in Hs. apply endswith_char in He.
      destruct (2 <? Py.len kw) eqn:Hl.
      * rewrite bool_decide_true;
          [by rewrite slice_one_minus_one|].
        unfold Py.len in Hl. repeat split; try done. lia.
      * rewrite bool_decide_false by (unfold Py.len in Hl; lia).
        rewrite bool_decide_false by congruence.
        destruct (Py.endswith kw "*") eqn:Hw; [|done].
        apply endswith_char in Hw. congruence.
    + rewrite bool_decide_false.
      2:{ intros (_ & Hl & _). apply endswith_char in Hl. congruence. }
      destruct (Py.endswith kw "*") eqn:Hw.
      * apply endswith_char in Hw. rewrite bool_decide_true by done.
        by rewrite slice_to_minus_one.
      * rewrite bool_decide_false; [done|].
        intros Hl. apply endswith_char in Hl. congruence.
  - rewrite bool_decide_false.
    2:{ intros (Hf & _). apply startswith_char in Hf. congruence. }
    destruct (Py.endswith kw "*") eqn:Hw.
    + apply endswith_char in Hw. rewrite bool_decide_true by done.
      by rewrite slice_to_minus_one.
    + rewrite bool_decide_false; [done|].
      intros Hl. apply endswith_char in Hl. congruence.
Qed.

Lemma nonblank_truthy (k : string) :
  Py.truthy (Py.strip k) = true <-> ~ RuleSpec.blank k.
Proof.
  unfold RuleSpec.blank. destruct (Py.strip k); simpl; split; congruence.
Qed.

(** The entries before the first one whose expression does not compile
    do not matter: the call raises for that one. *)
Lemma for_each_compile_rule_raises (before after : list string) (k : string) :
  Forall (fun k => Re.valid E (RuleSpec.source_of (Py.strip k)) = true)
         before ->
  Re.valid E (RuleSpec.source_of (Py.strip k)) = false ->
  for_each (compile_rule E) (before ++ k :: after)
  = Raise (re_error (RuleSpec.source_of (Py.strip k))).
Proof.
  intros Hbefore Hk. induction Hbefore as [|k0 before Hk0 _ IH]; simpl.
  - rewrite compile_rule_source. unfold Re.compile. by rewrite Hk.
  - rewrite compile_rule_source. unfold Re.compile. rewrite Hk0. simpl.
    by rewrite IH.
Qed.

(** A list has a first element with a property that some element has. *)
Lemma first_invalid (l : list string) :
  Exists (fun k => Re.valid E (RuleSpec.source_of (Py.strip k)) = false) l ->
  exists before k after,
    l = before ++ k :: after
    /\ Forall (fun k => Re.valid E (RuleSpec.source_of (Py.strip k)) = true)
              before
    /\ Re.valid E (RuleSpec.source_of (Py.strip k)) = false.
Proof.
  induction l as [|k0 l IH]; intros Hex; [by apply Exists_nil in Hex|].
  destruct (Re.valid E (RuleSpec.source_of (Py.strip k0))) eqn:Hk0.
  - apply Exists_cons in Hex as [Hex|Hex]; [congruence|].
    destruct (IH Hex) as (before & k & after & -> & Hbefore & Hk).
    exists (k0 :: before), k, after. repeat split; [by constructor|done].
  - exists [], k0, l. by repeat split.
Qed.

(** C9, as the code has it.  [compile_rules] goes through the entries
    that are not blank, in input order.  When every regular expression
    that they lead to compiles, it returns one pair per such entry, in
    that order: the first component is the entry with leading and
    trailing white space removed; the second is the case-insensitive
    pattern of the form that the trimmed entry has, the delimited form
    taking precedence over the suffix wildcard and that over the plain
    form.  When some expression does not compile, it returns no pair at
    all: it raises the error of the first entry whose expression does not
    compile, wherever in the list that entry stands. *)
Theorem compile_rules_pairs (keywords : list string) :
  let entries := filter (fun k => ~ RuleSpec.blank k) keywords in
  let compiles k := Re.valid E (RuleSpec.source_of (Py.strip k)) in
  (Forall (fun k => compiles k = true) entries ->
   compile_rules E keywords
   = Ok (map (fun k =>
                (Py.strip k,
                 {| Re.pattern := RuleSpec.source_of (Py.strip k);
                    Re.flags := [Re.IGNORECASE] |}))
             entries))
  /\ (forall before k after,
        entries = before ++ k :: after ->
        Forall (fun k => compiles k = true) before ->
        compiles k = false ->
        compile_rules E keywords
        = Raise (re_error (RuleSpec.source_of (Py.strip k))))
  /\ (Exists (fun k => compiles k = false) entries ->
      exists k, k ∈ entries /\ compiles k = false
                /\ compile_rules E keywords
                   = Raise (re_error (RuleSpec.source_of (Py.strip k)))).
Proof.
  cbv zeta. unfold compile_rules.
  rewrite (list_filter_iff (fun k => Py.truthy (Py.strip k) = true)
             (fun k => ~ RuleSpec.blank k))
    by apply nonblank_truthy.
  split; [|split].
  - induction (filter (fun k => ~ RuleSpec.blank k) keywords)
      as [|k ks IH]; intros Hvalid; [reflexivity|].
    apply Forall_cons in Hvalid as [Hk Hks]. simpl.
    rewrite compile_rule_source. unfold Re.compile. rewrite Hk. simpl.
    rewrite (IH Hks). reflexivity.
  - intros before k after -> Hbefore Hk.
    by apply for_each_compile_rule_raises.
  - intros Hex.
    destruct (first_invalid _ Hex) as (before & k & after & Heq & Hbefore & Hk).
    exists k. split; [|split; [exact Hk|]].
    + rewrite Heq. apply elem_of_app. right. by left.
    + rewrite Heq. by apply for_each_compile_rule_raises.
Qed.

End WithEngine.

Lemma compile_rules_pairs_witness :
  compile_rules Fixtures.green_engine [" green "; "  "]
  = Ok [("green", {| Re.pattern := "\bgreen\b"; Re.flags := [Re.IGNORECASE] |})]
  /\ compile_rules Fixtures.green_engine ["green"; " "; "/(/"; "green"]
     = Raise (re_error "(").
Proof.
  split.
  - apply (proj1 (compile_rules_pairs Fixtures.green_engine
                    [" green "; "  "])).
    repeat constructor.
  - apply (proj1 (proj2 (compile_rules_pairs Fixtures.green_engine
                           ["green"; " "; "/(/"; "green"]))
             ["green"] "/(/" ["green"]).
    + reflexivity.
    + repeat constructor.
    + reflexivity.
Defined.

(** C9 as it is worded fails twice: the first component of a pair is the
    trimmed entry, not the entry as given, and an entry whose delimited
    expression does not compile makes the whole call raise. *)
Lemma compile_rules_original_refuted :
  ~ (exists rules, compile_rules Fixtures.green_engine [" green "] = Ok rules
                   /\ map fst rules = [" green "])
  /\ compile_rules Fixtures.green_engine ["/(/"] = Raise (re_error "(").
Proof.
  split; [|reflexivity].
  intros (rules & Hrules & Hfst). vm_compute in Hrules.
  inversion Hrules; subst rules. discriminate Hfst.
Qed.

End MatcherFacts.

(* ===================================================================== *)
(** * The tables *)
(* ===================================================================== *)

Module CrudFacts.
Import Crud WorkerSpec.

Lemma update_page_old (f : page_row -> page_row) (rows : list page_row)
    (pid : nat) :
  Forall (fun p => (id p < pid)%nat) rows ->
  map (fun p => if bool_decide (id p = pid) then f p else p) rows = rows.
Proof.
  induction 1 as [|p rows Hp _ IH]; simpl; [reflexivity|].
  rewrite bool_decide_false by lia. by rewrite IH.
Qed.

(** An update of the page that was inserted last touches that row only. *)
Lemma update_page_last (f : page_row -> page_row) (db : pool)
    (rows : list page_row) (row : page_row) (pid : nat) :
  pages db = rows ++ [row] ->
  id row = pid ->
  Forall (fun p => (id p < pid)%nat) rows ->
  pages (update_page f db pid) = rows ++ [f row].
Proof.
  intros Hpages <- Hold. unfold update_page, with_pages. simpl.
  rewrite Hpages, map_app, update_page_old by done. simpl.
  by rewrite bool_decide_true.
Qed.

Lemma insert_page_fresh (db : pool) (rid : nat) (u : string) :
  conflicts db rid u = [] ->
  insert_page db rid u
  = (Some (next_id db),
     {| crawl_runs := crawl_runs db;
        pages := pages db ++ [ {| id := next_id db; run_id := rid; url := u;
                                  page_state := pending; total_hits := 0;
                                  keywords_csv := None; notes := None |} ];
        page_matches := page_matches db; next_id := S (next_id db) |}).
Proof. unfold insert_page. by intros ->. Qed.

Lemma insert_page_duplicate (db : pool) (rid : nat) (u : string) :
  conflicts db rid u <> [] -> insert_page db rid u = (None, db).
Proof. unfold insert_page. by destruct (conflicts db rid u). Qed.

Lemma conflicts_after_insert (db : pool) (rid : nat) (u : string) :
  conflicts db rid u = [] ->
  length (conflicts (insert_page db rid u).2 rid u) = 1%nat.
Proof.
  intros Hnone. rewrite insert_page_fresh by done.
  unfold conflicts in *. simpl. rewrite filter_app, Hnone. simpl.
  rewrite filter_cons_True by done. reflexivity.
Qed.

Lemma runs_update_page (f : page_row -> page_row) (db : pool) (pid : nat) :
  crawl_runs (update_page f db pid) = crawl_runs db.
Proof. reflexivity. Qed.

Lemma conflicts_map (g : page_row -> page_row) (rows : list page_row)
    (rid : nat) (u : string) :
  (forall p, run_id (g p) = run_id p /\ url (g p) = url p) ->
  length (filter (fun p => run_id p = rid /\ url p = u) (map g rows))
  = length (filter (fun p => run_id p = rid /\ url p = u) rows).
Proof.
  intros Hg. induction rows as [|p rows IH]; simpl; [reflexivity|].
  destruct (Hg p) as [Hr Hu].
  destruct (decide (run_id p = rid /\ url p = u)) as [Hp|Hp].
  - rewrite !filter_cons_True by (rewrite ?Hr, ?Hu; done). simpl.
    by rewrite IH.
  - rewrite !filter_cons_False by (rewrite ?Hr, ?Hu; done). done.
Qed.

(** An update of a page keeps the run and the URL of every row. *)
Lemma conflicts_update_page (f : page_row -> page_row) (db : pool)
    (pid rid : nat) (u : string) :
  (forall p, run_id (f p) = run_id p /\ url (f p) = url p) ->
  length (conflicts (update_page f db pid) rid u)
  = length (conflicts db rid u).
Proof.
  intros Hf. unfold conflicts, update_page, with_pages. simpl.
  apply conflicts_map. intros p. cbv beta.
  match goal with |- context [if ?b then _ else _] => destruct b end;
    [apply Hf|done].
Qed.

Lemma conflicts_insert_page (db : pool) (rid rid' : nat) (u u' : string) :
  length (conflicts (insert_page db rid u).2 rid' u')
  = if bool_decide (conflicts db rid u = [] /\ rid = rid' /\ u = u')
    then 1%nat else length (conflicts db rid' u').
Proof.
  unfold insert_page. destruct (conflicts db rid u) as [|c cs] eqn:Hc.
  - unfold conflicts at 1. simpl. rewrite filter_app, length_app.
    case_bool_decide as Hsame.
    + destruct Hsame as (_ & <- & <-). fold (conflicts db rid u).
      rewrite Hc. rewrite filter_cons_True by done. reflexivity.
    + rewrite filter_cons_False; [simpl; unfold conflicts; lia|].
      simpl. intros [-> ->]. by apply Hsame.
  - reflexivity.
Qed.

Lemma pairs_unique_insert_page (db : pool) (rid : nat) (u : string) :
  pairs_unique db -> pairs_unique (insert_page db rid u).2.
Proof.
  intros Hdb rid' u'. rewrite conflicts_insert_page.
  case_bool_decide; [lia|apply Hdb].
Qed.

Lemma pages_insert_matches (db : pool) (ms : list match_row) :
  pages (insert_matches db ms) = pages db.
Proof. by destruct ms. Qed.

Lemma runs_insert_matches (db : pool) (ms : list match_row) :
  crawl_runs (insert_matches db ms) = crawl_runs db.
Proof. by destruct ms. Qed.

End CrudFacts.

(* ===================================================================== *)
(** * One worker, run to its end *)
(* ===================================================================== *)

Module WorkerFacts.
Import Crawler WorkerSpec.

Lemma run_then {A B : Type} (client : string -> result Response)
    (t : task A) (f : A -> task B) (db : Crud.pool) :
  run client (then_ t f) db
  = run client (f (run client t db).1) (run client t db).2.
Proof.
  revert db. induction t as [a|rid u k IH|u k IH|s k IH]; intros db; simpl.
  - reflexivity.
  - destruct (Crud.insert_page db rid u) as [page_id db']. apply IH.
  - apply IH.
  - apply IH.
Qed.

Section WithEnvironment.
Context {lib : Url.Library}.
Context (E : Re.engine) (settings : Config.Settings).
Context (client : string -> result Response).

Lemma run_scan_page_fresh (db : Crud.pool) (url : string) (rid : nat)
    (netloc : string) (kr er : list Matcher.Rule) :
  Crud.conflicts db rid url = [] ->
  run client (_scan_page E settings url rid netloc kr er) db
  = run client
      (then_ (scan_body E settings url rid (Crud.next_id db) kr er)
             (scan_except rid (Crud.next_id db)))
      (registered db rid url).
Proof.
  intros Hfresh. unfold _scan_page, registered. simpl.
  rewrite CrudFacts.insert_page_fresh by done. reflexivity.
Qed.

Lemma registered_pages (db : Crud.pool) (url : string) (rid : nat) :
  Crud.conflicts db rid url = [] ->
  ids_issued db ->
  Crud.pages (registered db rid url)
  = Crud.pages db
      ++ [ {| Crud.id := Crud.next_id db; Crud.run_id := rid;
              Crud.url := url; Crud.page_state := Crud.scanning;
              Crud.total_hits := 0; Crud.keywords_csv := None;
              Crud.notes := None |} ].
Proof.
  intros Hfresh Hids. unfold registered.
  rewrite CrudFacts.insert_page_fresh by done.
  unfold Crud.update_page_scanning.
  erewrite (CrudFacts.update_page_last _ _ (Crud.pages db)
             {| Crud.id := Crud.next_id db; Crud.run_id := rid;
                Crud.url := url; Crud.page_state := Crud.pending;
                Crud.total_hits := 0; Crud.keywords_csv := None;
                Crud.notes := None |});
    [reflexivity|reflexivity|reflexivity|done].
Qed.

Lemma registered_runs (db : Crud.pool) (url : string) (rid : nat)
    (r : Crud.crawl_run_row) :
  Crud.conflicts db rid url = [] ->
  Crud.crawl_runs db !! rid = Some r ->
  Crud.crawl_runs (registered db rid url) !! rid
  = Some {| Crud.domain := Crud.domain r; Crud.status := Crud.status r;
            Crud.pages_found := Crud.pages_found r + 1;
            Crud.pages_scanned := Crud.pages_scanned r;
            Crud.error_count := Crud.error_count r |}.
Proof.
  intros Hfresh Hr. unfold registered.
  rewrite CrudFacts.insert_page_fresh by done. simpl.
  by rewrite lookup_alter_eq, Hr.
Qed.

Lemma registered_matches (db : Crud.pool) (url : string) (rid : nat) :
  Crud.page_matches (registered db rid url) = Crud.page_matches db.
Proof.
  unfold registered, Crud.insert_page.
  by destruct (Crud.conflicts db rid url).
Qed.

Ltac finish_left_behind Hfresh Hids :=
  unfold Crud.increment_pages_scanned, Crud.increment_error_count,
    Crud.update_page_failed, Crud.update_page_skipped,
    Crud.update_page_completed, Crud.with_runs;
  split;
  [ cbn [Crud.pages];
    erewrite CrudFacts.update_page_last;
    [
    | rewrite ?CrudFacts.pages_insert_matches;
      exact (registered_pages _ _ _ Hfresh Hids)
    | reflexivity
    | exact Hids ];
    reflexivity
  | intros r Hr; cbn [Crud.crawl_runs];
    rewrite !lookup_alter_eq, !CrudFacts.runs_update_page,
      ?CrudFacts.runs_insert_matches;
    erewrite registered_runs by eassumption;
    cbn; do 2 f_equal; lia ].

(** The page whose content type is not HTML. *)
Lemma run_non_html (db : Crud.pool) (url : string) (rid : nat)
    (netloc : string) (kr er : list Matcher.Rule) (response : Response) :
  ids_issued db ->
  Crud.conflicts db rid url = [] ->
  client url = Ok response ->
  200 <= status_code response <= 299 ->
  Py.contains (default "" (content_type response)) "html" = false ->
  let out := run client (_scan_page E settings url rid netloc kr er) db in
  out.1 = []
  /\ left_behind db out.2 rid url Crud.failed 0 None
       (Some "Non-HTML content-type") 0
  /\ Crud.page_matches out.2 = Crud.page_matches db.
Proof.
  intros Hids Hfresh Hget Hstatus Hct. cbv zeta.
  rewrite run_scan_page_fresh, run_then by done.
  unfold scan_body. simpl. rewrite Hget. unfold raise_for_status.
  destruct (Z.leb_spec 200 (status_code response)); [|lia].
  destruct (Z.leb_spec (status_code response) 299); [|lia].
  simpl. rewrite Hct. simpl.
  split; [reflexivity|]. split; [|apply registered_matches].
  finish_left_behind Hfresh Hids.
Qed.

Lemma run_scan_except_raised (db : Crud.pool) (url : string) (rid : nat)
    (e : exn) :
  ids_issued db ->
  Crud.conflicts db rid url = [] ->
  let out := run client (scan_except rid (Crud.next_id db) (Raised e []))
                 (registered db rid url) in
  out.1 = []
  /\ left_behind db out.2 rid url Crud.failed 0 None
       (Some (failure_note e)) 1
  /\ Crud.page_matches out.2 = Crud.page_matches db.
Proof.
  intros Hids Hfresh. cbv zeta.
  destruct e; simpl;
    (split; [reflexivity|]; split; [|apply registered_matches];
     finish_left_behind Hfresh Hids).
Qed.

(** Every failure of the [try] is counted as an error. *)
Lemma run_failure (db : Crud.pool) (url : string) (rid : nat)
    (netloc : string) (kr er : list Matcher.Rule) (e : exn) :
  ids_issued db ->
  Crud.conflicts db rid url = [] ->
  fails client url e ->
  let out := run client (_scan_page E settings url rid netloc kr er) db in
  out.1 = []
  /\ left_behind db out.2 rid url Crud.failed 0 None
       (Some (failure_note e)) 1
  /\ Crud.page_matches out.2 = Crud.page_matches db.
Proof.
  intros Hids Hfresh Hfails. cbv zeta.
  rewrite run_scan_page_fresh, run_then by done.
  assert (run client
            (scan_body E settings url rid (Crud.next_id db) kr er)
            (registered db rid url)
          = (Raised e [], registered db rid url)) as ->.
  { unfold scan_body. simpl.
    destruct Hfails as [e Hget|response Hget Hstatus
                       |response e Hget Hstatus Hct Hlinks];
      rewrite Hget; unfold raise_for_status.
    - reflexivity.
    - destruct (Z.leb_spec 200 (status_code response));
        destruct (Z.leb_spec (status_code response) 299);
        simpl; try reflexivity. lia.
    - destruct (Z.leb_spec 200 (status_code response)); [|lia].
      destruct (Z.leb_spec (status_code response) 299); [|lia].
      simpl. rewrite Hct, Hlinks. reflexivity. }
  by apply run_scan_except_raised.
Qed.

(** No statement of a worker changes the run or the URL of a row. *)
Lemma conflicts_execute (s : statement) (db : Crud.pool) (rid : nat)
    (u : string) :
  length (Crud.conflicts (execute s db) rid u)
  = length (Crud.conflicts db rid u).
Proof.
  destruct s; simpl; try reflexivity;
    try (apply CrudFacts.conflicts_update_page; by intros p).
  by destruct matches.
Qed.

(** Whatever a coroutine does, it leaves at most one row per run and
    URL, and it removes none. *)
Lemma run_pairs {A : Type} (t : task A) (db : Crud.pool) :
  (pairs_unique db ->
   pairs_unique (run client t db).2)
  /\ forall rid u, (length (Crud.conflicts db rid u)
                    <= length (Crud.conflicts (run client t db).2 rid u))%nat.
Proof.
  revert db. induction t as [a|rid u k IH|u k IH|s k IH]; intros db; simpl.
  - split; [done|]. intros; lia.
  - destruct (Crud.insert_page db rid u) as [page_id db'] eqn:Hins.
    assert (db' = (Crud.insert_page db rid u).2) as -> by by rewrite Hins.
    destruct (IH page_id (Crud.insert_page db rid u).2) as [IHu IHl].
    split.
    + intros Hdb. by apply IHu, CrudFacts.pairs_unique_insert_page.
    + intros rid' u'. etrans; [|apply IHl].
      rewrite CrudFacts.conflicts_insert_page.
      case_bool_decide as Hsame; [|lia].
      destruct Hsame as (Hc & <- & <-). rewrite Hc. simpl. lia.
  - apply IH.
  - destruct (IH (execute s db)) as [IHu IHl]. split.
    + intros Hdb. apply IHu. intros rid u.
      rewrite conflicts_execute. apply Hdb.
    + intros rid u. etrans; [|apply IHl]. rewrite conflicts_execute. lia.
Qed.

(** After a worker has run, its page is registered. *)
Lemma registered_after_run (db : Crud.pool) (url : string) (rid : nat)
    (netloc : string) (kr er : list Matcher.Rule) :
  Crud.conflicts
    (run client (_scan_page E settings url rid netloc kr er) db).2 rid url
  <> [].
Proof.
  unfold _scan_page. simpl.
  destruct (Crud.insert_page db rid url) as [page_id db'] eqn:Hins.
  assert (0 < length (Crud.conflicts db' rid url))%nat as Hpos.
  { assert (db' = (Crud.insert_page db rid url).2) as ->
      by by rewrite Hins.
    rewrite CrudFacts.conflicts_insert_page.
    case_bool_decide as Hsame; [lia|].
    destruct (Crud.conflicts db rid url) eqn:Hc; [|simpl; lia].
    exfalso. by apply Hsame. }
  match goal with
  | |- Crud.conflicts (run client ?t db').2 rid url <> [] =>
      pose proof (proj2 (run_pairs t db') rid url) as Hle
  end.
  intros Hnil. rewrite Hnil in Hle. simpl in Hle. lia.
Qed.

(** The worker that finds its page registered already. *)
Lemma run_duplicate (db : Crud.pool) (url : string) (rid : nat)
    (netloc : string) (kr er : list Matcher.Rule) :
  Crud.conflicts db rid url <> [] ->
  run client (_scan_page E settings url rid netloc kr er) db = ([], db).
Proof.
  intros Hdup. unfold _scan_page. simpl.
  by rewrite CrudFacts.insert_page_duplicate.
Qed.

(** C8.  A worker that has registered its page, receives a successful
    HTML response and extracts its links, and whose URL has a path that
    one of the exclude rules matches, marks the page skipped with a
    note, adds one to [pages_scanned], writes no match and returns the
    links that it extracted. *)
Theorem excluded_page_keeps_links (db : Crud.pool) (url : string) (rid : nat)
    (netloc : string) (kr er : list Matcher.Rule) (response : Response)
    (links : list string) (p : Url.ParseResult) :
  ids_issued db ->
  Crud.conflicts db rid url = [] ->
  client url = Ok response ->
  200 <= status_code response <= 299 ->
  Py.contains (default "" (content_type response)) "html" = true ->
  Extractor.extract_links (text response) url = Ok links ->
  er <> [] ->
  Url.urlparse url = Ok p ->
  Matcher.any_match E (Url.path p) er = true ->
  let out := run client (_scan_page E settings url rid netloc kr er) db in
  out.1 = links
  /\ left_behind db out.2 rid url Crud.skipped 0 None
       (Some "URL matched an exclude pattern") 0
  /\ Crud.page_matches out.2 = Crud.page_matches db.
Proof.
  intros Hids Hfresh Hget Hstatus Hct Hlinks Her Hp Hany. cbv zeta.
  rewrite run_scan_page_fresh, run_then by done.
  unfold scan_body. simpl. rewrite Hget. unfold raise_for_status.
  destruct (Z.leb_spec 200 (status_code response)); [|lia].
  destruct (Z.leb_spec (status_code response) 299); [|lia].
  simpl. rewrite Hct, Hlinks. simpl.
  destruct er as [|rule er']; [done|].
  rewrite Hp. simpl. simpl in Hany. rewrite Hany. simpl.
  split; [reflexivity|]. split; [|apply registered_matches].
  finish_left_behind Hfresh Hids.
Qed.

End WithEnvironment.

(** C5.  A worker that has registered its page and receives a successful
    response whose content type does not contain [html] marks the page
    failed with the note "Non-HTML content-type", adds one to
    [pages_scanned], returns no links and leaves [error_count] as it was.
    Whenever instead the [try] raises — the fetch fails, the status is not
    a success, or the links cannot be extracted — [error_count] grows by
    one. *)
Theorem non_html_is_not_an_error {lib : Url.Library} (E : Re.engine)
    (settings : Config.Settings) (client : string -> result Response)
    (db : Crud.pool) (url : string) (rid : nat) (netloc : string)
    (kr er : list Matcher.Rule) (response : Response) :
  ids_issued db ->
  Crud.conflicts db rid url = [] ->
  client url = Ok response ->
  200 <= status_code response <= 299 ->
  Py.contains (default "" (content_type response)) "html" = false ->
  let out := run client (_scan_page E settings url rid netloc kr er) db in
  (out.1 = []
   /\ left_behind db out.2 rid url Crud.failed 0 None
        (Some "Non-HTML content-type") 0)
  /\ forall (client' : string -> result Response) (e : exn),
       fails client' url e ->
       let out' :=
         run client' (_scan_page E settings url rid netloc kr er) db in
       out'.1 = []
       /\ left_behind db out'.2 rid url Crud.failed 0 None
            (Some (failure_note e)) 1.
Proof.
  intros Hids Hfresh Hget Hstatus Hct. cbv zeta. split.
  - destruct (run_non_html E settings client db url rid netloc kr er
                response Hids Hfresh Hget Hstatus Hct) as (H1 & H2 & _).
    by split.
  - intros client' e Hfails.
    destruct (run_failure E settings client' db url rid netloc kr er e
                Hids Hfresh Hfails) as (H1 & H2 & _).
    by split.
Qed.

Lemma non_html_is_not_an_error_witness :
  let out := run Fixtures.pdf_client
               (_scan_page Fixtures.page_engine Config.defaults
                  "https://example.com/report.pdf" 1 "example.com" [] [])
               Fixtures.fresh_db in
  out.1 = []
  /\ left_behind Fixtures.fresh_db out.2 1 "https://example.com/report.pdf"
       Crud.failed 0 None (Some "Non-HTML content-type") 0.
Proof.
  refine (proj1 (non_html_is_not_an_error Fixtures.page_engine
            Config.defaults Fixtures.pdf_client Fixtures.fresh_db
            "https://example.com/report.pdf" 1 "example.com" [] []
            {| status_code := 200; content_type := Some "application/pdf";
               text := [] |} _ _ _ _ _)).
  - constructor.
  - reflexivity.
  - reflexivity.
  - simpl. lia.
  - reflexivity.
Defined.

(** C6.  A worker whose registration finds the pair of run and URL in
    the table stops at once: it returns no links and leaves every table
    as it was, so [pages_found] is not counted again, the page is not
    marked as scanning and no match is written.  The insert itself adds
    no row. *)
Theorem duplicate_registration_stops {lib : Url.Library} (E : Re.engine)
    (settings : Config.Settings) (client : string -> result Response)
    (db : Crud.pool) (url : string) (rid : nat) (netloc : string)
    (kr er : list Matcher.Rule) :
  Crud.conflicts db rid url <> [] ->
  Crud.insert_page db rid url = (None, db)
  /\ run client (_scan_page E settings url rid netloc kr er) db = ([], db).
Proof.
  intros Hdup. split.
  - by apply CrudFacts.insert_page_duplicate.
  - by apply run_duplicate.
Qed.

(** The second of two workers for the same page. *)
Lemma duplicate_registration_stops_witness :
  let db := (run Fixtures.html_client
               (_scan_page Fixtures.page_engine Config.defaults
                  "https://example.com" 1 "example.com" [] [])
               Fixtures.fresh_db).2 in
  Crud.insert_page db 1 "https://example.com" = (None, db)
  /\ run Fixtures.pdf_client
       (_scan_page Fixtures.page_engine Config.defaults
          "https://example.com" 1 "example.com" [] []) db
     = ([], db).
Proof.
  apply duplicate_registration_stops. vm_compute. discriminate.
Defined.

Lemma excluded_page_keeps_links_witness :
  let out := run Fixtures.html_client
               (_scan_page Fixtures.page_engine Config.defaults
                  "https://example.com/private/report" 1 "example.com"
                  [Fixtures.beta_rule] [Fixtures.private_rule])
               Fixtures.fresh_db in
  out.1 = ["https://example.com/about"]
  /\ left_behind Fixtures.fresh_db out.2 1
       "https://example.com/private/report" Crud.skipped 0 None
       (Some "URL matched an exclude pattern") 0
  /\ Crud.page_matches out.2 = [].
Proof.
  refine (excluded_page_keeps_links Fixtures.page_engine Config.defaults
            Fixtures.html_client Fixtures.fresh_db
            "https://example.com/private/report" 1 "example.com"
            [Fixtures.beta_rule] [Fixtures.private_rule]
            {| status_code := 200;
               content_type := Some "text/html; charset=utf-8";
               text := Fixtures.linking_page |}
            ["https://example.com/about"]
            {| Url.scheme := "https"; Url.netloc := "example.com";
               Url.path := "/private/report"; Url.params := "";
               Url.query := ""; Url.fragment := "" |}
            _ _ _ _ _ _ _ _ _).
  - constructor.
  - reflexivity.
  - reflexivity.
  - simpl. lia.
  - reflexivity.
  - vm_compute. reflexivity.
  - discriminate.
  - vm_compute. reflexivity.
  - vm_compute. reflexivity.
Defined.

End WorkerFacts.

(* ===================================================================== *)
(** * Snippets and the text of the whole page *)
(* ===================================================================== *)

Module SnippetFacts.
Import Extractor.

Lemma chars_app (a b : string) : Py.chars (a +:+ b) = Py.chars a ++ Py.chars b.
Proof.
  induction a as [|c a IH]; [reflexivity|].
  change (String c a +:+ b) with (String c (a +:+ b)).
  unfold Py.chars in *. simpl. by rewrite IH.
Qed.

Lemma len_chars (s : string) : Py.len s = Z.of_nat (length (Py.chars s)).
Proof. unfold Py.len. by rewrite MatcherFacts.length_chars. Qed.

(** A slice whose bounds lie in the string, in order. *)
Lemma slice_in_range (s : string) (a b : Z) :
  0 <= a <= b -> b <= Py.len s ->
  Py.slice s a b
  = Py.str (take (Z.to_nat (b - a)) (drop (Z.to_nat a) (Py.chars s))).
Proof.
  intros Hab Hb. unfold Py.slice, Py.adjust_index.
  destruct (Z.ltb_spec a 0); [lia|]. destruct (Z.ltb_spec b 0); [lia|].
  by rewrite !Z.min_l by lia.
Qed.

(** A window inside the middle part of a text reads the same in the
    middle part alone. *)
Lemma slice_middle (pre mid post : string) (a b : Z) :
  0 <= a <= b -> b <= Py.len mid ->
  Py.slice (pre +:+ mid +:+ post) (Py.len pre + a) (Py.len pre + b)
  = Py.slice mid a b.
Proof.
  intros Hab Hb. pose proof (PyFacts.len_nonneg pre) as Hpre.
  pose proof (PyFacts.len_nonneg post) as Hpost.
  rewrite !slice_in_range; rewrite ?PyFacts.len_app; try lia.
  rewrite !chars_app. rewrite len_chars in *.
  replace (Z.to_nat (Z.of_nat (length (Py.chars pre)) + a))
    with (length (Py.chars pre) + Z.to_nat a)%nat by lia.
  rewrite drop_app_add.
  replace (Z.of_nat (length (Py.chars pre)) + b
           - (Z.of_nat (length (Py.chars pre)) + a)) with (b - a) by lia.
  rewrite drop_app_le by lia. rewrite take_app_le; [done|].
  rewrite length_drop. lia.
Qed.

Lemma page_text_cons (seg : TextSegment) (segs : list TextSegment) :
  segs <> [] ->
  page_text (seg :: segs) = text seg +:+ " " +:+ page_text segs.
Proof. unfold page_text. by destruct segs. Qed.

(** The text of the page, cut around its [i]-th segment. *)
Lemma page_text_around (segs : list TextSegment) (i : nat) (seg : TextSegment) :
  segs !! i = Some seg ->
  exists post,
    page_text segs = virtual_text (take i segs) +:+ text seg +:+ post
    /\ (S i = length segs -> post = "").
Proof.
  revert i. induction segs as [|s segs IH]; intros i Hi; [done|].
  destruct i as [|i]; simpl in Hi.
  - inversion Hi; subst s; clear Hi. simpl take. simpl virtual_text.
    destruct segs as [|s' segs].
    + exists "". split; [|done]. unfold page_text. simpl.
      change ("" +:+ text seg +:+ "") with (text seg +:+ "").
      clear. induction (text seg) as [|c t IHt]; [done|].
      change (String c t +:+ "") with (String c (t +:+ "")). by rewrite <- IHt.
    + exists (" " +:+ page_text (s' :: segs)). split; [|simpl; lia].
      by rewrite page_text_cons.
  - destruct (IH i Hi) as (post & Hpost & Hlast).
    exists post. split; [|simpl; intros; apply Hlast; lia].
    rewrite page_text_cons by (intros ->; done).
    rewrite Hpost. simpl take. simpl virtual_text.
    by rewrite !PyFacts.app_assoc.
Qed.

Lemma match_record_scanned (E : Re.engine) (settings : Config.Settings)
    (page_id : nat) (segs : list TextSegment) (rules : list Matcher.Rule)
    (i : nat) (seg : TextSegment) (mr : Matcher.MatchResult) :
  segs !! i = Some seg ->
  mr ∈ Matcher.find_matches E (text seg) rules ->
  Crawler.match_record settings page_id seg mr
    ∈ Crawler.scan_segments E settings page_id segs rules.
Proof.
  intros Hseg Hmr. unfold Crawler.scan_segments.
  apply list_elem_of_In, in_flat_map. exists seg. split.
  - by apply list_elem_of_In, list_elem_of_lookup_2 with i.
  - apply in_map. by apply list_elem_of_In.
Qed.

(** C2, as the code has it.  The snippet stored with a match is built
    from the text of the match's own segment.  The window that it shows
    reads the same in the text of the whole page, at the segment's offset;
    and the whole snippet is the one built from the text of the whole page
    at the absolute position whenever the window stays inside the segment:
    on the left the segment is the first one or the window starts after the
    segment's first character, on the right the segment is the last one or
    the window ends before the segment's end. *)
Theorem snippet_within_segment (E : Re.engine) (settings : Config.Settings)
    (html : soup) (rules : list Matcher.Rule) (page_id : nat) (i : nat)
    (seg : TextSegment) (mr : Matcher.MatchResult) :
  extract_segments html !! i = Some seg ->
  mr ∈ Matcher.find_matches E (text seg) rules ->
  0 <= Matcher.position mr <= Py.len (text seg) ->
  0 <= Config.snippet_context settings ->
  let segs := extract_segments html in
  let row := Crawler.match_record settings page_id seg mr in
  let w := Config.snippet_context settings in
  let start := Z.max 0 (Matcher.position mr - w) in
  let end_ := Z.min (Py.len (text seg)) (Matcher.position mr + w) in
  row ∈ Crawler.scan_segments E settings page_id segs rules
  /\ Crud.snippet row
     = Snippet._make_snippet settings (text seg) (Matcher.position mr) None
  /\ Py.slice (page_text segs) (char_offset seg + start) (char_offset seg + end_)
     = Py.slice (text seg) start end_
  /\ ((i = 0%nat \/ 0 < Matcher.position mr - w) ->
      (S i = length segs \/ Matcher.position mr + w < Py.len (text seg)) ->
      Crud.snippet row
      = Snippet._make_snippet settings (page_text segs) (Crud.position row) None).
Proof.
  intros Hseg Hmr Hpos Hw. cbv zeta.
  split; [by eapply match_record_scanned|]. split; [reflexivity|].
  destruct (ExtractorFacts.extract_segments_accounted html i seg Hseg)
    as (Hoff & _).
  destruct (page_text_around _ i seg Hseg) as (post & Htext & Hlast).
  set (segs := extract_segments html) in *.
  set (pre := virtual_text (take i segs)) in *.
  set (pos := Matcher.position mr) in *.
  set (w := Config.snippet_context settings) in *.
  pose proof (PyFacts.len_nonneg post) as Hpost.
  pose proof (PyFacts.len_nonneg pre) as Hpre.
  assert (Hwin : Py.slice (page_text segs)
                   (char_offset seg + Z.max 0 (pos - w))
                   (char_offset seg + Z.min (Py.len (text seg)) (pos + w))
                 = Py.slice (text seg) (Z.max 0 (pos - w))
                     (Z.min (Py.len (text seg)) (pos + w))).
  { rewrite Htext, Hoff. apply slice_middle; lia. }
  split; [exact Hwin|].
  intros Hleft Hright. simpl Crud.snippet. simpl Crud.position.
  fold pos. unfold Snippet._make_snippet. simpl Snippet.ctx_or. fold w.
  assert (Hlen : Py.len (page_text segs)
                 = Py.len pre + Py.len (text seg) + Py.len post).
  { rewrite Htext, !PyFacts.len_app. lia. }
  assert (Hstart : Z.max 0 (char_offset seg + pos - w)
                   = char_offset seg + Z.max 0 (pos - w)).
  { destruct Hleft as [-> | Hgt]; [|lia].
    rewrite Hoff. subst pre. simpl take. simpl virtual_text.
    change (Py.len "") with 0. lia. }
  assert (Hend : Z.min (Py.len (page_text segs)) (char_offset seg + pos + w)
                 = char_offset seg + Z.min (Py.len (text seg)) (pos + w)).
  { rewrite Hlen, Hoff. destruct Hright as [Hl | Hlt]; [|lia].
    rewrite (Hlast Hl). change (Py.len "") with 0. lia. }
  rewrite Hstart, Hend, Hwin.
  assert ((0 <? char_offset seg + Z.max 0 (pos - w))
          = (0 <? Z.max 0 (pos - w))) as ->.
  { destruct Hleft as [-> | Hgt].
    - rewrite Hoff. subst pre. simpl take. simpl virtual_text.
      change (Py.len "") with 0. by rewrite Z.add_0_l.
    - rewrite Hoff. destruct (Z.ltb_spec 0 (Py.len pre + Z.max 0 (pos - w)));
        destruct (Z.ltb_spec 0 (Z.max 0 (pos - w))); (done || lia). }
  assert ((char_offset seg + Z.min (Py.len (text seg)) (pos + w)
             <? Py.len (page_text segs))
          = (Z.min (Py.len (text seg)) (pos + w) <? Py.len (text seg))) as ->.
  { rewrite Hlen, Hoff. destruct Hright as [Hl | Hlt].
    - rewrite (Hlast Hl). change (Py.len "") with 0.
      destruct (Z.ltb_spec (Py.len pre + Z.min (Py.len (text seg)) (pos + w))
                  (Py.len pre + Py.len (text seg) + 0));
        destruct (Z.ltb_spec (Z.min (Py.len (text seg)) (pos + w))
                    (Py.len (text seg))); (done || lia).
    - destruct (Z.ltb_spec (Py.len pre + Z.min (Py.len (text seg)) (pos + w))
                  (Py.len pre + Py.len (text seg) + Py.len post));
        destruct (Z.ltb_spec (Z.min (Py.len (text seg)) (pos + w))
                    (Py.len (text seg))); (done || lia). }
  reflexivity.
Qed.

Lemma snippet_within_segment_witness :
  let segs := extract_segments Fixtures.linking_page in
  let seg := {| text := "beta"; tag := "p"; char_offset := 6 |} in
  let mr := {| Matcher.keyword := "beta"; Matcher.matched_text := "beta";
               Matcher.position := 0 |} in
  let row := Crawler.match_record Config.defaults 0 seg mr in
  row ∈ Crawler.scan_segments Fixtures.page_engine Config.defaults 0 segs
          [Fixtures.beta_rule]
  /\ Crud.snippet row = "beta"
  /\ Py.slice (page_text segs) 6 10 = "beta".
Proof.
  pose proof (snippet_within_segment Fixtures.page_engine Config.defaults
                Fixtures.linking_page [Fixtures.beta_rule] 0 1
                {| text := "beta"; tag := "p"; char_offset := 6 |}
                {| Matcher.keyword := "beta"; Matcher.matched_text := "beta";
                   Matcher.position := 0 |}) as H.
  cbv zeta in H. destruct H as (H1 & H2 & H3 & _).
  - reflexivity.
  - vm_compute. constructor.
  - vm_compute. split; discriminate.
  - vm_compute. discriminate.
  - cbv zeta. split; [exact H1|]. split; reflexivity.
Defined.

(** C2 as it is worded fails on a page with two paragraphs: the snippet
    stored with the match in the second one shows that paragraph only,
    the snippet built from the text of the whole page shows its
    neighbours too. *)
Lemma snippet_from_whole_page_refuted :
  ~ (forall row,
       row ∈ Crawler.scan_segments Fixtures.page_engine Config.defaults 0
               (extract_segments Fixtures.linking_page) [Fixtures.beta_rule] ->
       Crud.snippet row
       = Snippet._make_snippet Config.defaults
           (page_text (extract_segments Fixtures.linking_page))
           (Crud.position row) None).
Proof.
  intros Hall.
  specialize (Hall {| Crud.page_id := 0; Crud.keyword := "beta";
                      Crud.matched_text := "beta"; Crud.tag := "p";
                      Crud.position := 6; Crud.snippet := "beta" |}).
  assert (Hin : {| Crud.page_id := 0; Crud.keyword := "beta";
                   Crud.matched_text := "beta"; Crud.tag := "p";
                   Crud.position := 6; Crud.snippet := "beta" |}
                ∈ Crawler.scan_segments Fixtures.page_engine Config.defaults 0
                    (extract_segments Fixtures.linking_page)
                    [Fixtures.beta_rule]).
  { vm_compute. constructor. }
  specialize (Hall Hin). vm_compute in Hall. discriminate Hall.
Qed.

End SnippetFacts.

(* ===================================================================== *)
(** * The counters under concurrent workers *)
(* ===================================================================== *)

Module AccountingFacts.
Import Crawler Accounting.

Lemma follows_then {A B : Type} (rid : nat) (Q1 : A -> phase -> Prop)
    (Q2 : B -> phase -> Prop) (ph : phase) (t : task A) (f : A -> task B) :
  follows rid Q1 ph t ->
  (forall a ph', Q1 a ph' -> follows rid Q2 ph' (f a)) ->
  follows rid Q2 ph (then_ t f).
Proof.
  intros Ht Hf. induction Ht as [a ph HQ|ph r u k _ IH|ph u k _ IH
                                |ph ph' s k Hadv _ IH]; simpl.
  - by apply Hf.
  - constructor. intros page_id. apply IH.
  - constructor. intros answer. apply IH.
  - econstructor; [exact Hadv|apply IH].
Qed.

Lemma advance_found (rid rid' : nat) :
  advance rid Fresh (increment_pages_found rid' 1)
  = Some (found_phase rid rid').
Proof. unfold found_phase. simpl. by case_bool_decide. Qed.

Lemma advance_scanned (rid rid' : nat) :
  advance rid (found_phase rid rid') (increment_pages_scanned rid')
  = Some (scanned_phase rid rid').
Proof. unfold found_phase, scanned_phase. simpl. by case_bool_decide. Qed.

Lemma scanned_phase_settled {A : Type} (rid rid' : nat) (a : A) :
  settled a (scanned_phase rid rid').
Proof. unfold settled, scanned_phase. by case_bool_decide. Qed.

Ltac follow :=
  repeat first
    [ apply follows_return
    | apply follows_insert_page; intros ?
    | apply follows_get; intros ?
    | eapply follows_await; [first [apply advance_scanned | reflexivity]|]
    | match goal with
      | |- follows _ _ _ (match ?x with _ => _ end) => destruct x
      end ].

Section WithEnvironment.
Context {lib : Url.Library}.
Context (E : Re.engine) (settings : Config.Settings).

(** The [try] of a worker ends with the page counted as scanned if it
    returns, and not yet counted if it raises. *)
Lemma scan_body_follows (rid : nat) (url : string) (rid' page_id : nat)
    (kr er : list Matcher.Rule) :
  follows rid
    (fun o ph => match o with
                 | Returned _ => ph = scanned_phase rid rid'
                 | Raised _ _ => ph = found_phase rid rid'
                 end)
    (found_phase rid rid')
    (scan_body E settings url rid' page_id kr er).
Proof.
  unfold scan_body. apply follows_get. intros [response|e]; [|by follow].
  destruct (raise_for_status response); [|by follow].
  destruct (negb _); [by follow|].
  destruct (Extractor.extract_links _ _) as [links|e]; [|by follow].
  destruct er as [|rule er'].
  - by follow.
  - destruct (_ ≫= _) as [[|]|e]; by follow.
Qed.

Lemma scan_except_follows (rid rid' page_id : nat) (o : outcome)
    (ph : phase) :
  match o with
  | Returned _ => ph = scanned_phase rid rid'
  | Raised _ _ => ph = found_phase rid rid'
  end ->
  follows rid settled ph (scan_except rid' page_id o).
Proof.
  destruct o as [links|e links]; intros ->; simpl.
  - apply follows_return, scanned_phase_settled.
  - destruct e; follow; apply scanned_phase_settled.
Qed.

(** A worker counts its page as found at most once, by one, before it
    counts it as scanned, which it does at most once; and when it returns
    it has done both or neither. *)
Lemma scan_page_follows (rid : nat) (url : string) (rid' : nat)
    (netloc : string) (kr er : list Matcher.Rule) :
  follows rid settled Fresh (_scan_page E settings url rid' netloc kr er).
Proof.
  unfold _scan_page. apply follows_insert_page. intros [page_id|].
  - eapply follows_await; [apply advance_found|].
    eapply follows_await; [reflexivity|].
    eapply follows_then; [apply scan_body_follows|].
    intros o ph Ho. by apply scan_except_follows.
  - by apply follows_return.
Qed.

Lemma follows_weaken {A : Type} (rid : nat) (Q Q' : A -> phase -> Prop)
    (ph : phase) (t : task A) :
  (forall a ph', Q a ph' -> Q' a ph') ->
  follows rid Q ph t -> follows rid Q' ph t.
Proof.
  intros HQ Ht. induction Ht as [a ph HQa|ph r u k _ IH|ph u k _ IH
                                |ph ph' s k Hadv _ IH].
  - constructor. by apply HQ.
  - constructor. intros page_id. apply IH.
  - constructor. intros answer. apply IH.
  - econstructor; [exact Hadv|exact IH].
Qed.

Lemma found_phase_own (rid : nat) : found_phase rid rid = Found.
Proof. unfold found_phase. by rewrite bool_decide_true. Qed.

Lemma scanned_phase_own (rid : nat) : scanned_phase rid rid = Scanned.
Proof. unfold scanned_phase. by rewrite bool_decide_true. Qed.

(** The [except] clauses count the page as scanned if the [try] has not,
    and not again if it has. *)
Lemma scan_except_counts (rid rid' page_id : nat) (o : outcome)
    (ph : phase) :
  match o with
  | Returned _ => ph = scanned_phase rid rid'
  | Raised _ _ => ph = found_phase rid rid'
  end ->
  follows rid (fun _ ph' => ph' = scanned_phase rid rid') ph
    (scan_except rid' page_id o).
Proof.
  destruct o as [links|e links]; intros ->; simpl.
  - by apply follows_return.
  - destruct e; by follow.
Qed.

(** A worker counts its page at registration, and then exactly once. *)
Lemma scan_page_counts (url : string) (rid : nat) (netloc : string)
    (kr er : list Matcher.Rule) :
  counts_at_registration rid (_scan_page E settings url rid netloc kr er).
Proof.
  unfold counts_at_registration, _scan_page.
  eexists url, _. split; [reflexivity|]. split; [reflexivity|].
  intros page_id. eexists. split; [reflexivity|].
  eapply follows_await; [reflexivity|].
  rewrite <- (found_phase_own rid).
  eapply follows_then; [apply (scan_body_follows rid url rid page_id)|].
  intros o ph Ho.
  eapply follows_weaken; [|exact (scan_except_counts rid rid _ _ _ Ho)].
  intros _ ph' ->. apply scanned_phase_own.
Qed.

Lemma total_owed_snoc (phases : list phase) (ph : phase) :
  total_owed (phases ++ [ph]) = total_owed phases + owed ph.
Proof.
  induction phases as [|p phases IH]; simpl; [lia|]. rewrite IH. lia.
Qed.

Lemma total_owed_insert (phases : list phase) (i : nat) (ph ph' : phase) :
  phases !! i = Some ph ->
  total_owed (<[i := ph']> phases) = total_owed phases - owed ph + owed ph'.
Proof.
  revert i. induction phases as [|p phases IH]; intros i Hi; [done|].
  destruct i as [|i]; simpl in *.
  - inversion Hi; subst. lia.
  - rewrite (IH i Hi). lia.
Qed.

(** An allowed statement changes the counters of the run by what the
    change of phase says. *)
Lemma execute_balance (rid : nat) (ph ph' : phase) (s : statement)
    (db : Crud.pool) (r' : Crud.crawl_run_row) :
  advance rid ph s = Some ph' ->
  Crud.crawl_runs (execute s db) !! rid = Some r' ->
  exists r,
    Crud.crawl_runs db !! rid = Some r
    /\ Crud.pages_found r' - Crud.pages_scanned r'
       = Crud.pages_found r - Crud.pages_scanned r + owed ph' - owed ph.
Proof.
  intros Hadv Hr'.
  destruct s as [r count|pid|pid notes|pid notes|pid hits csv|ms|r|r];
    simpl in Hadv, Hr'.
  - destruct (decide (r = rid)) as [->|Hne].
    + rewrite bool_decide_true in Hadv by done.
      destruct ph; try done. destruct (Z.eqb_spec count 1); [|done].
      inversion Hadv; subst. rewrite lookup_alter_eq in Hr'.
      destruct (Crud.crawl_runs db !! rid) as [r0|]; [|done].
      inversion Hr'; subst. exists r0. split; [done|]. simpl. lia.
    + rewrite bool_decide_false in Hadv by done. inversion Hadv; subst.
      rewrite lookup_alter_ne in Hr' by done. exists r'. split; [done|lia].
  - inversion Hadv; subst. exists r'. split; [done|lia].
  - inversion Hadv; subst. exists r'. split; [done|lia].
  - inversion Hadv; subst. exists r'. split; [done|lia].
  - inversion Hadv; subst. exists r'. split; [done|lia].
  - inversion Hadv; subst. rewrite CrudFacts.runs_insert_matches in Hr'.
    exists r'. split; [done|lia].
  - destruct (decide (r = rid)) as [->|Hne].
    + rewrite bool_decide_true in Hadv by done.
      destruct ph; try done. inversion Hadv; subst.
      rewrite lookup_alter_eq in Hr'.
      destruct (Crud.crawl_runs db !! rid) as [r0|]; [|done].
      inversion Hr'; subst. exists r0. split; [done|]. simpl. lia.
    + rewrite bool_decide_false in Hadv by done. inversion Hadv; subst.
      rewrite lookup_alter_ne in Hr' by done. exists r'. split; [done|lia].
  - inversion Hadv; subst.
    destruct (decide (r = rid)) as [->|Hne].
    + rewrite lookup_alter_eq in Hr'.
      destruct (Crud.crawl_runs db !! rid) as [r0|]; [|done].
      inversion Hr'; subst. exists r0. split; [done|]. simpl. lia.
    + rewrite lookup_alter_ne in Hr' by done. exists r'. split; [done|lia].
Qed.

Lemma runs_insert_page (db : Crud.pool) (rid : nat) (u : string) :
  Crud.crawl_runs (Crud.insert_page db rid u).2 = Crud.crawl_runs db.
Proof. unfold Crud.insert_page. by destruct (Crud.conflicts db rid u). Qed.

(** Every step keeps the counters of a run in balance with the phases. *)
Lemma step_balanced (rid : nat) (sys sys' : system) :
  step E settings sys sys' -> balanced rid sys -> balanced rid sys'.
Proof.
  intros Hstep (phases & Hws & Hcount).
  destruct Hstep as [db ws url rid' netloc kr er
                    |db ws i rid' url k Hi
                    |db ws i url k answer Hi
                    |db ws i s k Hi]; cbn [store workers] in *.
  - exists (phases ++ [Fresh]). cbn [store workers]. split.
    + apply Forall2_app; [done|]. constructor; [|constructor].
      apply scan_page_follows.
    + intros r Hr. rewrite total_owed_snoc. simpl.
      specialize (Hcount r Hr). lia.
  - destruct (Forall2_lookup_r _ _ _ _ _ Hws Hi) as (ph & Hph & Hfol).
    exists phases. cbn [store workers]. split.
    + rewrite <- (list_insert_id phases i ph Hph).
      apply Forall2_insert; [done|]. inversion Hfol; subst. auto.
    + intros r. rewrite runs_insert_page. apply Hcount.
  - destruct (Forall2_lookup_r _ _ _ _ _ Hws Hi) as (ph & Hph & Hfol).
    exists phases. cbn [store workers]. split; [|done].
    rewrite <- (list_insert_id phases i ph Hph).
    apply Forall2_insert; [done|]. inversion Hfol; subst. auto.
  - destruct (Forall2_lookup_r _ _ _ _ _ Hws Hi) as (ph & Hph & Hfol).
    inversion Hfol as [| | |? ph' ? ? Hadv Hk]; subst.
    exists (<[i := ph']> phases). cbn [store workers]. split.
    + by apply Forall2_insert.
    + intros r' Hr'. rewrite (total_owed_insert _ _ ph) by done.
      destruct (execute_balance rid ph ph' s db r' Hadv Hr')
        as (r & Hr & Heq).
      specialize (Hcount r Hr). lia.
Qed.

Lemma reach_balanced (rid : nat) (sys sys' : system) :
  rtc (step E settings) sys sys' -> balanced rid sys -> balanced rid sys'.
Proof.
  induction 1 as [|sys0 sys1 sys2 Hstep _ IH]; [done|].
  intros Hbal. apply IH. by eapply step_balanced.
Qed.

(** C7.  Start from tables in which no run has more pages scanned than
    found, and let any number of workers be created and take their steps
    in any order, with any answers to their requests.  In every state that
    is reached, [pages_scanned] is at most [pages_found] for every run.
    A worker counts at registration, and then exactly once: if the
    registration of its page gives an identifier, the next thing it does
    is to add one to [pages_found], and on every path that it can take
    from there it adds one to [pages_scanned] exactly once and nothing
    more to [pages_found]; if the registration gives none, because the
    page is registered already, it returns at once and adds to neither
    counter.  So for each worker and each run: the worker adds to
    [pages_found] at most once, by one, before it adds to
    [pages_scanned], which it does at most once on whatever path it
    takes; and it returns having done both or neither. *)
Theorem pages_scanned_le_pages_found (db0 : Crud.pool) (sys : system) :
  (forall rid r, Crud.crawl_runs db0 !! rid = Some r ->
                 Crud.pages_scanned r <= Crud.pages_found r) ->
  rtc (step E settings) {| store := db0; workers := [] |} sys ->
  (forall rid r, Crud.crawl_runs (store sys) !! rid = Some r ->
                 Crud.pages_scanned r <= Crud.pages_found r)
  /\ (forall rid, Forall (fun t => exists ph, follows rid settled ph t)
                         (workers sys))
  /\ (forall rid url rid' netloc kr er,
        follows rid settled Fresh
          (_scan_page E settings url rid' netloc kr er))
  /\ (forall url rid netloc kr er,
        counts_at_registration rid
          (_scan_page E settings url rid netloc kr er)).
Proof.
  intros Hdb0 Hreach.
  assert (Hbal : forall rid, balanced rid sys).
  { intros rid. eapply reach_balanced; [exact Hreach|].
    exists []. split; [constructor|]. intros r Hr. simpl.
    specialize (Hdb0 rid r Hr). lia. }
  split; [|split; [|split]].
  - intros rid r Hr. destruct (Hbal rid) as (phases & _ & Hcount).
    specialize (Hcount r Hr).
    assert (0 <= total_owed phases).
    { clear. induction phases as [|[] phases IH]; simpl; lia. }
    lia.
  - intros rid. destruct (Hbal rid) as (phases & Hws & _).
    clear -Hws. induction Hws as [|ph t phases ws Hfol _ IH];
      constructor; eauto.
  - intros. apply scan_page_follows.
  - intros. apply scan_page_counts.
Qed.

End WithEnvironment.

(** A run in which one worker has been created, has registered its page,
    has got a PDF for it and has returned: the page is counted as found
    and as scanned. *)
Lemma pages_scanned_le_pages_found_witness :
  let worker := _scan_page Fixtures.page_engine Config.defaults
                  "https://example.com" 1 "example.com" [] [] in
  let db := (run Fixtures.pdf_client worker Fixtures.fresh_db).2 in
  let r := {| Crud.domain := "example.com"; Crud.status := Crud.run_running;
              Crud.pages_found := 1; Crud.pages_scanned := 1;
              Crud.error_count := 0 |} in
  Crud.crawl_runs db !! 1%nat = Some r
  /\ Crud.pages_scanned r <= Crud.pages_found r.
Proof.
  cbv zeta. split; [vm_compute; reflexivity|].
  refine (proj1 (pages_scanned_le_pages_found Fixtures.page_engine
                   Config.defaults Fixtures.fresh_db
                   {| store :=
                        (run Fixtures.pdf_client
                           (_scan_page Fixtures.page_engine Config.defaults
                              "https://example.com" 1 "example.com" [] [])
                           Fixtures.fresh_db).2;
                      workers := [Return []] |} _ _) 1%nat _ _).
  - intros rid r. destruct (decide (rid = 1%nat)) as [->|Hne].
    + vm_compute. intros [= <-]. discriminate.
    + unfold Fixtures.fresh_db. simpl. rewrite lookup_singleton_ne by done.
      discriminate.
  - eapply rtc_l.
    { apply (step_create_task _ _ Fixtures.fresh_db []
               "https://example.com" 1 "example.com" [] []). }
    eapply rtc_l.
    { eapply (step_insert_page _ _ Fixtures.fresh_db _ 0 1
                "https://example.com"). reflexivity. }
    eapply rtc_l.
    { eapply (step_statement _ _ _ _ 0 (increment_pages_found 1 1)).
      reflexivity. }
    eapply rtc_l.
    { eapply (step_statement _ _ _ _ 0 (update_page_scanning 0)).
      reflexivity. }
    eapply rtc_l.
    { eapply (step_get _ _ _ _ 0 "https://example.com" _
                (Fixtures.pdf_client "https://example.com")).
      reflexivity. }
    eapply rtc_l.
    { eapply (step_statement _ _ _ _ 0
                (update_page_failed 0 "Non-HTML content-type")).
      reflexivity. }
    eapply rtc_l.
    { eapply (step_statement _ _ _ _ 0 (increment_pages_scanned 1)).
      reflexivity. }
    apply rtc_refl.
  - vm_compute. reflexivity.
Defined.

(** C7 as it is worded fails for a worker whose page is registered
    already: it is not true that each worker adds to [pages_found]
    exactly once.  The registration may give no identifier, and then the
    worker returns having added nothing; two workers for one URL leave the
    page counted once. *)
Lemma second_worker_counts_nothing :
  let worker := _scan_page Fixtures.page_engine Config.defaults
                  "https://example.com" 1 "example.com" [] [] in
  let db1 := (run Fixtures.pdf_client worker Fixtures.fresh_db).2 in
  let db2 := (run Fixtures.pdf_client worker db1).2 in
  ~ counts_on_every_path 1 worker
  /\ Crud.pages_found <$> Crud.crawl_runs db1 !! 1%nat = Some 1
  /\ Crud.pages_found <$> Crud.crawl_runs db2 !! 1%nat = Some 1.
Proof.
  cbv zeta. split; [|split; vm_compute; reflexivity].
  unfold counts_on_every_path, _scan_page. intros H.
  inversion H; subst.
  match goal with
  | Hk : forall page_id, follows _ _ _ _ |- _ =>
      specialize (Hk None); inversion Hk; subst; discriminate
  end.
Qed.

End AccountingFacts.

(* ===================================================================== *)
(** * The orchestrator *)
(* ===================================================================== *)

Module OrchestratorFacts.
Import Crawler.

Lemma status_start_run (db : Crud.pool) (rid : nat) (r : Crud.crawl_run_row) :
  Crud.crawl_runs db !! rid = Some r ->
  Crud.status <$> Crud.crawl_runs (Crud.start_run db rid) !! rid
  = Some Crud.run_running.
Proof.
  intros Hr. unfold Crud.start_run, Crud.with_runs. simpl.
  by rewrite lookup_alter_eq, Hr.
Qed.

Lemma status_finish_run (db : Crud.pool) (rid : nat) (r : Crud.crawl_run_row)
    (success : bool) :
  Crud.crawl_runs db !! rid = Some r ->
  Crud.status <$> Crud.crawl_runs (Crud.finish_run db rid success) !! rid
  = Some (if success then Crud.run_completed else Crud.run_failed).
Proof.
  intros Hr. unfold Crud.finish_run, Crud.with_runs. simpl.
  rewrite lookup_alter_eq, Hr. by destruct success.
Qed.

Section WithEnvironment.
Context {lib : Url.Library}.
Context (E : Re.engine) (settings : Config.Settings).
Context (make_client : result (string -> result Response)).

(** A fault inside the [try]: the client cannot be constructed. *)
Lemma client_fault_fails_run (fuel : nat) (rid : nat) (domain : string)
    (keywords excludes : list string) (db : Crud.pool)
    (r : Crud.crawl_run_row) (e : exn)
    (setup : string * list Matcher.Rule * list Matcher.Rule * string) :
  Crud.crawl_runs db !! rid = Some r ->
  crawl_setup E settings domain keywords excludes = Ok setup ->
  make_client = Raise e ->
  let out := crawl_run E settings make_client fuel rid domain keywords
               excludes db in
  out.2 = Failed
  /\ Crud.status <$> Crud.crawl_runs out.1 !! rid = Some Crud.run_failed.
Proof.
  intros Hr Hsetup Hclient. cbv zeta. unfold crawl_run.
  rewrite Hsetup, Hclient. destruct setup as [[[netloc kr] er] first].
  split; [reflexivity|]. cbn [fst].
  destruct (status_start_run db rid r Hr) as [].
  unfold Crud.finish_run, Crud.start_run, Crud.with_runs. simpl.
  by rewrite !lookup_alter_eq, Hr.
Qed.

(** C4 at two inputs.  A domain whose URL cannot be parsed, and a keyword
    whose delimited expression does not compile, make [crawl_run] raise
    before its [try]: the exception leaves [crawl_run], [finish_run] is
    not called, and the run stays in the status [running]. *)
Theorem fault_before_try_leaves_run_running (fuel : nat) (rid : nat)
    (db : Crud.pool) (r : Crud.crawl_run_row) :
  Crud.crawl_runs db !! rid = Some r ->
  Re.valid E "(" = false ->
  let bad_seed :=
    crawl_run E settings make_client fuel rid "[" [] [] db in
  let bad_rule :=
    crawl_run E settings make_client fuel rid "example.com" ["/(/"] [] db in
  (bad_seed.2 = Escaped (ValueError "Invalid IPv6 URL")
   /\ Crud.status <$> Crud.crawl_runs bad_seed.1 !! rid
      = Some Crud.run_running)
  /\ (bad_rule.2 = Escaped (re_error "(")
      /\ Crud.status <$> Crud.crawl_runs bad_rule.1 !! rid
         = Some Crud.run_running).
Proof.
  intros Hr Hinvalid. cbv zeta. split.
  - unfold crawl_run.
    assert (crawl_setup E settings "[" [] []
            = Raise (ValueError "Invalid IPv6 URL")) as -> by reflexivity.
    split; [reflexivity|]. by eapply status_start_run.
  - unfold crawl_run.
    assert (crawl_setup E settings "example.com" ["/(/"] []
            = Raise (re_error "(")) as ->.
    { unfold crawl_setup.
      assert (Url.urlparse "https://example.com"
              = Ok {| Url.scheme := "https"; Url.netloc := "example.com";
                      Url.path := ""; Url.params := ""; Url.query := "";
                      Url.fragment := "" |}) as Hp by (vm_compute; reflexivity).
      change (if Py.startswith "example.com" "http://"
                 || Py.startswith "example.com" "https://"
              then "example.com" else "https://" +:+ "example.com")
        with "https://example.com".
      rewrite Hp. simpl.
      assert (Matcher.compile_rules E ["/(/"] = Raise (re_error "(")) as ->.
      { unfold Matcher.compile_rules.
        assert (filter (fun k => Py.truthy (Py.strip k) = true) ["/(/"]
                = ["/(/"]) as -> by (vm_compute; reflexivity).
        simpl. unfold Matcher.compile_rule.
        change (Py.strip "/(/") with "/(/".
        change (Py.startswith "/(/" "/" && Py.endswith "/(/" "/"
                && (2 <? Py.len "/(/")) with true. cbv iota.
        change (Py.slice "/(/" 1 (-1)) with "(".
        unfold Re.compile. by rewrite Hinvalid. }
      reflexivity. }
    split; [reflexivity|]. by eapply status_start_run.
Qed.

End WithEnvironment.

Lemma fault_before_try_leaves_run_running_witness :
  let bad_seed :=
    crawl_run Fixtures.green_engine Config.defaults (Ok Fixtures.html_client)
      10 1 "[" [] [] Fixtures.fresh_db in
  let bad_rule :=
    crawl_run Fixtures.green_engine Config.defaults (Ok Fixtures.html_client)
      10 1 "example.com" ["/(/"] [] Fixtures.fresh_db in
  (bad_seed.2 = Escaped (ValueError "Invalid IPv6 URL")
   /\ Crud.status <$> Crud.crawl_runs bad_seed.1 !! 1%nat
      = Some Crud.run_running)
  /\ (bad_rule.2 = Escaped (re_error "(")
      /\ Crud.status <$> Crud.crawl_runs bad_rule.1 !! 1%nat
         = Some Crud.run_running).
Proof.
  eapply (fault_before_try_leaves_run_running Fixtures.green_engine
            Config.defaults (Ok Fixtures.html_client) 10 1 Fixtures.fresh_db).
  - vm_compute. reflexivity.
  - reflexivity.
Defined.

End OrchestratorFacts.

(* ===================================================================== *)
(** * The links of a page *)
(* ===================================================================== *)

Module LinkFacts.
Import Extractor LinkSpec.

Lemma for_each_Ok_inv {A B : Type} (f : A -> result B) (l : list A)
    (ys : list B) :
  for_each f l = Ok ys -> Forall2 (fun x y => f x = Ok y) l ys.
Proof.
  revert ys. induction l as [|x l IH]; intros ys H; simpl in H.
  - inversion H. constructor.
  - destruct (f x) as [y|e] eqn:Hx; simpl in H; [|done].
    destruct (for_each f l) as [ys'|e]; simpl in H; [|done].
    inversion H; subst. constructor; [done|by apply IH].
Qed.

Lemma see_elem (acc : list string) (x y : string) :
  y ∈ see acc x <-> y ∈ acc \/ y = x.
Proof.
  unfold see. case_bool_decide as Hx.
  - split; [by left|]. intros [?| ->]; done.
  - rewrite elem_of_app, list_elem_of_singleton. done.
Qed.

Lemma see_NoDup (acc : list string) (x : string) :
  NoDup acc -> NoDup (see acc x).
Proof.
  intros Hacc. unfold see. case_bool_decide as Hx; [done|].
  apply NoDup_app. split; [done|]. split.
  - intros y Hy ->%list_elem_of_singleton. done.
  - apply NoDup_singleton.
Qed.

Lemma foldl_see_elem (l acc : list string) (y : string) :
  y ∈ foldl see acc l <-> y ∈ acc \/ y ∈ l.
Proof.
  revert acc. induction l as [|x l IH]; intros acc; simpl.
  - rewrite elem_of_nil. tauto.
  - rewrite IH, see_elem, elem_of_cons. tauto.
Qed.

Lemma foldl_see_NoDup (l acc : list string) :
  NoDup acc -> NoDup (foldl see acc l).
Proof.
  revert acc. induction l as [|x l IH]; intros acc Hacc; simpl; [done|].
  by apply IH, see_NoDup.
Qed.

(** One turn of the loop is: decide what the reference contributes, then
    add it if it has not been seen. *)
Lemma link_step_candidate {lib : Url.Library}
    (base_url : string) (base_parsed : Url.ParseResult)
    (seen : gset string) (links : list string) (raw : string) :
  seen = list_to_set links ->
  link_step base_url base_parsed (seen, links) raw
  = c ← candidate base_url base_parsed raw;
    mret (match c with
          | Some l => (list_to_set (see links l), see links l)
          | None => (seen, links)
          end).
Proof.
  intros Hseen. unfold link_step, candidate.
  destruct (negb _ || _); [reflexivity|].
  destruct (Url.urljoin _ _) as [full|e]; [|reflexivity]. simpl.
  destruct (Url.urlparse full) as [parsed|e]; [|reflexivity]. simpl.
  destruct (Py.mem (Url.scheme parsed) _); [|reflexivity]. simpl.
  destruct (String.eqb _ _); [|reflexivity]. simpl.
  set (n := Py.rstrip_slash _). unfold see.
  destruct (decide (n ∈ links)) as [Hin|Hin].
  - rewrite bool_decide_false, bool_decide_true; [by subst seen|done|].
    subst seen. rewrite elem_of_list_to_set. by intros H; apply H.
  - rewrite bool_decide_true, (bool_decide_false (n ∈ links)) by
      (try done; subst seen; by rewrite elem_of_list_to_set).
    unfold mret, result_ret. do 2 f_equal. subst seen.
    rewrite list_to_set_app_L. simpl.
    rewrite (right_id_L ∅ (∪)). apply (comm_L (∪)).
Qed.

Lemma for_loop_link_step {lib : Url.Library}
    (base_url : string) (base_parsed : Url.ParseResult)
    (raws : list string) (links : list string) (st : gset string * list string) :
  for_loop (link_step base_url base_parsed) (list_to_set links, links) raws
  = Ok st ->
  exists cs,
    for_each (candidate base_url base_parsed) raws = Ok cs
    /\ st.2 = foldl see links (omap id cs).
Proof.
  revert links. induction raws as [|raw raws IH]; intros links H.
  - inversion H; subst. exists []. by split.
  - change (for_loop ?f ?s (raw :: raws))
      with (s' ← f s raw; for_loop f s' raws) in H.
    rewrite link_step_candidate in H by done.
    destruct (candidate base_url base_parsed raw) as [c|e] eqn:Hc;
      simpl in H; [|done].
    destruct c as [l|]; simpl in H.
    + destruct (IH _ H) as (cs & Hcs & Hst). exists (Some l :: cs).
      split; [simpl; by rewrite Hc, Hcs|]. done.
    + destruct (IH _ H) as (cs & Hcs & Hst). exists (None :: cs).
      split; [simpl; by rewrite Hc, Hcs|]. done.
Qed.

Lemma candidate_Some {lib : Url.Library}
    (base_url : string) (base_parsed : Url.ParseResult)
    (raw l : string) :
  candidate base_url base_parsed raw = Ok (Some l)
  <-> exists full parsed,
        Py.strip raw <> ""
        /\ existsb (Py.startswith (Py.strip raw)) pseudo_prefixes = false
        /\ Url.urljoin base_url (Py.strip raw) = Ok full
        /\ Url.urlparse full = Ok parsed
        /\ Py.mem (Url.scheme parsed) ["http"; "https"] = true
        /\ Url.netloc parsed = Url.netloc base_parsed
        /\ l = Py.rstrip_slash (Url.geturl (Url.replace_fragment parsed "")).
Proof.
  unfold candidate. split.
  - destruct (Py.strip raw) as [|c href] eqn:Hstrip; [done|].
    simpl negb. rewrite orb_false_l.
    destruct (existsb _ _) eqn:Hpseudo; [done|].
    destruct (Url.urljoin _ _) as [full|e]; [|done]. simpl.
    destruct (Url.urlparse full) as [parsed|e] eqn:Hparsed; [|done]. simpl.
    destruct (Py.mem _ _) eqn:Hscheme; [|done]. simpl.
    destruct (String.eqb_spec (Url.netloc parsed) (Url.netloc base_parsed))
      as [Hnetloc|]; [|done].
    intros [= <-]. exists full, parsed. by repeat split.
  - intros (full & parsed & Hne & Hpseudo & Hjoin & Hparsed & Hscheme
            & Hnetloc & ->).
    destruct (Py.strip raw) as [|c href] eqn:Hstrip; [done|].
    simpl negb. rewrite orb_false_l, Hpseudo, Hjoin. simpl.
    rewrite Hparsed. simpl. rewrite Hscheme, Hnetloc, String.eqb_refl.
    reflexivity.
Qed.

(** The loop of [extract_links] as a pipeline: decide every reference,
    keep the first appearance of every contribution. *)
Lemma extract_links_first_seen {lib : Url.Library}
    (html : soup) (base_url : string)
    (links : list string) :
  extract_links html base_url = Ok links ->
  exists base_parsed cs,
    Url.urlparse base_url = Ok base_parsed
    /\ for_each (candidate base_url base_parsed) (hrefs html) = Ok cs
    /\ links = first_seen (omap id cs).
Proof.
  unfold extract_links. intros H.
  destruct (Url.urlparse base_url) as [base_parsed|e]; [|done]. simpl in H.
  destruct (for_loop _ _ _) as [st|e] eqn:Hloop; [|done].
  simpl in H. inversion H; subst links; clear H.
  destruct (for_loop_link_step base_url base_parsed (hrefs html) [] st Hloop)
    as (cs & Hcs & Hst).
  by exists base_parsed, cs.
Qed.

(** The members of the pipeline's result. *)
Lemma first_seen_candidates {lib : Url.Library} (base_url : string)
    (base_parsed : Url.ParseResult) (raws : list string)
    (cs : list (option string)) (l : string) :
  for_each (candidate base_url base_parsed) raws = Ok cs ->
  l ∈ first_seen (omap id cs)
  <-> exists raw full parsed,
        raw ∈ raws
        /\ Py.strip raw <> ""
        /\ existsb (Py.startswith (Py.strip raw)) pseudo_prefixes = false
        /\ Url.urljoin base_url (Py.strip raw) = Ok full
        /\ Url.urlparse full = Ok parsed
        /\ Py.mem (Url.scheme parsed) ["http"; "https"] = true
        /\ Url.netloc parsed = Url.netloc base_parsed
        /\ l = Py.rstrip_slash (Url.geturl (Url.replace_fragment parsed "")).
Proof.
  intros Hcs. unfold first_seen.
  rewrite foldl_see_elem, elem_of_nil, list_elem_of_omap.
  pose proof (for_each_Ok_inv _ _ _ Hcs) as Hall. split.
  - intros [[]|(c & Hc & Hid)]. simpl in Hid. subst c.
    apply list_elem_of_lookup in Hc as [i Hi].
    destruct (Forall2_lookup_r _ _ _ _ _ Hall Hi) as (raw & Hraw & Hcand).
    apply candidate_Some in Hcand as (full & parsed & Hrest).
    exists raw, full, parsed. split; [|exact Hrest].
    by apply list_elem_of_lookup_2 with i.
  - intros (raw & full & parsed & Hraw & Hrest). right.
    exists (Some l). split; [|done].
    apply list_elem_of_lookup in Hraw as [i Hi].
    destruct (Forall2_lookup_l _ _ _ _ _ Hall Hi) as (c & Hc & Hcand).
    assert (candidate base_url base_parsed raw = Ok (Some l)) as Hsome.
    { apply candidate_Some. by exists full, parsed. }
    rewrite Hsome in Hcand. inversion Hcand; subst c.
    by apply list_elem_of_lookup_2 with i.
Qed.

(** C3, as the code has it.  [extract_links] filters by host itself.  Its
    result is, without repetition and in the order of first appearance,
    the canonical forms (fragment dropped, trailing slashes trimmed) of the
    references that are not empty, are none of the pseudo-links, resolve to
    an [http] or [https] URL, and resolve to the network location of the
    page's own URL. *)
Theorem extract_links_same_netloc {lib : Url.Library}
    (html : soup) (base_url : string)
    (links : list string) :
  extract_links html base_url = Ok links ->
  exists base_parsed cs,
    Url.urlparse base_url = Ok base_parsed
    /\ for_each (candidate base_url base_parsed) (hrefs html) = Ok cs
    /\ links = first_seen (omap id cs)
    /\ NoDup links
    /\ forall l,
         l ∈ links <->
         exists raw full parsed,
           raw ∈ hrefs html
           /\ Py.strip raw <> ""
           /\ existsb (Py.startswith (Py.strip raw)) pseudo_prefixes = false
           /\ Url.urljoin base_url (Py.strip raw) = Ok full
           /\ Url.urlparse full = Ok parsed
           /\ Py.mem (Url.scheme parsed) ["http"; "https"] = true
           /\ Url.netloc parsed = Url.netloc base_parsed
           /\ l = Py.rstrip_slash
                    (Url.geturl (Url.replace_fragment parsed "")).
Proof.
  intros H.
  destruct (extract_links_first_seen html base_url links H)
    as (base_parsed & cs & Hbase & Hcs & Hlinks).
  exists base_parsed, cs. split; [done|]. split; [done|]. split; [done|].
  split.
  - rewrite Hlinks. apply foldl_see_NoDup, NoDup_nil_2.
  - intros l. rewrite Hlinks. by apply first_seen_candidates.
Qed.

Lemma extract_links_same_netloc_witness :
  exists base_parsed cs,
    Url.urlparse "https://example.com" = Ok base_parsed
    /\ for_each (candidate "https://example.com" base_parsed)
         (hrefs Fixtures.linking_page) = Ok cs
    /\ ["https://example.com/about"] = first_seen (omap id cs).
Proof.
  destruct (extract_links_same_netloc Fixtures.linking_page
              "https://example.com" ["https://example.com/about"])
    as (base_parsed & cs & H1 & H2 & H3 & _).
  - vm_compute. reflexivity.
  - exists base_parsed, cs. by repeat split.
Defined.

(** C3 as it is worded fails on a page with a link to another host: the
    link resolves to an [https] URL and is none of the pseudo-links, and
    [extract_links] leaves it out. *)
Lemma extract_links_cross_host_refuted :
  ~ (forall raw full parsed,
       raw ∈ hrefs Fixtures.linking_page ->
       Py.strip raw <> "" ->
       existsb (Py.startswith (Py.strip raw)) pseudo_prefixes = false ->
       Url.urljoin "https://example.com" (Py.strip raw) = Ok full ->
       Url.urlparse full = Ok parsed ->
       Py.mem (Url.scheme parsed) ["http"; "https"] = true ->
       exists links,
         extract_links Fixtures.linking_page "https://example.com" = Ok links
         /\ Py.rstrip_slash (Url.geturl (Url.replace_fragment parsed ""))
              ∈ links).
Proof.
  intros Hall.
  destruct (Hall "https://other.org/page" "https://other.org/page"
              {| Url.scheme := "https"; Url.netloc := "other.org";
                 Url.path := "/page"; Url.params := ""; Url.query := "";
                 Url.fragment := "" |})
    as (links & Hlinks & Hin).
  - vm_compute. apply list_elem_of_In. right. left. reflexivity.
  - vm_compute. discriminate.
  - vm_compute. reflexivity.
  - vm_compute. reflexivity.
  - vm_compute. reflexivity.
  - vm_compute. reflexivity.
  - vm_compute in Hlinks. inversion Hlinks; subst links.
    vm_compute in Hin. apply list_elem_of_In in Hin.
    destruct Hin as [Heq|[]]. discriminate Heq.
Qed.

End LinkFacts.

(* ===================================================================== *)
(** * The URLs of the frontier *)
(* ===================================================================== *)

Module FrontierFacts.
Import Crawler UrlSpec WorkerSpec.

(** [extract_links] canonicalises as [_normalise_url] does. *)
Lemma extract_links_canonical {lib : Url.Library}
    (html : Extractor.soup) (base_url : string)
    (links : list string) :
  Extractor.extract_links html base_url = Ok links ->
  Forall canonical links.
Proof.
  intros H. apply Forall_forall. intros l Hl.
  destruct (LinkFacts.extract_links_first_seen html base_url links H)
    as (bp & cs & _ & Hcs & Hlinks).
  rewrite Hlinks in Hl.
  destruct (proj1 (LinkFacts.first_seen_candidates _ _ _ _ l Hcs) Hl)
    as (raw & full & parsed & _ & _ & _ & _ & Hparsed & _ & _ & Heq).
  exists full. unfold _normalise_url. by rewrite Hparsed, Heq.
Qed.

Section WithEnvironment.
Context {lib : Url.Library}.
Context (E : Re.engine) (settings : Config.Settings).

Lemma scan_body_canonical (client : string -> result Response)
    (url : string) (rid page_id : nat) (kr er : list Matcher.Rule)
    (db : Crud.pool) :
  Forall canonical
    (links_of (run client (scan_body E settings url rid page_id kr er) db).1).
Proof.
  unfold scan_body. simpl.
  destruct (client url) as [response|e]; [|by constructor].
  destruct (raise_for_status response); [|by constructor].
  destruct (negb _); [by constructor|].
  destruct (Extractor.extract_links _ _) as [links|e] eqn:Hlinks;
    [|by constructor].
  apply extract_links_canonical in Hlinks.
  destruct er as [|rule er']; [done|].
  destruct (_ ≫= _) as [[|]|e]; done.
Qed.

Lemma scan_except_canonical (client : string -> result Response)
    (rid page_id : nat) (o : outcome) (db : Crud.pool) :
  Forall canonical (links_of o) ->
  Forall canonical (run client (scan_except rid page_id o) db).1.
Proof.
  intros Ho. destruct o as [links|e links]; [done|].
  destruct e; simpl; (done || by constructor).
Qed.

(** Every link that a worker returns is canonical. *)
Lemma scan_page_canonical (client : string -> result Response)
    (url : string) (rid : nat) (netloc : string) (kr er : list Matcher.Rule)
    (db : Crud.pool) :
  Forall canonical
    (run client (_scan_page E settings url rid netloc kr er) db).1.
Proof.
  unfold _scan_page. simpl.
  destruct (Crud.insert_page db rid url) as [[page_id|] db'];
    [|by constructor].
  simpl. rewrite WorkerFacts.run_then.
  apply scan_except_canonical, scan_body_canonical.
Qed.

Lemma gather_canonical (client : string -> result Response) (rid : nat)
    (netloc : string) (kr er : list Matcher.Rule) (batch : list string)
    (db : Crud.pool) :
  Forall (fun r => match r with
                   | Ok links => Forall canonical links
                   | Raise _ => True
                   end)
         (gather E settings client rid netloc kr er batch db).1.
Proof.
  revert db. induction batch as [|url batch IH]; intros db.
  - constructor.
  - cbn [gather fst]. constructor; [apply scan_page_canonical|apply IH].
Qed.

Lemma enqueue_canonical (netloc : string) (visited : gset string)
    (links queue queue' : list string) :
  Forall canonical links -> Forall canonical queue ->
  enqueue netloc visited queue links = Ok queue' ->
  Forall canonical queue'.
Proof.
  revert queue. induction links as [|link links IH]; intros queue Hl Hq H;
    simpl in H.
  - by inversion H; subst.
  - apply Forall_cons in Hl as [Hlink Hlinks].
    destruct (_normalise_url link) as [norm|e]; [|done]. simpl in H.
    destruct (if bool_decide (norm ∉ visited) then _ else _)
      as [wanted|e]; [|done].
    simpl in H. apply (IH _ Hlinks) in H; [done|].
    destruct wanted; [|done]. apply Forall_app. split; [done|].
    by constructor.
Qed.

Lemma enqueue_all_canonical (netloc : string) (visited : gset string)
    (results : list (result (list string))) (queue queue' : list string) :
  Forall (fun r => match r with
                   | Ok links => Forall canonical links
                   | Raise _ => True
                   end) results ->
  Forall canonical queue ->
  enqueue_all netloc visited queue results = Ok queue' ->
  Forall canonical queue'.
Proof.
  revert queue. induction results as [|r results IH]; intros queue Hr Hq H;
    simpl in H.
  - by inversion H; subst.
  - apply Forall_cons in Hr as [Hr Hrs]. destruct r as [links|e].
    + destruct (enqueue netloc visited queue links) as [q|e] eqn:Hq';
        [|done].
      simpl in H. eapply IH; [done| |exact H].
      exact (enqueue_canonical netloc visited links queue q Hr Hq Hq').
    + by eapply IH.
Qed.

(** What the inner loop takes from the queue: URLs of the queue, as they
    are, whose normal forms are new and pairwise different; the normal
    forms are added to the visited set, and what is left of the queue is
    its tail. *)
Lemma next_batch_spec (queue : list string) (visited : gset string)
    (batch q b : list string) (v : gset string) :
  next_batch settings queue visited batch = Ok (q, v, b) ->
  exists taken norms skipped,
    b = batch ++ taken
    /\ queue = skipped ++ q
    /\ (forall u, u ∈ taken -> u ∈ skipped)
    /\ Forall2 (fun u n => _normalise_url u = Ok n) taken norms
    /\ NoDup norms
    /\ (forall n, n ∈ norms -> n ∉ visited)
    /\ v = list_to_set norms ∪ visited.
Proof.
  revert visited batch. induction queue as [|url queue IH];
    intros visited batch H; simpl in H.
  - inversion H; subst. exists [], [], []. rewrite app_nil_r.
    repeat split; try done; try constructor.
    + intros n Hn. by apply elem_of_nil in Hn.
    + simpl. by rewrite (left_id_L ∅ (∪)).
  - destruct (Z.of_nat (length batch) <? Config.crawl_concurrency settings).
    2:{ inversion H; subst. exists [], [], []. rewrite app_nil_r.
        repeat split; try done; try constructor.
        + intros n Hn. by apply elem_of_nil in Hn.
        + simpl. by rewrite (left_id_L ∅ (∪)). }
    destruct (_normalise_url url) as [norm|e] eqn:Hnorm; [|done].
    simpl in H. case_bool_decide as Hvisited.
    + destruct (IH _ _ H)
        as (taken & norms & skipped & -> & -> & Hsub & Hall & Hnd & Hnew & ->).
      exists taken, norms, (url :: skipped). repeat split; try done.
      intros u Hu. right. by apply Hsub.
    + destruct (IH _ _ H)
        as (taken & norms & skipped & -> & -> & Hsub & Hall & Hnd & Hnew & ->).
      exists (url :: taken), (norm :: norms), (url :: skipped).
      repeat split.
      * by rewrite <- app_assoc.
      * intros u [->|Hu]%elem_of_cons; [left|right; by apply Hsub].
      * by constructor.
      * constructor; [|done]. intros Hin. apply (Hnew _ Hin).
        apply elem_of_union. left. by apply elem_of_singleton.
      * intros n [->|Hn]%elem_of_cons; [done|].
        intros Hv. apply (Hnew _ Hn). apply elem_of_union. by right.
      * simpl. rewrite (assoc_L (∪)). f_equal. apply (comm_L (∪)).
Qed.

(** Every URL in the queue is canonical, at every turn of the loop. *)
Lemma crawl_loop_canonical (fuel : nat) (client : string -> result Response)
    (rid : nat) (netloc : string) (kr er : list Matcher.Rule)
    (st : frontier) :
  Forall canonical (queue st) ->
  Forall canonical
    (queue (crawl_loop E settings fuel client rid netloc kr er st).1).
Proof.
  revert st. induction fuel as [|fuel IH]; intros st Hst; simpl; [done|].
  destruct (queue st) as [|u q0] eqn:Hq; [simpl; by rewrite Hq|].
  destruct (_ <=? _); [simpl; by rewrite Hq|].
  destruct (next_batch settings (u :: q0) (visited st) []) as [[[q v] b]|e]
    eqn:Hbatch; [|simpl; by rewrite Hq].
  destruct (next_batch_spec _ _ _ _ _ _ Hbatch)
    as (taken & norms & skipped & _ & Hqueue & _).
  assert (Forall canonical q) as Hcq.
  { rewrite Hqueue in Hst. by apply Forall_app in Hst as [_ ?]. }
  destruct b as [|b0 b]; [by apply IH|].
  destruct (enqueue_all _ _ _ _) as [q'|e] eqn:Henq; [|done].
  apply IH. simpl.
  eapply enqueue_all_canonical; [apply gather_canonical|exact Hcq|exact Henq].
Qed.

(** What holds of the frontier.  Every URL in the frontier is canonical: it
    is what the canonicalisation returns for the seed or, by
    [extract_links], for a link resolved against the page's URL.  A
    canonical URL need not be normal, so the orchestrator normalises again
    what it takes from the queue: the URLs of a batch are URLs of the queue
    as they are, their normal forms are new to the visited set and
    pairwise different, and the visited set grows by exactly these. *)
Theorem frontier_urls_are_canonical (fuel : nat)
    (client : string -> result Response) (rid : nat) (netloc : string)
    (kr er : list Matcher.Rule) (seed first : string) (db : Crud.pool) :
  _normalise_url seed = Ok first ->
  let st :=
    (crawl_loop E settings fuel client rid netloc kr er
       {| queue := [first]; visited := ∅; pool := db |}).1 in
  Forall canonical (queue st)
  /\ (forall html base_url links,
        Extractor.extract_links html base_url = Ok links ->
        Forall canonical links)
  /\ (forall q v b,
        next_batch settings (queue st) (visited st) [] = Ok (q, v, b) ->
        exists norms,
          (forall u, u ∈ b -> u ∈ queue st)
          /\ Forall2 (fun u n => _normalise_url u = Ok n) b norms
          /\ NoDup norms
          /\ (forall n, n ∈ norms -> n ∉ visited st)
          /\ v = list_to_set norms ∪ visited st).
Proof.
  intros Hseed. cbv zeta. split; [|split].
  - apply crawl_loop_canonical. simpl. constructor; [|constructor].
    by exists seed.
  - apply extract_links_canonical.
  - intros q v b Hbatch.
    destruct (next_batch_spec _ _ _ _ _ _ Hbatch)
      as (taken & norms & skipped & -> & Hqueue & Hsub & Hall & Hnd & Hnew
          & Hv).
    exists norms. simpl. repeat split; try done.
    intros u Hu. rewrite Hqueue. apply elem_of_app. left. by apply Hsub.
Qed.

End WithEnvironment.

Lemma frontier_urls_are_canonical_witness :
  let st :=
    (crawl_loop Fixtures.page_engine Config.defaults 1
       Fixtures.query_slash_client 1 "a" [] []
       {| queue := ["http://a"]; visited := ∅;
          pool := Fixtures.fresh_db |}).1 in
  queue st = ["http://a/b?"] /\ Forall canonical (queue st).
Proof.
  split; [vm_compute; reflexivity|].
  refine (proj1 (frontier_urls_are_canonical Fixtures.page_engine
                   Config.defaults 1 Fixtures.query_slash_client 1 "a" [] []
                   "http://a/" "http://a" Fixtures.fresh_db _)).
  vm_compute. reflexivity.
Defined.

(** C10.  The code does not do what C10 and the specification of the
    normalisation say, because [rstrip("/")] is applied to the whole URL
    and not to its path.  The link [/b?/] on the page [http://a] resolves
    to [http://a/b?/], whose query is the slash.  Stripping takes that
    slash away, although the query was to be kept, and leaves
    [http://a/b?]; this is what [extract_links] returns, what enters the
    frontier and what the page is registered under.  It is no fixed point
    of the normalisation, which is therefore not idempotent: normalising
    it again gives [http://a/b], since an empty query is not written
    out. *)
Theorem query_slash_is_stripped {lib : Url.Library} (E : Re.engine) :
  let link := "http://a/b?/" in
  let run :=
    crawl_run E Config.defaults (Ok Fixtures.query_slash_client) 10 1
      "http://a" [] [] Fixtures.fresh_db in
  Url.urljoin "http://a" "/b?/" = Ok link
  /\ Url.query <$> Url.urlparse link = Ok "/"
  /\ Extractor.extract_links Fixtures.query_slash_page "http://a"
     = Ok ["http://a/b?"]
  /\ _normalise_url link = Ok "http://a/b?"
  /\ _normalise_url "http://a/b?" = Ok "http://a/b"
  /\ ~ normal "http://a/b?"
  /\ queue (crawl_loop E Config.defaults 1 Fixtures.query_slash_client 1
              "a" [] []
              {| queue := ["http://a"]; visited := ∅;
                 pool := Fixtures.fresh_db |}).1
     = ["http://a/b?"]
  /\ run.2 = Completed
  /\ map Crud.url (Crud.pages run.1) = ["http://a"; "http://a/b?"].
Proof.
  cbv zeta.
  assert (_normalise_url "http://a/b?" = Ok "http://a/b") as Hagain
    by (vm_compute; reflexivity).
  repeat split; try (vm_compute; reflexivity).
  unfold normal. rewrite Hagain. discriminate.
Qed.

End FrontierFacts.

(* ===================================================================== *)
(** * The model on concrete inputs *)
(* ===================================================================== *)

Module Scenarios.
Import Crawler.

Example strip_and_split :
  Py.strip "  a b   c " = "a b   c" /\ Py.split "  a b   c " = ["a"; "b"; "c"].
Proof. split; reflexivity. Qed.

Example slice_negative_stop : Py.slice "/green/" 1 (-1) = "green".
Proof. reflexivity. Qed.

Example escape_literal : Re.escape "a.b c-d" = "a\.b\ c\-d".
Proof. reflexivity. Qed.

Example urljoin_relative :
  Url.urljoin "http://a/b/c/d;p?q" "../g" = Ok "http://a/b/g"
  /\ Url.urljoin "http://a/b/c/d;p?q" "g;x?y#s" = Ok "http://a/b/c/g;x?y#s"
  /\ Url.urljoin "http://a/b/c/d;p?q" "//g" = Ok "http://g"
  /\ Url.urljoin "https://example.com" "about" = Ok "https://example.com/about".
Proof. repeat split; vm_compute; reflexivity. Qed.

Example normalise_url :
  _normalise_url "HTTP://Example.com/a/b/#frag" = Ok "http://Example.com/a/b"
  /\ _normalise_url "https://[" = Raise (ValueError "Invalid IPv6 URL").
Proof. split; vm_compute; reflexivity. Qed.

(** A bracketed host that is no address: the library refuses it, and so
    does everything that parses the URL. *)
Example bracketed_host_refused :
  Url.urlparse "http://[abc]/x"
  = Raise (ValueError "'abc' does not appear to be an IPv4 or IPv6 address")
  /\ _normalise_url "http://[abc]/x"
     = Raise (ValueError "'abc' does not appear to be an IPv4 or IPv6 address")
  /\ Extractor.extract_links
       [ Extractor.Tag "a" {[ "href" := "http://[abc]/x" ]} [] ]
       "http://a"
     = Raise (ValueError "'abc' does not appear to be an IPv4 or IPv6 address").
Proof. repeat split; vm_compute; reflexivity. Qed.

(** Ruby text is of a class of its own, and [get_text] on a paragraph
    leaves it out:
    [<p>base <ruby>kanji<rt>reading</rt></ruby></p>]. *)
Example ruby_text_is_left_out :
  Extractor.extract_segments
    [ Extractor.Tag "html" ∅ [ Extractor.Tag "body" ∅
        [ Extractor.Tag "p" ∅
            [ Extractor.NavigableString "base ";
              Extractor.Tag "ruby" ∅
                [ Extractor.NavigableString "kanji";
                  Extractor.Tag "rt" ∅
                    [ Extractor.NavigableString "reading" ] ] ] ] ] ]
  = [ {| Extractor.text := "base kanji"; Extractor.tag := "p";
         Extractor.char_offset := 0 |} ].
Proof. reflexivity. Qed.

Example segments_of_two_blocks :
  Extractor.extract_segments Fixtures.two_blocks
  = [ {| Extractor.text := "Hello big world"; Extractor.tag := "div";
         Extractor.char_offset := 0 |};
      {| Extractor.text := "Title"; Extractor.tag := "h1";
         Extractor.char_offset := 16 |} ].
Proof. reflexivity. Qed.

(** The keyword [green*] on a page with one sentence: two matches, the
    page completed, the run's counters at one page found and scanned. *)
Example wildcard_on_report :
  let rules := [ ("green*", {| Re.pattern := "\bgreen\w*";
                               Re.flags := [Re.IGNORECASE] |}) ] in
  let out := run Fixtures.report_client
               (_scan_page Fixtures.wildcard_engine Config.defaults
                  "https://example.com" 1 "example.com" rules [])
               Fixtures.fresh_db in
  Matcher.compile_rules Fixtures.wildcard_engine ["green*"] = Ok rules
  /\ map (fun m => (Crud.matched_text m, Crud.position m))
         (Crud.page_matches out.2)
     = [ ("greenwashing", 7); ("greenhouse", 24) ]
  /\ map (fun p => (Crud.page_state p, Crud.total_hits p, Crud.keywords_csv p))
         (Crud.pages out.2)
     = [ (Crud.completed, 2, Some "green*") ]
  /\ (fun r => (Crud.pages_found r, Crud.pages_scanned r, Crud.error_count r))
       <$> Crud.crawl_runs out.2 !! 1%nat
     = Some (1, 1, 0).
Proof. repeat split; vm_compute; reflexivity. Qed.

(** A crawl of two pages that link to each other and to another host. *)
Example crawl_of_two_pages :
  let out := crawl_run Fixtures.page_engine Config.defaults
               (Ok Fixtures.html_client) 10 1 "example.com" [] []
               Fixtures.fresh_db in
  out.2 = Completed
  /\ map Crud.url (Crud.pages out.1)
     = [ "https://example.com"; "https://example.com/about" ]
  /\ Crud.status <$> Crud.crawl_runs out.1 !! 1%nat = Some Crud.run_completed.
Proof. repeat split; vm_compute; reflexivity. Qed.

(** A client that cannot be constructed fails the run. *)
Example crawl_without_client :
  let out := crawl_run Fixtures.page_engine Config.defaults
               (Raise (OtherException "no client")) 10 1 "example.com" [] []
               Fixtures.fresh_db in
  out.2 = Failed
  /\ Crud.status <$> Crud.crawl_runs out.1 !! 1%nat = Some Crud.run_failed.
Proof. split; vm_compute; reflexivity. Qed.

End Scenarios.

(* ===================================================================== *)
(** * More on the string functions *)
(* ===================================================================== *)

Module StripFacts.

(** A list is clean when it does not start with a character to drop. *)
Lemma drop_while_clean (p : ascii -> bool) (l : list ascii) :
  match Py.drop_while p l with [] => True | c :: _ => p c = false end.
Proof.
  induction l as [|c l IH]; simpl; [done|].
  destruct (p c) eqn:Hc; [exact IH|exact Hc].
Qed.

Lemma drop_while_id (p : ascii -> bool) (l : list ascii) :
  match l with [] => True | c :: _ => p c = false end ->
  Py.drop_while p l = l.
Proof. destruct l as [|c l]; simpl; [done|]. by intros ->. Qed.

Lemma drop_while_idem (p : ascii -> bool) (l : list ascii) :
  Py.drop_while p (Py.drop_while p l) = Py.drop_while p l.
Proof. apply drop_while_id, drop_while_clean. Qed.

(** What is dropped is a prefix of characters to drop. *)
Lemma drop_while_split (p : ascii -> bool) (l : list ascii) :
  exists pre, l = pre ++ Py.drop_while p l /\ Forall (fun c => p c = true) pre.
Proof.
  induction l as [|c l (pre & Hl & Hpre)]; simpl.
  - by exists [].
  - destruct (p c) eqn:Hc.
    + exists (c :: pre). split; [simpl; by rewrite <- Hl|by constructor].
    + by exists [].
Qed.

(** Dropping at the end keeps a clean start. *)
Lemma rdrop_clean (p : ascii -> bool) (l : list ascii) :
  match l with [] => True | c :: _ => p c = false end ->
  match rev (Py.drop_while p (rev l)) with
  | [] => True
  | c :: _ => p c = false
  end.
Proof.
  intros Hl. destruct (drop_while_split p (rev l)) as (pre & Hrev & Hpre).
  assert (l = rev (Py.drop_while p (rev l)) ++ rev pre) as Hsplit.
  { rewrite <- rev_app_distr, <- Hrev. by rewrite rev_involutive. }
  destruct (rev (Py.drop_while p (rev l))) as [|c r]; [done|].
  rewrite Hsplit in Hl. exact Hl.
Qed.

Lemma strip_by_idem (p : ascii -> bool) (s : string) :
  Py.strip_by p (Py.strip_by p s) = Py.strip_by p s.
Proof.
  unfold Py.strip_by, Py.rstrip_by, Py.lstrip_by.
  rewrite !MatcherFacts.chars_str.
  set (l := Py.drop_while p (Py.chars s)).
  rewrite (drop_while_id p (rev (Py.drop_while p (rev l)))).
  - by rewrite rev_involutive, drop_while_idem.
  - apply rdrop_clean. apply drop_while_clean.
Qed.

Lemma strip_idem (s : string) : Py.strip (Py.strip s) = Py.strip s.
Proof. apply strip_by_idem. Qed.

(** What [rstrip] returns does not end with a character to drop. *)
Lemma rstrip_by_last (p : ascii -> bool) (s : string) (c : ascii) :
  last (Py.chars (Py.rstrip_by p s)) = Some c -> p c = false.
Proof.
  unfold Py.rstrip_by. rewrite MatcherFacts.chars_str.
  rewrite <- MatcherFacts.head_rev, rev_involutive.
  pose proof (drop_while_clean p (rev (Py.chars s))) as Hclean.
  destruct (Py.drop_while p (rev (Py.chars s))) as [|c' r]; [done|].
  simpl. by intros [= <-].
Qed.

Lemma rstrip_slash_no_slash (s : string) :
  Py.endswith (Py.rstrip_slash s) "/" = false.
Proof.
  destruct (Py.endswith (Py.rstrip_slash s) "/") eqn:Hend; [|done].
  apply MatcherFacts.endswith_char in Hend. unfold RuleSpec.last_char in Hend.
  apply rstrip_by_last in Hend. by vm_compute in Hend.
Qed.

End StripFacts.

(* ===================================================================== *)
(** * More on the matcher *)
(* ===================================================================== *)

Module MatcherMore.
Import Matcher MoreSpec.

Lemma insert_by_position_perm (r : MatchResult) (l : list MatchResult) :
  insert_by_position r l ≡ₚ r :: l.
Proof.
  induction l as [|r' l IH]; simpl; [done|].
  destruct (position r <=? position r'); [done|].
  rewrite IH. apply Permutation_swap.
Qed.

Lemma insert_by_position_sorted (r : MatchResult) (l : list MatchResult) :
  StronglySorted by_position l ->
  StronglySorted by_position (insert_by_position r l).
Proof.
  induction 1 as [|r' l Hl IH Hall]; simpl.
  - repeat constructor.
  - destruct (Z.leb_spec (position r) (position r')) as [Hle|Hgt].
    + constructor; [by constructor|]. constructor; [done|].
      eapply Forall_impl; [exact Hall|]. unfold by_position. intros; lia.
    + constructor; [exact IH|].
      rewrite insert_by_position_perm. constructor; [|done].
      unfold by_position. lia.
Qed.

Lemma sort_by_position_perm (l : list MatchResult) :
  sort_by_position l ≡ₚ l.
Proof.
  induction l as [|r l IH]; simpl; [done|].
  by rewrite insert_by_position_perm, IH.
Qed.

Lemma sort_by_position_sorted (l : list MatchResult) :
  StronglySorted by_position (sort_by_position l).
Proof.
  induction l as [|r l IH]; simpl; [constructor|].
  by apply insert_by_position_sorted.
Qed.

Section WithEngine.
Context (E : Re.engine).

(** X1.  [find_matches] returns the matches of every rule, each once, in
    the order of their positions. *)
Theorem find_matches_sorted (text : string) (rules : list Rule) :
  StronglySorted by_position (find_matches E text rules)
  /\ find_matches E text rules
     ≡ₚ flat_map
          (fun '(keyword, pattern) =>
             map (fun m => {| keyword := keyword; matched_text := m.2;
                              position := m.1 |})
                 (Re.finditer E pattern text))
          rules.
Proof.
  unfold find_matches. split.
  - apply sort_by_position_sorted.
  - apply sort_by_position_perm.
Qed.

(** X2.  White space around a keyword does not matter to
    [compile_rule]. *)
Theorem compile_rule_strip (keyword : string) :
  compile_rule E (Py.strip keyword) = compile_rule E keyword.
Proof. unfold compile_rule. by rewrite StripFacts.strip_idem. Qed.

Lemma for_each_app {A B : Type} (f : A -> result B) (l1 l2 : list A) :
  for_each f (l1 ++ l2)
  = ys1 ← for_each f l1; ys2 ← for_each f l2; mret (ys1 ++ ys2).
Proof.
  induction l1 as [|x l1 IH]; simpl.
  - destruct (for_each f l2); reflexivity.
  - destruct (f x) as [y|e]; simpl; [|reflexivity].
    rewrite IH. destruct (for_each f l1) as [ys1|e]; simpl; [|reflexivity].
    destruct (for_each f l2); reflexivity.
Qed.

(** X3.  Compiling a list of keywords in two parts gives the rules of the
    first part followed by those of the second; a keyword that does not
    compile in either part makes the whole raise, the first one first. *)
Theorem compile_rules_app (keywords1 keywords2 : list string) :
  compile_rules E (keywords1 ++ keywords2)
  = rules1 ← compile_rules E keywords1;
    rules2 ← compile_rules E keywords2;
    mret (rules1 ++ rules2).
Proof. unfold compile_rules. by rewrite filter_app, for_each_app. Qed.

End WithEngine.

End MatcherMore.

(* ===================================================================== *)
(** * The validators of a request *)
(* ===================================================================== *)

Module SchemasFacts.
Import Schemas.

Lemma truthy_nonempty (s : string) : Py.truthy s = true <-> s <> "".
Proof. destruct s; simpl; split; congruence. Qed.

Lemma non_empty_strings_each (v : list string) :
  Forall (fun k => Py.strip k = k /\ k <> "") (non_empty_strings v).
Proof.
  unfold non_empty_strings. apply Forall_forall. intros k Hk.
  apply list_elem_of_fmap in Hk as (k0 & -> & Hk0).
  apply list_elem_of_filter in Hk0 as [Hk0 _].
  split; [apply StripFacts.strip_idem|]. by apply truthy_nonempty.
Qed.

Lemma filter_all {A : Type} (P : A -> Prop) `{forall x, Decision (P x)}
    (l : list A) :
  Forall P l -> filter P l = l.
Proof.
  induction 1 as [|x l Hx _ IH]; [done|].
  by rewrite filter_cons_True, IH.
Qed.

Lemma map_id_on {A : Type} (f : A -> A) (l : list A) :
  Forall (fun x => f x = x) l -> map f l = l.
Proof. induction 1 as [|x l Hx _ IH]; simpl; [done|]. by rewrite Hx, IH. Qed.

(** X4.  The keywords and excludes that pass the validator are trimmed
    and not empty, and validating them again changes nothing. *)
Theorem non_empty_strings_normal (v : list string) :
  Forall (fun k => Py.strip k = k /\ k <> "") (non_empty_strings v)
  /\ non_empty_strings (non_empty_strings v) = non_empty_strings v.
Proof.
  split; [apply non_empty_strings_each|].
  pose proof (non_empty_strings_each v) as Hall.
  unfold non_empty_strings at 1.
  rewrite filter_all.
  - apply map_id_on. eapply Forall_impl; [exact Hall|]. by intros k [? _].
  - eapply Forall_impl; [exact Hall|]. intros k [Hs Hne].
    rewrite Hs. by apply truthy_nonempty.
Qed.

Section WithEngine.
Context (E : Re.engine).

Lemma compile_rule_fst (k : string) (r : Matcher.Rule) :
  Matcher.compile_rule E k = Ok r -> r.1 = Py.strip k.
Proof.
  rewrite MatcherFacts.compile_rule_source.
  destruct (Re.compile _ _ _); simpl; [|done]. by intros [= <-].
Qed.

(** X5.  On the keywords that pass the validator, the rules that
    [compile_rules] returns carry the keywords as they were passed in, one
    rule per keyword and in their order. *)
Theorem validated_keywords_kept (v : list string) (rules : list Matcher.Rule) :
  Matcher.compile_rules E (non_empty_strings v) = Ok rules ->
  map fst rules = non_empty_strings v.
Proof.
  intros H. unfold Matcher.compile_rules in H.
  pose proof (non_empty_strings_each v) as Hall.
  rewrite filter_all in H.
  2:{ eapply Forall_impl; [exact Hall|]. intros k [Hs Hne].
      rewrite Hs. by apply truthy_nonempty. }
  apply LinkFacts.for_each_Ok_inv in H.
  revert Hall. induction H as [|k r ks rs Hk _ IH]; intros Hall; [done|].
  apply Forall_cons in Hall as [[Hs _] Hall]. simpl.
  rewrite (compile_rule_fst k r Hk), Hs. f_equal. by apply IH.
Qed.

End WithEngine.

Lemma validated_keywords_kept_witness :
  Matcher.compile_rules Fixtures.green_engine
    (non_empty_strings [" green "; "  "])
  = Ok [("green", {| Re.pattern := "\bgreen\b"; Re.flags := [Re.IGNORECASE] |})]
  /\ map fst [("green", {| Re.pattern := "\bgreen\b";
                           Re.flags := [Re.IGNORECASE] |})]
     = non_empty_strings [" green "; "  "].
Proof.
  assert (H : Matcher.compile_rules Fixtures.green_engine
                (non_empty_strings [" green "; "  "])
              = Ok [("green", {| Re.pattern := "\bgreen\b";
                                 Re.flags := [Re.IGNORECASE] |})])
    by (vm_compute; reflexivity).
  split; [exact H|].
  exact (validated_keywords_kept Fixtures.green_engine _ _ H).
Defined.

End SchemasFacts.

(* ===================================================================== *)
(** * More on snippets *)
(* ===================================================================== *)

Module SnippetMore.
Import Snippet.

Lemma len_str (l : list ascii) : Py.len (Py.str l) = Z.of_nat (length l).
Proof. by rewrite SnippetFacts.len_chars, MatcherFacts.chars_str. Qed.

Lemma len_slice_le (s : string) (a b : Z) :
  0 <= a -> 0 <= b -> Py.len (Py.slice s a b) <= Z.max 0 (b - a).
Proof.
  intros Ha Hb. unfold Py.slice, Py.adjust_index.
  destruct (Z.ltb_spec a 0); [lia|]. destruct (Z.ltb_spec b 0); [lia|].
  rewrite len_str, length_take. pose proof (PyFacts.len_nonneg s). lia.
Qed.

Lemma slice_all (s : string) : Py.slice s 0 (Py.len s) = s.
Proof.
  rewrite SnippetFacts.slice_in_range by (pose proof (PyFacts.len_nonneg s); lia).
  rewrite drop_0, take_ge; [apply MatcherFacts.str_chars|].
  rewrite SnippetFacts.len_chars. lia.
Qed.

(** X6.  For a position that is not negative and a positive width, a
    snippet is at most twice the width long, plus the two markers. *)
Theorem make_snippet_length (settings : Config.Settings) (text : string)
    (pos : Z) (ctx : option Z) :
  0 <= pos ->
  0 < ctx_or settings ctx ->
  Py.len (_make_snippet settings text pos ctx) <= 2 * ctx_or settings ctx + 2.
Proof.
  intros Hpos Hw. unfold _make_snippet.
  set (w := ctx_or settings ctx) in *.
  pose proof (PyFacts.len_nonneg text) as Hlen.
  pose proof (len_slice_le text (Z.max 0 (pos - w))
                (Z.min (Py.len text) (pos + w))) as Hslice.
  change (Py.len ellipsis) with 1 in *.
  destruct (0 <? Z.max 0 (pos - w)); destruct (_ <? Py.len text);
    rewrite ?PyFacts.len_app; change (Py.len ellipsis) with 1; lia.
Qed.

Lemma make_snippet_length_witness :
  Py.len (_make_snippet Config.defaults "We are greenwashing our report" 7
            (Some 3))
  <= 2 * 3 + 2.
Proof.
  apply (make_snippet_length Config.defaults
           "We are greenwashing our report" 7 (Some 3)).
  - lia.
  - vm_compute. reflexivity.
Defined.

(** X7.  A text that lies within the width on both sides of the position
    is returned whole, without markers. *)
Theorem make_snippet_whole (settings : Config.Settings) (text : string)
    (pos : Z) (ctx : option Z) :
  pos <= ctx_or settings ctx ->
  Py.len text <= pos + ctx_or settings ctx ->
  _make_snippet settings text pos ctx = text.
Proof.
  intros Hleft Hright. unfold _make_snippet.
  set (w := ctx_or settings ctx) in *.
  rewrite Z.max_l, Z.min_l by lia.
  rewrite slice_all. change (0 <? 0) with false. cbv iota.
  by rewrite Z.ltb_irrefl.
Qed.

Lemma make_snippet_whole_witness :
  _make_snippet Config.defaults "We are greenwashing" 7 None
  = "We are greenwashing".
Proof.
  apply (make_snippet_whole Config.defaults "We are greenwashing" 7 None).
  - vm_compute. discriminate.
  - vm_compute. discriminate.
Defined.

End SnippetMore.

(* ===================================================================== *)
(** * More on text segments *)
(* ===================================================================== *)

Module ExtractorMore.
Import Extractor MoreSpec.

Lemma elem_of_flat_map {A B : Type} (f : A -> list B) (l : list A) (y : B) :
  y ∈ flat_map f l <-> exists x, x ∈ l /\ y ∈ f x.
Proof.
  rewrite list_elem_of_In, in_flat_map. split.
  - intros (x & Hx & Hy). exists x. by rewrite !list_elem_of_In.
  - intros (x & Hx & Hy). exists x. by rewrite <- !list_elem_of_In.
Qed.

(** Decomposing a tag name removes it from the tree and adds no name. *)
Lemma decompose_in_names (tag_name : string) (n : node) (x : string) :
  x ∈ flat_map tag_names (decompose_in tag_name n) ->
  x <> tag_name /\ x ∈ tag_names n.
Proof.
  revert x. induction n as [name attrs children IH|s|s]
    using ExtractorFacts.node_ind_children; intros x Hx; simpl in Hx;
    [|by apply elem_of_nil in Hx..].
  destruct (String.eqb_spec name tag_name) as [->|Hne];
    [by apply elem_of_nil in Hx|].
  simpl in Hx. rewrite app_nil_r in Hx.
  apply elem_of_cons in Hx as [->|Hx]; [split; [done|by left]|].
  apply elem_of_flat_map in Hx as (c' & Hc' & Hx).
  apply elem_of_flat_map in Hc' as (c & Hc & Hc').
  rewrite Forall_forall in IH.
  destruct (IH c Hc x) as [Hne' Hin].
  { apply elem_of_flat_map. exists c'. by split. }
  split; [done|]. simpl. right. apply elem_of_flat_map. by exists c.
Qed.

Lemma decompose_all_names (sp : soup) (tag_name x : string) :
  x ∈ flat_map tag_names (decompose_all sp tag_name) ->
  x <> tag_name /\ x ∈ flat_map tag_names sp.
Proof.
  unfold decompose_all. intros Hx.
  apply elem_of_flat_map in Hx as (n' & Hn' & Hx).
  apply elem_of_flat_map in Hn' as (n & Hn & Hn').
  destruct (decompose_in_names tag_name n x) as [Hne Hin].
  { apply elem_of_flat_map. by exists n'. }
  split; [done|]. apply elem_of_flat_map. by exists n.
Qed.

Lemma fold_decompose_all_names (names : list string) (sp : soup) (x : string) :
  x ∈ flat_map tag_names (fold_left decompose_all names sp) ->
  (x ∉ names) /\ x ∈ flat_map tag_names sp.
Proof.
  revert sp. induction names as [|name names IH]; intros sp Hx; simpl in Hx.
  - split; [apply not_elem_of_nil|done].
  - destruct (IH _ Hx) as [Hnot Hin].
    destruct (decompose_all_names _ _ _ Hin) as [Hne Hin'].
    split; [|done]. intros [->|?]%elem_of_cons; done.
Qed.

(** The names and the parents of the elements that [find_all] hands out
    are names of tags of the tree, or parents given from outside. *)
Lemma tags_of_names (n : node) (parents : list string) (el : element) :
  el ∈ tags_of parents n ->
  el_name el ∈ tag_names n
  /\ (forall p, p ∈ el_parents el -> p ∈ parents \/ p ∈ tag_names n)
  /\ (forall p, p ∈ parents -> p ∈ el_parents el).
Proof.
  revert parents. induction n as [name attrs children IH|s|s]
    using ExtractorFacts.node_ind_children; intros parents Hel; simpl in Hel;
    [|by apply elem_of_nil in Hel..].
  apply elem_of_cons in Hel as [->|Hel].
  - simpl. split; [by left|]. split; [by left|done].
  - apply elem_of_flat_map in Hel as (c & Hc & Hel).
    rewrite Forall_forall in IH.
    destruct (IH c Hc _ Hel) as (Hname & Hparents & Hkeep).
    assert (forall y, y ∈ tag_names c -> y ∈ name :: flat_map tag_names children)
      as Hsub.
    { intros y Hy. right. apply elem_of_flat_map. by exists c. }
    split; [by apply Hsub|]. split.
    + intros p Hp. destruct (Hparents p Hp) as [[->|?]%elem_of_cons|?].
      * right. by left.
      * by left.
      * right. by apply Hsub.
    + intros p Hp. apply Hkeep. by right.
Qed.

(** X8.  [extract_segments] walks the document from which the excluded
    containers are gone: no element that it examines is an excluded
    container or lies inside one. *)
Theorem excluded_containers_are_gone (html : soup) (el : element)
    (x : string) :
  el ∈ find_all ALLOWED_TAGS (stripped html) ->
  x ∈ EXCLUDED_CONTAINERS ->
  extract_segments html
    = (fold_left segment_step (find_all ALLOWED_TAGS (stripped html))
         ([], 0)).1
  /\ el_name el <> x
  /\ x ∉ el_parents el.
Proof.
  intros Hel Hx. split; [reflexivity|].
  unfold find_all in Hel. apply list_elem_of_filter in Hel as [_ Hel].
  apply elem_of_flat_map in Hel as (n & Hn & Hel).
  destruct (tags_of_names n _ el Hel) as (Hname & Hparents & _).
  assert (forall y, y ∈ tag_names n -> y ∉ EXCLUDED_CONTAINERS) as Hgone.
  { intros y Hy.
    eapply (fold_decompose_all_names EXCLUDED_CONTAINERS html y).
    apply elem_of_flat_map. by exists n. }
  split.
  - intros Heq. apply (Hgone _ Hname). by rewrite Heq.
  - intros Hp. destruct (Hparents x Hp) as [Hdoc|Hin].
    + apply list_elem_of_singleton in Hdoc. subst x.
      assert ("[document]" ∉ EXCLUDED_CONTAINERS) as Hdoc
        by (apply (bool_decide_unpack _); vm_compute; exact I).
      done.
    + by apply (Hgone _ Hin).
Qed.

Lemma excluded_containers_are_gone_witness :
  let el := {| el_node := Tag "h1" ∅ [NavigableString "Title"];
               el_parents := ["body"; "html"; "[document]"] |} in
  el_name el <> "nav" /\ "nav" ∉ el_parents el.
Proof.
  refine (proj2 (excluded_containers_are_gone Fixtures.two_blocks
                   {| el_node := Tag "h1" ∅ [NavigableString "Title"];
                      el_parents := ["body"; "html"; "[document]"] |}
                   "nav" _ _)).
  - vm_compute. apply list_elem_of_In.
    repeat (first [left; reflexivity | right]).
  - vm_compute. apply list_elem_of_In. left. reflexivity.
Defined.

(** ** White space in the text of a segment *)

Lemma str_nonempty (l : list ascii) : l <> [] -> Py.str l <> "".
Proof. by destruct l. Qed.

Lemma split_go_words (cur l : list ascii) :
  Forall nsp cur -> Forall word (Py.split_go cur l).
Proof.
  revert cur. induction l as [|c l IH]; intros cur Hcur; simpl.
  - destruct cur as [|c0 cur]; constructor; [|constructor].
    split.
    + apply str_nonempty. intros Hr. apply (f_equal (@length _)) in Hr.
      rewrite length_rev in Hr. done.
    + rewrite MatcherFacts.chars_str. by apply Forall_rev.
  - destruct (Py.isspace c) eqn:Hc.
    + destruct cur as [|c0 cur]; [by apply IH|].
      constructor; [|by apply IH]. split.
      * apply str_nonempty. intros Hr. apply (f_equal (@length _)) in Hr.
        rewrite length_rev in Hr. done.
      * rewrite MatcherFacts.chars_str. by apply Forall_rev.
    + apply IH. by constructor.
Qed.

Lemma split_go_word_prefix (w cur rest : list ascii) :
  Forall nsp w ->
  Py.split_go cur (w ++ rest) = Py.split_go (rev w ++ cur) rest.
Proof.
  revert cur. induction w as [|c w IH]; intros cur Hw; [done|].
  apply Forall_cons in Hw as [Hc Hw]. simpl. unfold nsp in Hc. rewrite Hc.
  rewrite (IH _ Hw). by rewrite <- app_assoc.
Qed.

Lemma chars_nonempty (w : string) : w <> "" -> Py.chars w <> [].
Proof. by destruct w. Qed.

(** Splitting what [join] makes of words gives the words back. *)
Lemma split_join_words (ws : list string) :
  Forall word ws -> Py.split (Py.join " " ws) = ws.
Proof.
  induction 1 as [|w ws [Hne Hw] Hws IH]; [reflexivity|].
  unfold Py.split in *.
  assert (Hrev : rev (Py.chars w) <> []).
  { intros Hr. apply (chars_nonempty w Hne).
    apply (f_equal (@rev _)) in Hr. by rewrite rev_involutive in Hr. }
  destruct ws as [|w' ws].
  - simpl. rewrite <- (app_nil_r (Py.chars w)).
    rewrite split_go_word_prefix, app_nil_r by done. simpl.
    destruct (rev (Py.chars w)) as [|c r] eqn:Hr; [done|].
    rewrite <- Hr, rev_involutive. by rewrite MatcherFacts.str_chars.
  - change (Py.join " " (w :: w' :: ws))
      with (w +:+ " " +:+ Py.join " " (w' :: ws)).
    rewrite !SnippetFacts.chars_app.
    rewrite split_go_word_prefix, app_nil_r by done.
    change (Py.chars " ") with [" "%char]. simpl.
    destruct (rev (Py.chars w)) as [|c r] eqn:Hr; [done|].
    rewrite <- Hr, rev_involutive, MatcherFacts.str_chars.
    f_equal. exact IH.
Qed.

(** Collapsing white space is idempotent. *)
Lemma collapse_idem (x : string) :
  Py.join " " (Py.split (Py.join " " (Py.split x)))
  = Py.join " " (Py.split x).
Proof.
  rewrite split_join_words; [done|]. apply split_go_words. constructor.
Qed.

Lemma fold_left_invariant {S A : Type} (I : S -> Prop) (step : S -> A -> S)
    (l : list A) (st : S) :
  (forall st x, x ∈ l -> I st -> I (step st x)) ->
  I st -> I (fold_left step l st).
Proof.
  revert st. induction l as [|x l IH]; intros st Hstep Hst; simpl; [done|].
  apply IH.
  - intros st' y Hy. apply Hstep. by right.
  - apply Hstep; [by left|done].
Qed.

(** X9.  Every segment carries the name of an allowed tag, and its text is
    in collapsed form: collapsing its white space again changes
    nothing. *)
Theorem segments_are_normal (html : soup) (seg : TextSegment) :
  seg ∈ extract_segments html ->
  tag seg ∈ ALLOWED_TAGS
  /\ Py.join " " (Py.split (text seg)) = text seg.
Proof.
  unfold extract_segments.
  set (good := fun s : TextSegment =>
                 tag s ∈ ALLOWED_TAGS
                 /\ Py.join " " (Py.split (text s)) = text s).
  assert (Forall good
            (fold_left segment_step
               (find_all ALLOWED_TAGS
                  (fold_left decompose_all EXCLUDED_CONTAINERS html))
               ([], 0)).1) as Hall.
  { apply (fold_left_invariant (fun st => Forall good st.1)); [|constructor].
    intros [segs off] el Hel Hsegs. unfold segment_step.
    destruct (_has_allowed_ancestor el); [done|].
    destruct (negb _); [done|]. simpl in *.
    apply Forall_app. split; [done|]. constructor; [|constructor].
    split; simpl.
    - apply list_elem_of_filter in Hel as [Hmem _].
      unfold Py.mem in Hmem. by apply bool_decide_eq_true in Hmem.
    - apply collapse_idem. }
  intros Hseg. rewrite Forall_forall in Hall. by apply Hall.
Qed.

Lemma segments_are_normal_witness :
  "div" ∈ ALLOWED_TAGS
  /\ Py.join " " (Py.split "Hello big world") = "Hello big world".
Proof.
  apply (segments_are_normal Fixtures.two_blocks
           {| text := "Hello big world"; tag := "div"; char_offset := 0 |}).
  vm_compute. apply list_elem_of_In. left. reflexivity.
Defined.

(** ** Nested allowed tags *)

Lemma layout_blocks (offset : Z) (bs : list (string * string)) :
  map (fun seg => (tag seg, text seg)) (SegmentSpec.layout offset bs)
  = filter (fun b => Py.truthy b.2 = true) bs.
Proof.
  revert offset. induction bs as [|[name txt] bs IH]; intros offset;
    [reflexivity|].
  cbn [SegmentSpec.layout]. rewrite filter_cons. cbn [snd].
  destruct (Py.truthy txt).
  - rewrite decide_True by done. cbn [map tag text]. by rewrite IH.
  - rewrite decide_False by done. apply IH.
Qed.

(** X10.  In every document, nested allowed tags emit nothing of their
    own: the segments are, one for one and in order, the blocks whose
    text is not empty, where a block is an allowed tag in no excluded
    container and below no allowed tag, and its text is all the visible
    text below it, that of the allowed tags inside it included. *)
Theorem nested_tags_emit_nothing (html : soup) :
  map (fun seg => (tag seg, text seg)) (extract_segments html)
  = filter (fun b => Py.truthy b.2 = true)
           (flat_map (SegmentSpec.blocks None) html)
  /\ (length (extract_segments html)
      <= length (flat_map (SegmentSpec.blocks None) html))%nat.
Proof.
  rewrite ExtractorFacts.extract_segments_document.
  unfold SegmentSpec.document_segments.
  assert (map (fun seg => (tag seg, text seg))
            (SegmentSpec.layout 0 (flat_map (SegmentSpec.blocks None) html))
          = filter (fun b => Py.truthy b.2 = true)
                   (flat_map (SegmentSpec.blocks None) html)) as Heq
    by apply layout_blocks.
  split; [exact Heq|].
  apply (f_equal (@length _)) in Heq. rewrite length_map in Heq.
  rewrite Heq. apply length_filter.
Qed.

Lemma nested_tags_emit_nothing_witness :
  map (fun seg => (tag seg, text seg))
      (extract_segments Fixtures2.nested_page)
  = [("div", "outer inner deep"); ("li", "item")].
Proof.
  rewrite (proj1 (nested_tags_emit_nothing Fixtures2.nested_page)).
  reflexivity.
Defined.

End ExtractorMore.

(* ===================================================================== *)
(** * More on one worker *)
(* ===================================================================== *)

Module WorkerMore.
Import Crawler WorkerSpec MoreSpec.

Ltac finish_left_behind Hfresh Hids :=
  unfold Crud.increment_pages_scanned, Crud.increment_error_count,
    Crud.update_page_failed, Crud.update_page_skipped,
    Crud.update_page_completed, Crud.with_runs;
  split;
  [ cbn [Crud.pages];
    erewrite CrudFacts.update_page_last;
    [
    | rewrite ?CrudFacts.pages_insert_matches;
      exact (WorkerFacts.registered_pages _ _ _ Hfresh Hids)
    | reflexivity
    | exact Hids ];
    reflexivity
  | intros r Hr; cbn [Crud.crawl_runs];
    rewrite !lookup_alter_eq, !CrudFacts.runs_update_page,
      ?CrudFacts.runs_insert_matches;
    erewrite WorkerFacts.registered_runs by eassumption;
    cbn; do 2 f_equal; lia ].

Lemma matches_insert_matches (db : Crud.pool) (ms : list Crud.match_row) :
  Crud.page_matches (Crud.insert_matches db ms) = Crud.page_matches db ++ ms.
Proof. destruct ms; simpl; [by rewrite app_nil_r|done]. Qed.

Section WithEnvironment.
Context {lib : Url.Library}.
Context (E : Re.engine) (settings : Config.Settings).
Context (client : string -> result Response).

(** The page that is HTML and whose links are extracted: skipped if an
    exclude rule matches its path, scanned and completed if not. *)
Lemma run_html_page (db : Crud.pool) (url : string) (rid : nat)
    (netloc : string) (kr er : list Matcher.Rule) (response : Response)
    (links : list string) (p : Url.ParseResult) :
  ids_issued db ->
  Crud.conflicts db rid url = [] ->
  client url = Ok response ->
  200 <= status_code response <= 299 ->
  Py.contains (default "" (content_type response)) "html" = true ->
  Extractor.extract_links (text response) url = Ok links ->
  Url.urlparse url = Ok p ->
  let out := run client (_scan_page E settings url rid netloc kr er) db in
  let ms := scan_segments E settings (Crud.next_id db)
              (Extractor.extract_segments (text response)) kr in
  out.1 = links
  /\ if excluded_by E er (Url.path p)
     then left_behind db out.2 rid url Crud.skipped 0 None
            (Some "URL matched an exclude pattern") 0
          /\ Crud.page_matches out.2 = Crud.page_matches db
     else left_behind db out.2 rid url Crud.completed
            (Z.of_nat (length ms)) (keywords_csv_of ms) None 0
          /\ Crud.page_matches out.2 = Crud.page_matches db ++ ms.
Proof.
  intros Hids Hfresh Hget Hstatus Hct Hlinks Hp. cbv zeta.
  rewrite WorkerFacts.run_scan_page_fresh, WorkerFacts.run_then by done.
  unfold scan_body. simpl. rewrite Hget. unfold raise_for_status.
  destruct (Z.leb_spec 200 (status_code response)); [|lia].
  destruct (Z.leb_spec (status_code response) 299); [|lia].
  simpl. rewrite Hct, Hlinks. simpl.
  destruct er as [|rule er']; simpl excluded_by.
  - simpl. split; [reflexivity|]. split.
    + finish_left_behind Hfresh Hids.
    + rewrite matches_insert_matches.
      by rewrite WorkerFacts.registered_matches.
  - rewrite Hp. simpl.
    destruct (Matcher.any_match E (Url.path p) (rule :: er')) eqn:Hany;
      simpl in Hany; rewrite Hany; simpl.
    + split; [reflexivity|]. split; [|apply WorkerFacts.registered_matches].
      finish_left_behind Hfresh Hids.
    + split; [reflexivity|]. split.
      * finish_left_behind Hfresh Hids.
      * rewrite matches_insert_matches.
        by rewrite WorkerFacts.registered_matches.
Qed.

(** X11.  A worker that has registered its page, receives a successful
    HTML response and extracts its links, and to whose path no exclude rule
    applies, writes one record per match of a keyword rule in a segment,
    marks the page completed with their number and the sorted list of the
    keywords that matched, adds one to [pages_scanned] and none to
    [error_count], and returns the links. *)
Theorem scanned_page_is_completed (db : Crud.pool) (url : string) (rid : nat)
    (netloc : string) (kr er : list Matcher.Rule) (response : Response)
    (links : list string) (p : Url.ParseResult) :
  ids_issued db ->
  Crud.conflicts db rid url = [] ->
  client url = Ok response ->
  200 <= status_code response <= 299 ->
  Py.contains (default "" (content_type response)) "html" = true ->
  Extractor.extract_links (text response) url = Ok links ->
  Url.urlparse url = Ok p ->
  excluded_by E er (Url.path p) = false ->
  let out := run client (_scan_page E settings url rid netloc kr er) db in
  let ms := scan_segments E settings (Crud.next_id db)
              (Extractor.extract_segments (text response)) kr in
  out.1 = links
  /\ left_behind db out.2 rid url Crud.completed
       (Z.of_nat (length ms)) (keywords_csv_of ms) None 0
  /\ Crud.page_matches out.2 = Crud.page_matches db ++ ms.
Proof.
  intros Hids Hfresh Hget Hstatus Hct Hlinks Hp Hex.
  pose proof (run_html_page db url rid netloc kr er response links p Hids
                Hfresh Hget Hstatus Hct Hlinks Hp) as H.
  cbv zeta in *. rewrite Hex in H. tauto.
Qed.

(** The ways in which the [try] of a worker can go. *)
Lemma worker_cases (url : string) :
  (exists e, fails client url e)
  \/ (exists response,
        client url = Ok response
        /\ 200 <= status_code response <= 299
        /\ Py.contains (default "" (content_type response)) "html" = false)
  \/ (exists response links p,
        client url = Ok response
        /\ 200 <= status_code response <= 299
        /\ Py.contains (default "" (content_type response)) "html" = true
        /\ Extractor.extract_links (text response) url = Ok links
        /\ Url.urlparse url = Ok p).
Proof.
  destruct (client url) as [response|e] eqn:Hget.
  2: { left. exists e. by apply fails_fetch. }
  destruct (decide (200 <= status_code response <= 299)) as [Hs|Hs].
  2: { left. eexists. by eapply fails_status. }
  destruct (Py.contains (default "" (content_type response)) "html")
    eqn:Hct.
  2: { right. left. by exists response. }
  destruct (Extractor.extract_links (text response) url) as [links|e]
    eqn:Hlinks.
  2: { left. exists e. by eapply fails_links. }
  right. right. exists response, links.
  pose proof Hlinks as Hl. unfold Extractor.extract_links in Hl.
  destruct (Url.urlparse url) as [p|e] eqn:Hp; [|simpl in Hl; discriminate].
  by exists p.
Qed.

Lemma scan_segments_page_id (page_id : nat)
    (segments : list Extractor.TextSegment) (kr : list Matcher.Rule) :
  Forall (fun m => Crud.page_id m = page_id)
    (scan_segments E settings page_id segments kr).
Proof.
  unfold scan_segments. apply Forall_forall. intros m Hm.
  apply list_elem_of_In, in_flat_map in Hm as (seg & _ & Hm).
  apply in_map_iff in Hm as (mr & <- & _). reflexivity.
Qed.

(** What every worker that has registered its page leaves behind. *)
Lemma worker_settles (db : Crud.pool) (url : string) (rid : nat)
    (netloc : string) (kr er : list Matcher.Rule) :
  ids_issued db ->
  Crud.conflicts db rid url = [] ->
  let out := run client (_scan_page E settings url rid netloc kr er) db in
  exists state hits csv note errors ms,
    left_behind db out.2 rid url state hits csv note errors
    /\ terminal state
    /\ (errors = 0 \/ (errors = 1 /\ state = Crud.failed))
    /\ Crud.page_matches out.2 = Crud.page_matches db ++ ms
    /\ Forall (fun m => Crud.page_id m = Crud.next_id db) ms
    /\ hits = Z.of_nat (length ms)
    /\ (ms <> [] -> state = Crud.completed)
    /\ (state = Crud.failed -> out.1 = []).
Proof.
  intros Hids Hfresh. cbv zeta.
  destruct (worker_cases url)
    as [[e He]|[(response & Hget & Hs & Hct)
               |(response & links & p & Hget & Hs & Hct & Hlinks & Hp)]].
  - destruct (WorkerFacts.run_failure E settings client db url rid netloc
                kr er e Hids Hfresh He) as (H1 & H2 & H3).
    exists Crud.failed, 0, None, (Some (failure_note e)), 1, [].
    rewrite app_nil_r. unfold terminal.
    repeat split; auto; try apply H2; done.
  - destruct (WorkerFacts.run_non_html E settings client db url rid netloc
                kr er response Hids Hfresh Hget Hs Hct) as (H1 & H2 & H3).
    exists Crud.failed, 0, None, (Some "Non-HTML content-type"), 0, [].
    rewrite app_nil_r. unfold terminal.
    repeat split; auto; try apply H2; done.
  - pose proof (run_html_page db url rid netloc kr er response links p Hids
                  Hfresh Hget Hs Hct Hlinks Hp) as [H1 H2].
    cbv zeta in H2.
    destruct (excluded_by E er (Url.path p)); destruct H2 as [H2 H3].
    + exists Crud.skipped, 0, None,
        (Some "URL matched an exclude pattern"), 0, [].
      rewrite app_nil_r. unfold terminal.
      repeat split; auto; try apply H2; done.
    + eexists Crud.completed, _, _, None, 0, _.
      unfold terminal.
      repeat split; [apply H2|apply H2|auto|auto|exact H3| |done].
      apply scan_segments_page_id.
Qed.

(** X12.  Whatever the server answers, a worker that has registered its
    page leaves that page, and no other, changed: it is completed,
    skipped or failed; [pages_found] and [pages_scanned] of the run have
    each grown by one and [error_count] by one at most, and only for a
    failed page; match records are only appended, all for this page, as
    many as the page has hits, and only for a completed page; a failed
    page contributes no link. *)
Theorem registered_page_is_settled (db : Crud.pool) (url : string)
    (rid : nat) (netloc : string) (kr er : list Matcher.Rule) :
  ids_issued db ->
  Crud.conflicts db rid url = [] ->
  let out := run client (_scan_page E settings url rid netloc kr er) db in
  exists state hits csv note errors ms,
    left_behind db out.2 rid url state hits csv note errors
    /\ terminal state
    /\ (errors = 0 \/ (errors = 1 /\ state = Crud.failed))
    /\ Crud.page_matches out.2 = Crud.page_matches db ++ ms
    /\ Forall (fun m => Crud.page_id m = Crud.next_id db) ms
    /\ hits = Z.of_nat (length ms)
    /\ (ms <> [] -> state = Crud.completed)
    /\ (state = Crud.failed -> out.1 = []).
Proof. exact (worker_settles db url rid netloc kr er). Qed.

End WithEnvironment.

Lemma scanned_page_is_completed_witness :
  let out := run Fixtures.html_client
               (_scan_page Fixtures.page_engine Config.defaults
                  "https://example.com" 1 "example.com"
                  [Fixtures.beta_rule] [Fixtures.private_rule])
               Fixtures.fresh_db in
  out.1 = ["https://example.com/about"]
  /\ map Crud.page_state (Crud.pages out.2) = [Crud.completed]
  /\ map Crud.snippet (Crud.page_matches out.2) = ["beta"].
Proof.
  destruct (scanned_page_is_completed Fixtures.page_engine Config.defaults
              Fixtures.html_client Fixtures.fresh_db "https://example.com" 1
              "example.com" [Fixtures.beta_rule] [Fixtures.private_rule]
              {| status_code := 200;
                 content_type := Some "text/html; charset=utf-8";
                 text := Fixtures.linking_page |}
              ["https://example.com/about"]
              {| Url.scheme := "https"; Url.netloc := "example.com";
                 Url.path := ""; Url.params := ""; Url.query := "";
                 Url.fragment := "" |})
    as (H1 & _ & _).
  - constructor.
  - reflexivity.
  - reflexivity.
  - simpl. lia.
  - reflexivity.
  - vm_compute. reflexivity.
  - vm_compute. reflexivity.
  - vm_compute. reflexivity.
  - cbv zeta. split; [exact H1|]. split; vm_compute; reflexivity.
Defined.

Lemma registered_page_is_settled_witness :
  let out := run Fixtures.pdf_client
               (_scan_page Fixtures.page_engine Config.defaults
                  "https://example.com/report.pdf" 1 "example.com" [] [])
               Fixtures.fresh_db in
  exists state hits csv note errors ms,
    left_behind Fixtures.fresh_db out.2 1 "https://example.com/report.pdf"
      state hits csv note errors
    /\ terminal state
    /\ (errors = 0 \/ (errors = 1 /\ state = Crud.failed))
    /\ Crud.page_matches out.2 = Crud.page_matches Fixtures.fresh_db ++ ms
    /\ Forall (fun m => Crud.page_id m = Crud.next_id Fixtures.fresh_db) ms
    /\ hits = Z.of_nat (length ms)
    /\ (ms <> [] -> state = Crud.completed)
    /\ (state = Crud.failed -> out.1 = []).
Proof.
  apply (registered_page_is_settled Fixtures.page_engine Config.defaults
           Fixtures.pdf_client Fixtures.fresh_db
           "https://example.com/report.pdf" 1 "example.com" [] []).
  - constructor.
  - reflexivity.
Defined.

End WorkerMore.

(* ===================================================================== *)
(** * The tables after a crawl *)
(* ===================================================================== *)

Module LedgerFacts.
Import Crawler WorkerSpec MoreSpec.

Lemma bump_zero (r : Crud.crawl_run_row) : bump 0 0 0 r = r.
Proof. destruct r. unfold bump. cbn. f_equal; lia. Qed.

Lemma bump_bump (a b c a' b' c' : Z) (r : Crud.crawl_run_row) :
  bump a' b' c' (bump a b c r) = bump (a + a') (b + b') (c + c') r.
Proof. unfold bump. cbn. f_equal; lia. Qed.

Lemma failures_app (rows1 rows2 : list Crud.page_row) :
  failures (rows1 ++ rows2) = failures rows1 + failures rows2.
Proof. unfold failures. rewrite filter_app, length_app. lia. Qed.

Lemma hits_of_app (ms1 ms2 : list Crud.match_row) (pid : nat) :
  hits_of (ms1 ++ ms2) pid = hits_of ms1 pid + hits_of ms2 pid.
Proof. unfold hits_of. rewrite filter_app, length_app. lia. Qed.

Lemma hits_of_none (ms : list Crud.match_row) (pid : nat) :
  Forall (fun m => Crud.page_id m <> pid) ms -> hits_of ms pid = 0.
Proof.
  intros H. unfold hits_of.
  induction H as [|m ms Hm _ IH]; [reflexivity|].
  rewrite filter_cons_False by exact Hm. exact IH.
Qed.

Lemma hits_of_all (ms : list Crud.match_row) (pid : nat) :
  Forall (fun m => Crud.page_id m = pid) ms ->
  hits_of ms pid = Z.of_nat (length ms).
Proof.
  intros H. unfold hits_of.
  induction H as [|m ms Hm _ IH]; [reflexivity|].
  rewrite filter_cons_True by exact Hm. cbn [length]. lia.
Qed.

Lemma ledger_refl (rid : nat) (db : Crud.pool) : ledger rid db db [] [] 0.
Proof.
  unfold ledger. rewrite !app_nil_r.
  repeat split; try done.
  intros r Hr. by rewrite bump_zero.
Qed.

Lemma ledger_trans (rid : nat) (db db1 db2 : Crud.pool)
    (rows1 rows2 : list Crud.page_row) (ms1 ms2 : list Crud.match_row)
    (e1 e2 : Z) :
  ids_issued db1 ->
  ledger rid db db1 rows1 ms1 e1 ->
  ledger rid db1 db2 rows2 ms2 e2 ->
  ledger rid db db2 (rows1 ++ rows2) (ms1 ++ ms2) (e1 + e2).
Proof.
  intros Hids (Hp1 & Hm1 & Hn1 & Hrows1 & Hms1 & He1 & Hr1)
    (Hp2 & Hm2 & Hn2 & Hrows2 & Hms2 & He2 & Hr2).
  assert (Forall (fun p => (Crud.id p < Crud.next_id db1)%nat) rows1)
    as Hold.
  { unfold ids_issued in Hids. rewrite Hp1 in Hids.
    by apply Forall_app in Hids as [_ ?]. }
  assert (Forall (fun m => (Crud.next_id db1 <= Crud.page_id m)%nat) ms2)
    as Hnew.
  { eapply Forall_impl; [exact Hms2|]. intros m (p & Hin & -> & _).
    rewrite Forall_forall in Hrows2. by apply Hrows2 in Hin as (_ & _ & ? & _). }
  assert (Forall (fun m => (Crud.page_id m < Crud.next_id db1)%nat) ms1)
    as Hpast.
  { eapply Forall_impl; [exact Hms1|]. intros m (p & Hin & -> & _).
    rewrite Forall_forall in Hold. by apply Hold. }
  unfold ledger. repeat split.
  - by rewrite Hp2, Hp1, app_assoc.
  - by rewrite Hm2, Hm1, app_assoc.
  - lia.
  - apply Forall_app. split.
    + apply Forall_forall. intros p Hin.
      rewrite Forall_forall in Hrows1.
      destruct (Hrows1 p Hin) as (? & ? & ? & Hhits).
      repeat split; try done.
      rewrite hits_of_app, Hhits, (hits_of_none ms2); [lia|].
      eapply Forall_impl; [exact Hnew|]. intros m Hm.
      rewrite Forall_forall in Hold. specialize (Hold p Hin). cbn in *. lia.
    + apply Forall_forall. intros p Hin.
      rewrite Forall_forall in Hrows2.
      destruct (Hrows2 p Hin) as (? & ? & ? & Hhits).
      repeat split; try done; [lia|].
      rewrite hits_of_app, Hhits, (hits_of_none ms1); [lia|].
      eapply Forall_impl; [exact Hpast|]. intros m Hm. cbn in *. lia.
  - apply Forall_app. split.
    + eapply Forall_impl; [exact Hms1|]. intros m (p & Hin & ? & ?).
      exists p. split; [|done]. apply elem_of_app. by left.
    + eapply Forall_impl; [exact Hms2|]. intros m (p & Hin & ? & ?).
      exists p. split; [|done]. apply elem_of_app. by right.
  - lia.
  - rewrite failures_app. lia.
  - intros r Hr. rewrite (Hr2 _ (Hr1 r Hr)), bump_bump, length_app.
    do 2 f_equal; lia.
Qed.

(** ** Identifiers *)

Lemma ids_issued_update_page (f : Crud.page_row -> Crud.page_row)
    (db : Crud.pool) (pid : nat) :
  (forall p, Crud.id (f p) = Crud.id p) ->
  ids_issued db -> ids_issued (Crud.update_page f db pid).
Proof.
  intros Hf Hids. unfold ids_issued, Crud.update_page, Crud.with_pages in *.
  cbn. apply Forall_fmap. eapply Forall_impl; [exact Hids|].
  intros p Hp. cbn. case_bool_decide; [by rewrite Hf|done].
Qed.

Lemma ids_issued_execute (s : statement) (db : Crud.pool) :
  ids_issued db -> ids_issued (execute s db).
Proof.
  intros Hids. destruct s; cbn; try exact Hids;
    try (apply ids_issued_update_page; [by intros p|exact Hids]).
  by destruct matches.
Qed.

Lemma next_id_execute (s : statement) (db : Crud.pool) :
  Crud.next_id (execute s db) = Crud.next_id db.
Proof. destruct s; cbn; try reflexivity. by destruct matches. Qed.

Lemma ids_issued_insert_page (db : Crud.pool) (rid : nat) (u : string) :
  ids_issued db ->
  ids_issued (Crud.insert_page db rid u).2
  /\ (Crud.next_id db <= Crud.next_id (Crud.insert_page db rid u).2)%nat.
Proof.
  intros Hids. unfold Crud.insert_page.
  destruct (Crud.conflicts db rid u); cbn; [|by split].
  split; [|lia]. unfold ids_issued in *. cbn.
  apply Forall_app. split.
  - eapply Forall_impl; [exact Hids|]. intros p Hp. cbn in *. lia.
  - apply Forall_singleton. cbn. lia.
Qed.

(** Whatever a coroutine does, every page row keeps an identifier that
    has been handed out, and no identifier is handed out again. *)
Lemma ids_issued_run {A : Type} (client : string -> result Response)
    (t : task A) (db : Crud.pool) :
  ids_issued db ->
  ids_issued (run client t db).2
  /\ (Crud.next_id db <= Crud.next_id (run client t db).2)%nat.
Proof.
  revert db. induction t as [a|rid u k IH|u k IH|s k IH]; intros db Hids;
    simpl.
  - by split.
  - destruct (Crud.insert_page db rid u) as [page_id db'] eqn:Hins.
    destruct (ids_issued_insert_page db rid u Hids) as [H1 H2].
    rewrite Hins in H1, H2. cbn in H1, H2.
    destruct (IH page_id db' H1). split; [done|lia].
  - by apply IH.
  - destruct (IH (execute s db) (ids_issued_execute s db Hids)).
    rewrite next_id_execute in *. by split.
Qed.

Section WithEnvironment.
Context {lib : Url.Library}.
Context (E : Re.engine) (settings : Config.Settings).

(** One worker, whether it registers its page or not. *)
Lemma ledger_worker (client : string -> result Response) (db : Crud.pool)
    (url : string) (rid : nat) (netloc : string)
    (kr er : list Matcher.Rule) :
  ids_issued db ->
  let out := run client (_scan_page E settings url rid netloc kr er) db in
  ids_issued out.2
  /\ exists rows ms errors, ledger rid db out.2 rows ms errors.
Proof.
  intros Hids. cbv zeta.
  split; [by apply ids_issued_run|].
  destruct (Crud.conflicts db rid url) as [|c cs] eqn:Hfresh.
  2: { rewrite WorkerFacts.run_duplicate by by rewrite Hfresh.
       exists [], [], 0. apply ledger_refl. }
  destruct (WorkerMore.worker_settles E settings client db url rid netloc
              kr er Hids Hfresh)
    as (state & hits & csv & note & errors & ms & [Hpages Hruns] & Hterm
        & Herr & Hms & Hpid & Hhits & Hcompleted & _).
  eexists [_], ms, errors. unfold ledger.
  split; [exact Hpages|]. split; [exact Hms|].
  split; [by apply ids_issued_run|].
  split; [|split; [|split]].
  - apply Forall_singleton. cbn. repeat split; try done.
    by rewrite hits_of_all.
  - apply Forall_forall. intros m Hm. eexists. split; [apply list_elem_of_here|].
    cbn. split.
    + rewrite Forall_forall in Hpid. by apply Hpid.
    + apply Hcompleted. intros ->. by apply not_elem_of_nil in Hm.
  - unfold failures.
    destruct Herr as [->|[-> ->]].
    + lia.
    + rewrite filter_cons_True by done. cbn. lia.
  - intros r Hr. rewrite (Hruns r Hr). reflexivity.
Qed.

(** The workers of one batch. *)
Lemma ledger_gather (client : string -> result Response) (rid : nat)
    (netloc : string) (kr er : list Matcher.Rule) (batch : list string)
    (db : Crud.pool) :
  ids_issued db ->
  let out := gather E settings client rid netloc kr er batch db in
  ids_issued out.2
  /\ exists rows ms errors, ledger rid db out.2 rows ms errors.
Proof.
  revert db. induction batch as [|url batch IH]; intros db Hids; cbv zeta.
  - cbn. split; [exact Hids|]. exists [], [], 0. apply ledger_refl.
  - cbn [gather snd].
    destruct (ledger_worker client db url rid netloc kr er Hids)
      as (Hids1 & rows1 & ms1 & e1 & H1).
    destruct (IH _ Hids1) as (Hids2 & rows2 & ms2 & e2 & H2).
    split; [exact Hids2|].
    exists (rows1 ++ rows2), (ms1 ++ ms2), (e1 + e2).
    eapply ledger_trans; [exact Hids1|exact H1|exact H2].
Qed.

(** The loop of [crawl_run]. *)
Lemma ledger_crawl_loop (fuel : nat) (client : string -> result Response)
    (rid : nat) (netloc : string) (kr er : list Matcher.Rule)
    (st : frontier) :
  ids_issued (pool st) ->
  let out := crawl_loop E settings fuel client rid netloc kr er st in
  ids_issued (pool out.1)
  /\ exists rows ms errors, ledger rid (pool st) (pool out.1) rows ms errors.
Proof.
  revert st. induction fuel as [|fuel IH]; intros st Hids; cbv zeta.
  { cbn. split; [exact Hids|]. exists [], [], 0. apply ledger_refl. }
  cbn [crawl_loop].
  destruct (queue st) as [|u q].
  { cbn. split; [exact Hids|]. exists [], [], 0. apply ledger_refl. }
  destruct (Config.max_pages_per_run settings <=? Z.of_nat (size (visited st))).
  { cbn. split; [exact Hids|]. exists [], [], 0. apply ledger_refl. }
  destruct (next_batch settings (u :: q) (visited st) [])
    as [[[queue' visited'] batch]|e].
  2: { cbn. split; [exact Hids|]. exists [], [], 0. apply ledger_refl. }
  destruct batch as [|b batch].
  { apply (IH {| queue := queue'; visited := visited'; pool := pool st |}).
    exact Hids. }
  destruct (ledger_gather client rid netloc kr er (b :: batch) (pool st)
              Hids) as (Hids1 & rows1 & ms1 & e1 & H1).
  destruct (enqueue_all netloc visited' queue'
              (gather E settings client rid netloc kr er (b :: batch)
                 (pool st)).1) as [queue''|e].
  2: { cbn [fst pool]. split; [exact Hids1|]. by exists rows1, ms1, e1. }
  destruct (IH {| queue := queue''; visited := visited';
                  pool := (gather E settings client rid netloc kr er
                             (b :: batch) (pool st)).2 |} Hids1)
    as (Hids2 & rows2 & ms2 & e2 & H2).
  split; [exact Hids2|].
  exists (rows1 ++ rows2), (ms1 ++ ms2), (e1 + e2).
  eapply ledger_trans; [exact Hids1|exact H1|exact H2].
Qed.

End WithEnvironment.

End LedgerFacts.

(* ===================================================================== *)
(** * More on the orchestrator *)
(* ===================================================================== *)

Module CrawlFacts.
Import Crawler WorkerSpec MoreSpec.

Lemma ledger_marked (s : Crud.run_status) (rid : nat) (db db' : Crud.pool)
    (rows : list Crud.page_row) (ms : list Crud.match_row) (errors : Z) :
  ledger rid db db' rows ms errors ->
  ledger rid (marked s rid db) (marked s rid db') rows ms errors.
Proof.
  intros (Hp & Hm & Hn & Hrows & Hms & He & Hr).
  unfold ledger, marked, Crud.with_runs. cbn.
  repeat split; try done; try lia.
  intros r Hlook. rewrite lookup_alter_eq in Hlook. rewrite lookup_alter_eq.
  destruct (Crud.crawl_runs db !! rid) as [r0|] eqn:H0; [|done].
  cbn in Hlook. inversion Hlook; subst. by rewrite (Hr r0 eq_refl).
Qed.

Lemma marked_marked (s s' : Crud.run_status) (rid : nat) (db : Crud.pool) :
  marked s rid (marked s' rid db) = marked s rid db.
Proof.
  unfold marked, Crud.with_runs. cbn. f_equal.
  rewrite alter_alter_eq. apply alter_ext. by intros [] _.
Qed.

Lemma ids_issued_marked (s : Crud.run_status) (rid : nat) (db : Crud.pool) :
  ids_issued db -> ids_issued (marked s rid db).
Proof. done. Qed.

Section WithEnvironment.
Context {lib : Url.Library}.
Context (E : Re.engine) (settings : Config.Settings).

(** ** The inner loop *)

Lemma next_batch_progress (queue : list string) (visited : gset string)
    (batch q b : list string) (v : gset string) :
  next_batch settings queue visited batch = Ok (q, v, b) ->
  Z.of_nat (length b)
  <= Z.max (Z.of_nat (length batch)) (Config.crawl_concurrency settings)
  /\ (Z.of_nat (length b) < Config.crawl_concurrency settings -> q = []).
Proof.
  revert visited batch. induction queue as [|url queue IH];
    intros visited batch H; simpl in H.
  - inversion H; subst. split; [lia|done].
  - destruct (Z.ltb_spec (Z.of_nat (length batch))
                (Config.crawl_concurrency settings)) as [Hlt|Hge].
    2: { inversion H; subst. split; lia. }
    destruct (_normalise_url url) as [norm|e]; [|done].
    simpl in H. case_bool_decide.
    + destruct (IH _ _ H) as [H1 H2]. split; [lia|done].
    + destruct (IH _ _ H) as [H1 H2]. rewrite length_app in H1.
      cbn [length] in H1. split; [lia|done].
Qed.

Lemma next_batch_size (queue : list string) (visited : gset string)
    (q b : list string) (v : gset string) :
  next_batch settings queue visited [] = Ok (q, v, b) ->
  size v = (length b + size visited)%nat.
Proof.
  intros H.
  destruct (FrontierFacts.next_batch_spec settings _ _ _ _ _ _ H)
    as (taken & norms & skipped & -> & _ & _ & Hall & Hnd & Hnew & ->).
  cbn [app]. rewrite size_union.
  - rewrite size_list_to_set by exact Hnd.
    by rewrite (Forall2_length _ _ _ Hall).
  - intros n Hn Hv. apply elem_of_list_to_set in Hn. by apply (Hnew n).
Qed.

(** ** How many pages a run registers *)

Lemma worker_rows (client : string -> result Response) (db : Crud.pool)
    (url : string) (rid : nat) (netloc : string)
    (kr er : list Matcher.Rule) :
  ids_issued db ->
  (length (Crud.pages
             (run client (_scan_page E settings url rid netloc kr er) db).2)
   <= length (Crud.pages db) + 1)%nat.
Proof.
  intros Hids.
  destruct (Crud.conflicts db rid url) as [|c cs] eqn:Hfresh.
  2: { rewrite WorkerFacts.run_duplicate by by rewrite Hfresh. cbn. lia. }
  destruct (WorkerMore.worker_settles E settings client db url rid netloc
              kr er Hids Hfresh)
    as (state & hits & csv & note & errors & ms & [Hpages _] & _).
  rewrite Hpages, length_app. cbn. lia.
Qed.

Lemma gather_rows (client : string -> result Response) (rid : nat)
    (netloc : string) (kr er : list Matcher.Rule) (batch : list string)
    (db : Crud.pool) :
  ids_issued db ->
  (length (Crud.pages (gather E settings client rid netloc kr er batch db).2)
   <= length (Crud.pages db) + length batch)%nat.
Proof.
  revert db. induction batch as [|url batch IH]; intros db Hids.
  - cbn. lia.
  - cbn [gather snd length].
    pose proof (worker_rows client db url rid netloc kr er Hids) as H1.
    destruct (LedgerFacts.ids_issued_run client
                (_scan_page E settings url rid netloc kr er) db Hids)
      as [Hids1 _].
    pose proof (IH _ Hids1) as H2. lia.
Qed.

Lemma crawl_loop_rows (fuel : nat) (client : string -> result Response)
    (rid : nat) (netloc : string) (kr er : list Matcher.Rule)
    (st : frontier) :
  ids_issued (pool st) ->
  let out := crawl_loop E settings fuel client rid netloc kr er st in
  (length (Crud.pages (pool out.1)) + size (visited st)
   <= length (Crud.pages (pool st)) + size (visited out.1))%nat
  /\ Z.of_nat (size (visited out.1))
     <= Z.max (Z.of_nat (size (visited st)))
          (Config.max_pages_per_run settings - 1
           + Z.max 0 (Config.crawl_concurrency settings)).
Proof.
  revert st. induction fuel as [|fuel IH]; intros st Hids; cbv zeta.
  { cbn. lia. }
  cbn [crawl_loop].
  destruct (queue st) as [|u q]; [cbn; lia|].
  destruct (Z.leb_spec (Config.max_pages_per_run settings)
              (Z.of_nat (size (visited st)))) as [Hfull|Hroom]; [cbn; lia|].
  destruct (next_batch settings (u :: q) (visited st) [])
    as [[[queue' visited'] batch]|e] eqn:Hbatch; [|cbn; lia].
  pose proof (next_batch_size _ _ _ _ _ Hbatch) as Hsize.
  destruct (next_batch_progress _ _ _ _ _ _ Hbatch) as [Hlen _].
  cbn [length] in Hlen.
  destruct batch as [|b batch].
  { specialize (IH {| queue := queue'; visited := visited';
                      pool := pool st |} Hids).
    cbv zeta in IH. cbn [pool visited] in IH. cbn [length] in Hsize. lia. }
  pose proof (gather_rows client rid netloc kr er (b :: batch) (pool st)
                Hids) as Hrows.
  assert (ids_issued
            (gather E settings client rid netloc kr er (b :: batch)
               (pool st)).2) as Hids1.
  { by apply LedgerFacts.ledger_gather. }
  destruct (enqueue_all netloc visited' queue'
              (gather E settings client rid netloc kr er (b :: batch)
                 (pool st)).1) as [queue''|e].
  2: { cbn [fst pool visited]. lia. }
  specialize (IH {| queue := queue''; visited := visited';
                    pool := (gather E settings client rid netloc kr er
                               (b :: batch) (pool st)).2 |} Hids1).
  cbv zeta in IH. cbn [pool visited] in IH. lia.
Qed.

(** ** Termination *)

Lemma crawl_loop_mono (fuel fuel' : nat) (client : string -> result Response)
    (rid : nat) (netloc : string) (kr er : list Matcher.Rule)
    (st : frontier) :
  (crawl_loop E settings fuel client rid netloc kr er st).2 <> OutOfFuel ->
  (fuel <= fuel')%nat ->
  crawl_loop E settings fuel' client rid netloc kr er st
  = crawl_loop E settings fuel client rid netloc kr er st.
Proof.
  revert fuel' st. induction fuel as [|fuel IH]; intros fuel' st Hend Hle.
  { by cbn in Hend. }
  destruct fuel' as [|fuel']; [lia|].
  cbn [crawl_loop] in *.
  destruct (queue st) as [|u q]; [done|].
  destruct (_ <=? _); [done|].
  destruct (next_batch settings (u :: q) (visited st) [])
    as [[[queue' visited'] batch]|e]; [|done].
  destruct batch as [|b batch]; [apply IH; [done|lia]|].
  destruct (enqueue_all _ _ _ _) as [queue''|e]; [|done].
  apply IH; [done|lia].
Qed.

Lemma crawl_loop_ends (fuel : nat) (client : string -> result Response)
    (rid : nat) (netloc : string) (kr er : list Matcher.Rule)
    (st : frontier) :
  1 <= Config.crawl_concurrency settings ->
  (turns settings (visited st) <= fuel)%nat ->
  (crawl_loop E settings fuel client rid netloc kr er st).2 <> OutOfFuel.
Proof.
  intros Hconc. unfold turns.
  revert st. induction fuel as [|fuel IH]; intros st Hfuel; [lia|].
  cbn [crawl_loop].
  destruct (queue st) as [|u q]; [done|].
  destruct (Z.leb_spec (Config.max_pages_per_run settings)
              (Z.of_nat (size (visited st)))) as [Hfull|Hroom]; [done|].
  destruct (next_batch settings (u :: q) (visited st) [])
    as [[[queue' visited'] batch]|e] eqn:Hbatch; [|done].
  pose proof (next_batch_size _ _ _ _ _ Hbatch) as Hsize.
  destruct (next_batch_progress _ _ _ _ _ _ Hbatch) as [_ Hempty].
  destruct batch as [|b batch].
  { rewrite Hempty by (cbn; lia).
    destruct fuel as [|fuel]; [lia|]. done. }
  cbn [length] in Hsize.
  destruct (enqueue_all _ _ _ _) as [queue''|e]; [|done].
  apply IH. cbn [visited]. lia.
Qed.

(** With no concurrency the loop makes no progress. *)
Lemma crawl_loop_spins (fuel : nat) (client : string -> result Response)
    (rid : nat) (netloc : string) (kr er : list Matcher.Rule)
    (st : frontier) :
  Config.crawl_concurrency settings <= 0 ->
  queue st <> [] ->
  Z.of_nat (size (visited st)) < Config.max_pages_per_run settings ->
  crawl_loop E settings fuel client rid netloc kr er st = (st, OutOfFuel).
Proof.
  intros Hconc Hq Hroom. induction fuel as [|fuel IH]; [done|].
  cbn [crawl_loop].
  destruct (queue st) as [|u q] eqn:Hqueue; [done|].
  destruct (Z.leb_spec (Config.max_pages_per_run settings)
              (Z.of_nat (size (visited st)))) as [Hfull|_]; [lia|].
  cbn [next_batch length]. change (Z.of_nat 0) with 0.
  destruct (Z.ltb_spec 0 (Config.crawl_concurrency settings)); [lia|].
  rewrite <- Hqueue.
  assert ({| queue := queue st; visited := visited st; pool := pool st |}
          = st) as -> by by destruct st.
  exact IH.
Qed.

Lemma crawl_setup_concurrency (domain : string)
    (keywords excludes : list string)
    (setup : string * list Matcher.Rule * list Matcher.Rule * string) :
  crawl_setup E settings domain keywords excludes = Ok setup ->
  0 <= Config.crawl_concurrency settings.
Proof.
  unfold crawl_setup. intros H.
  destruct (Url.urlparse _); [|done]. simpl in H.
  destruct (Matcher.compile_rules E keywords); [|done]. simpl in H.
  destruct (Matcher.compile_rules E excludes); [|done]. simpl in H.
  destruct (_normalise_url _); [|done]. simpl in H.
  unfold Semaphore in H.
  destruct (Z.ltb_spec (Config.crawl_concurrency settings) 0); [done|lia].
Qed.

(** ** Which pages a run registers *)

Lemma worker_page_urls (client : string -> result Response) (db : Crud.pool)
    (url : string) (rid : nat) (netloc : string)
    (kr er : list Matcher.Rule) :
  ids_issued db ->
  exists rows,
    Crud.pages
      (run client (_scan_page E settings url rid netloc kr er) db).2
    = Crud.pages db ++ rows
    /\ (rows = [] \/ exists row, rows = [row] /\ Crud.url row = url).
Proof.
  intros Hids.
  destruct (Crud.conflicts db rid url) as [|c cs] eqn:Hfresh.
  2: { rewrite WorkerFacts.run_duplicate by by rewrite Hfresh.
       exists []. cbn. rewrite app_nil_r. by split; [|left]. }
  destruct (WorkerMore.worker_settles E settings client db url rid netloc
              kr er Hids Hfresh)
    as (state & hits & csv & note & errors & ms & [Hpages _] & _).
  eexists. split; [exact Hpages|]. right. by eexists.
Qed.

Lemma gather_page_urls (client : string -> result Response) (rid : nat)
    (netloc : string) (kr er : list Matcher.Rule) (batch : list string)
    (bnorms : list string) (db : Crud.pool) :
  ids_issued db ->
  Forall2 (fun u n => _normalise_url u = Ok n) batch bnorms ->
  exists rows norms,
    Crud.pages (gather E settings client rid netloc kr er batch db).2
    = Crud.pages db ++ rows
    /\ normal_forms rows norms
    /\ norms `sublist_of` bnorms
    /\ Forall (fun p => Crud.url p ∈ batch) rows.
Proof.
  intros Hids Hnorms. revert db Hids.
  induction Hnorms as [|url n batch bnorms Hn _ IH]; intros db Hids.
  - exists [], []. cbn. rewrite app_nil_r.
    repeat split; try constructor.
  - cbn [gather snd].
    destruct (worker_page_urls client db url rid netloc kr er Hids)
      as (rows1 & Hp1 & Hrows1).
    destruct (LedgerFacts.ids_issued_run client
                (_scan_page E settings url rid netloc kr er) db Hids)
      as [Hids1 _].
    destruct (IH _ Hids1) as (rows2 & norms2 & Hp2 & Hn2 & Hsub & Hin).
    assert (Forall (fun p => Crud.url p ∈ url :: batch) rows2) as Hin'.
    { eapply Forall_impl; [exact Hin|]. intros p Hp. by right. }
    destruct Hrows1 as [->|(row & -> & Hurl)].
    + exists rows2, norms2. rewrite Hp2, Hp1, app_nil_r.
      repeat split; try done. by apply sublist_cons.
    + exists (row :: rows2), (n :: norms2).
      rewrite Hp2, Hp1, <- app_assoc.
      repeat split; try done.
      * constructor; [by rewrite Hurl|exact Hn2].
      * by apply sublist_skip.
      * constructor; [rewrite Hurl; by left|exact Hin'].
Qed.

Lemma enqueue_Forall (P : string -> Prop) (netloc : string)
    (visited : gset string) (links queue queue' : list string) :
  Forall P queue ->
  (forall l, l ∈ links -> _same_host l netloc = Ok true -> P l) ->
  enqueue netloc visited queue links = Ok queue' ->
  Forall P queue'.
Proof.
  revert queue. induction links as [|link links IH]; intros queue Hq Hl H;
    simpl in H.
  - by inversion H; subst.
  - destruct (_normalise_url link) as [norm|e]; [|done]. simpl in H.
    destruct (if bool_decide (norm ∉ visited) then _ else _)
      as [wanted|e] eqn:Hwanted; [|done].
    simpl in H. apply IH in H; [done| |].
    + destruct wanted; [|done]. apply Forall_app. split; [done|].
      apply Forall_singleton. apply Hl; [by left|].
      by case_bool_decide.
    + intros l Hin. apply Hl. by right.
Qed.

Lemma enqueue_all_Forall (P : string -> Prop) (netloc : string)
    (visited : gset string) (results : list (result (list string)))
    (queue queue' : list string) :
  Forall P queue ->
  Forall (fun r => match r with
                   | Ok links =>
                       forall l, l ∈ links ->
                                 _same_host l netloc = Ok true -> P l
                   | Raise _ => True
                   end) results ->
  enqueue_all netloc visited queue results = Ok queue' ->
  Forall P queue'.
Proof.
  revert queue. induction results as [|r results IH]; intros queue Hq Hr H;
    simpl in H.
  - by inversion H; subst.
  - apply Forall_cons in Hr as [Hr Hrs]. destruct r as [links|e].
    + destruct (enqueue netloc visited queue links) as [q|e] eqn:Hq';
        [|done].
      simpl in H. eapply IH; [|exact Hrs|exact H].
      exact (enqueue_Forall P netloc visited links queue q Hq Hr Hq').
    + by eapply IH.
Qed.

Lemma normal_forms_app (rows1 rows2 : list Crud.page_row)
    (norms1 norms2 : list string) :
  normal_forms rows1 norms1 -> normal_forms rows2 norms2 ->
  normal_forms (rows1 ++ rows2) (norms1 ++ norms2).
Proof. apply Forall2_app. Qed.

Lemma normal_forms_urls (rows : list Crud.page_row) (norms : list string) :
  normal_forms rows norms -> NoDup norms -> NoDup (map Crud.url rows).
Proof.
  intros H. induction H as [|p n rows norms Hp Hrest IH]; intros Hnd.
  - constructor.
  - apply NoDup_cons in Hnd as [Hn Hnd]. cbn. constructor; [|by apply IH].
    intros Hin. apply Hn.
    apply list_elem_of_fmap in Hin as (p' & Hurl & Hin).
    apply list_elem_of_lookup in Hin as [i Hi].
    destruct (Forall2_lookup_l _ _ _ _ _ Hrest Hi) as (n' & Hn' & Hnorm).
    rewrite <- Hurl, Hp in Hnorm. inversion Hnorm; subst n'.
    by eapply list_elem_of_lookup_2.
Qed.

Lemma crawl_loop_pages (fuel : nat) (client : string -> result Response)
    (rid : nat) (netloc : string) (kr er : list Matcher.Rule)
    (first : string) (st : frontier) :
  ids_issued (pool st) ->
  Forall (in_scope netloc first) (queue st) ->
  let out := crawl_loop E settings fuel client rid netloc kr er st in
  visited st ⊆ visited out.1
  /\ exists rows norms,
       Crud.pages (pool out.1) = Crud.pages (pool st) ++ rows
       /\ normal_forms rows norms
       /\ NoDup norms
       /\ (forall n, n ∈ norms -> (n ∉ visited st) /\ n ∈ visited out.1)
       /\ Forall (fun p => in_scope netloc first (Crud.url p)) rows.
Proof.
  assert (forall s0 : frontier,
            visited s0 ⊆ visited s0
            /\ exists rows norms,
                 Crud.pages (pool s0) = Crud.pages (pool s0) ++ rows
                 /\ normal_forms rows norms
                 /\ NoDup norms
                 /\ (forall n, n ∈ norms ->
                               (n ∉ visited s0) /\ n ∈ visited s0)
                 /\ Forall (fun p => in_scope netloc first (Crud.url p))
                      rows) as Hstop.
  { intros s0. split; [done|]. exists [], []. rewrite app_nil_r.
    split; [done|]. split; [constructor|]. split; [constructor|].
    split; [|constructor]. intros n Hn. by apply elem_of_nil in Hn. }
  revert st. induction fuel as [|fuel IH]; intros st Hids Hscope; cbv zeta.
  { apply Hstop. }
  cbn [crawl_loop].
  destruct (queue st) as [|u q] eqn:Hqueue; [apply Hstop|].
  destruct (_ <=? _); [apply Hstop|].
  destruct (next_batch settings (u :: q) (visited st) [])
    as [[[queue' visited'] batch]|e] eqn:Hbatch; [|apply Hstop].
  destruct (FrontierFacts.next_batch_spec settings _ _ _ _ _ _ Hbatch)
    as (taken & bnorms & skipped & Hb & Hq & Hsub & Hall & Hnd & Hnew & Hv).
  cbn [app] in Hb. subst batch.
  assert (Forall (in_scope netloc first) queue') as Hscope'.
  { rewrite Hq in Hscope. by apply Forall_app in Hscope as [_ ?]. }
  assert (Forall (in_scope netloc first) taken) as Htaken.
  { apply Forall_forall. intros x Hx. rewrite Forall_forall in Hscope.
    apply Hscope. rewrite Hq. apply elem_of_app. left. by apply Hsub. }
  assert (visited st ⊆ visited') as Hgrow.
  { rewrite Hv. apply union_subseteq_r. }
  destruct taken as [|b batch].
  { destruct (IH {| queue := queue'; visited := visited';
                    pool := pool st |} Hids Hscope')
      as (Hsub2 & rows & norms & Hp & Hn & Hnd2 & Hnew2 & Hin).
    cbv zeta in *. cbn [pool visited queue] in *.
    split; [by etrans|]. exists rows, norms.
    split; [exact Hp|]. split; [exact Hn|]. split; [exact Hnd2|].
    split; [|exact Hin].
    intros n Hin'. split; [|by apply Hnew2].
    intros Hvis. apply (Hnew2 n Hin'). by apply Hgrow. }
  destruct (gather_page_urls client rid netloc kr er (b :: batch) bnorms
              (pool st) Hids Hall)
    as (rows1 & norms1 & Hp1 & Hn1 & Hsub1 & Hin1).
  assert (ids_issued
            (gather E settings client rid netloc kr er (b :: batch)
               (pool st)).2) as Hids1.
  { by apply LedgerFacts.ledger_gather. }
  assert (Forall (fun p => in_scope netloc first (Crud.url p)) rows1)
    as Hscope1.
  { eapply Forall_impl; [exact Hin1|]. intros p Hp. cbn in Hp.
    rewrite Forall_forall in Htaken. by apply Htaken. }
  assert (forall n, n ∈ norms1 -> (n ∉ visited st) /\ n ∈ visited')
    as Hnew1.
  { intros n Hn'. assert (n ∈ bnorms) as Hb by by eapply elem_of_sublist.
    split; [by apply Hnew|]. rewrite Hv. apply elem_of_union. left.
    by apply elem_of_list_to_set. }
  destruct (enqueue_all netloc visited' queue'
              (gather E settings client rid netloc kr er (b :: batch)
                 (pool st)).1) as [queue''|e] eqn:Henq.
  2: { cbn [fst pool visited]. split; [exact Hgrow|].
       exists rows1, norms1.
       split; [exact Hp1|]. split; [exact Hn1|].
       split; [exact (sublist_NoDup _ _ Hnd Hsub1)|]. split; [exact Hnew1|].
       exact Hscope1. }
  assert (Forall (in_scope netloc first) queue'') as Hscope''.
  { eapply enqueue_all_Forall; [exact Hscope'| |exact Henq].
    eapply Forall_impl;
      [apply (FrontierFacts.gather_canonical E settings)|].
    intros [links|e] Hr; [|done]. cbn in Hr. intros l Hl Hhost.
    rewrite Forall_forall in Hr. split; [by apply Hr|by right]. }
  destruct (IH {| queue := queue''; visited := visited';
                  pool := (gather E settings client rid netloc kr er
                             (b :: batch) (pool st)).2 |} Hids1 Hscope'')
    as (Hsub2 & rows2 & norms2 & Hp2 & Hn2 & Hnd2 & Hnew2 & Hin2).
  cbv zeta in *. cbn [pool visited queue] in *.
  split; [by etrans|].
  exists (rows1 ++ rows2), (norms1 ++ norms2).
  split; [by rewrite Hp2, Hp1, app_assoc|].
  split; [by apply normal_forms_app|].
  split; [|split; [|by apply Forall_app]].
  - apply NoDup_app.
    split; [exact (sublist_NoDup _ _ Hnd Hsub1)|]. split; [|exact Hnd2].
    intros n Hn Hn'. apply (Hnew2 n Hn'). by apply Hnew1.
  - intros n [Hin|Hin]%elem_of_app.
    + split; [by apply Hnew1|]. apply Hsub2. by apply Hnew1.
    + split; [|by apply Hnew2].
      intros Hvis. apply (Hnew2 n Hin). by apply Hgrow.
Qed.

Lemma crawl_setup_first (domain : string) (keywords excludes : list string)
    (netloc : string) (kr er : list Matcher.Rule) (first : string) :
  crawl_setup E settings domain keywords excludes
  = Ok (netloc, kr, er, first) ->
  UrlSpec.canonical first.
Proof.
  unfold crawl_setup. intros H.
  destruct (Url.urlparse _); [|done]. simpl in H.
  destruct (Matcher.compile_rules E keywords); [|done]. simpl in H.
  destruct (Matcher.compile_rules E excludes); [|done]. simpl in H.
  destruct (_normalise_url _) as [f|] eqn:Hf; [|done]. simpl in H.
  destruct (Semaphore _); [|done]. simpl in H.
  inversion H; subst. by eexists.
Qed.

Section WithClient.
Context (make_client : result (string -> result Response)).

(** X13.  Whenever and however [crawl_run] ends, it has only appended to
    the tables of pages and of matches; every page that it has added is a
    page of its run, is completed, skipped or failed, and has as many
    hits as there are new match records for it; every new match record is
    for a new, completed page; the run has the status that goes with the
    ending, and its counters [pages_found] and [pages_scanned] have both
    grown by the number of new pages and [error_count] by at most the
    number of new failed pages. *)
Theorem crawl_run_ledger (fuel : nat) (rid : nat) (domain : string)
    (keywords excludes : list string) (db : Crud.pool) :
  ids_issued db ->
  let out := crawl_run E settings make_client fuel rid domain keywords
               excludes db in
  exists rows ms errors,
    ledger rid (marked (status_after out.2) rid db) out.1 rows ms errors.
Proof.
  intros Hids. cbv zeta. unfold crawl_run.
  destruct (crawl_setup E settings domain keywords excludes)
    as [[[[netloc kr] er] first]|e].
  2: { exists [], [], 0. apply LedgerFacts.ledger_refl. }
  destruct make_client as [client|e].
  2: { exists [], [], 0. cbn [fst snd status_after].
       change (Crud.finish_run (Crud.start_run db rid) rid false)
         with (marked Crud.run_failed rid (marked Crud.run_running rid db)).
       rewrite marked_marked. apply LedgerFacts.ledger_refl. }
  destruct (LedgerFacts.ledger_crawl_loop E settings fuel client rid netloc
              kr er
              {| queue := [first]; visited := ∅;
                 pool := Crud.start_run db rid |})
    as (_ & rows & ms & errors & H); [exact Hids|].
  cbv zeta in H. cbn [pool] in H.
  exists rows, ms, errors.
  destruct (crawl_loop E settings fuel client rid netloc kr er _)
    as [st ending]; cbn [fst snd] in *.
  destruct ending; cbn [fst snd status_after].
  - change (Crud.finish_run (pool st) rid true)
      with (marked Crud.run_completed rid (pool st)).
    rewrite <- (marked_marked Crud.run_completed Crud.run_running).
    by apply ledger_marked.
  - change (Crud.finish_run (pool st) rid false)
      with (marked Crud.run_failed rid (pool st)).
    rewrite <- (marked_marked Crud.run_failed Crud.run_running).
    by apply ledger_marked.
  - exact H.
Qed.

(** X14.  A run registers at most [max_pages_per_run + crawl_concurrency
    - 1] pages, and none if that is not positive: the ceiling is checked
    between batches only, so the last batch can pass it. *)
Theorem page_ceiling (fuel : nat) (rid : nat) (domain : string)
    (keywords excludes : list string) (db : Crud.pool) :
  ids_issued db ->
  let out := crawl_run E settings make_client fuel rid domain keywords
               excludes db in
  Z.of_nat (length (Crud.pages out.1))
  <= Z.of_nat (length (Crud.pages db))
     + Z.max 0 (Config.max_pages_per_run settings
                + Config.crawl_concurrency settings - 1).
Proof.
  intros Hids. cbv zeta. unfold crawl_run.
  destruct (crawl_setup E settings domain keywords excludes)
    as [[[[netloc kr] er] first]|e] eqn:Hsetup; [|cbn; lia].
  apply crawl_setup_concurrency in Hsetup.
  destruct make_client as [client|e]; [|cbn; lia].
  destruct (crawl_loop_rows fuel client rid netloc kr er
              {| queue := [first]; visited := ∅;
                 pool := Crud.start_run db rid |} Hids) as [H1 H2].
  cbv zeta in H1, H2. cbn [pool visited] in H1, H2.
  rewrite size_empty in H1, H2.
  change (Crud.pages (Crud.start_run db rid)) with (Crud.pages db) in H1.
  destruct (crawl_loop E settings fuel client rid netloc kr er _)
    as [st ending]; cbn [fst snd] in *.
  destruct ending; cbn [fst snd]; cbn; lia.
Qed.

(** X15.  With a concurrency of one or more the loop of [crawl_run] ends
    within [max_pages_per_run + 2] turns: with that much fuel or more,
    [crawl_run] ends, and with the same tables and the same ending
    however much more fuel it has. *)
Theorem crawl_run_terminates (fuel fuel' : nat) (rid : nat)
    (domain : string) (keywords excludes : list string) (db : Crud.pool) :
  1 <= Config.crawl_concurrency settings ->
  (turns settings ∅ <= fuel)%nat ->
  (fuel <= fuel')%nat ->
  (crawl_run E settings make_client fuel rid domain keywords excludes db).2
  <> Unfinished
  /\ crawl_run E settings make_client fuel' rid domain keywords excludes db
     = crawl_run E settings make_client fuel rid domain keywords excludes db.
Proof.
  intros Hconc Hfuel Hle. unfold crawl_run.
  destruct (crawl_setup E settings domain keywords excludes)
    as [[[[netloc kr] er] first]|e]; [|done].
  destruct make_client as [client|e]; [|done].
  pose proof (crawl_loop_ends fuel client rid netloc kr er
                {| queue := [first]; visited := ∅;
                   pool := Crud.start_run db rid |} Hconc Hfuel) as Hend.
  rewrite (crawl_loop_mono fuel fuel' client rid netloc kr er _ Hend Hle).
  split; [|reflexivity].
  destruct (crawl_loop E settings fuel client rid netloc kr er _)
    as [st ending]; cbn [fst snd] in *.
  by destruct ending.
Qed.

(** X16.  With a concurrency of zero and a positive page ceiling, a run
    whose client can be constructed never leaves its loop: every batch is
    empty, the queue keeps the seed, no page is registered and the run
    stays in the status [running], however many turns the loop takes. *)
Theorem zero_concurrency_never_ends (fuel : nat) (rid : nat)
    (domain : string) (keywords excludes : list string) (db : Crud.pool)
    (client : string -> result Response)
    (setup : string * list Matcher.Rule * list Matcher.Rule * string) :
  Config.crawl_concurrency settings = 0 ->
  0 < Config.max_pages_per_run settings ->
  crawl_setup E settings domain keywords excludes = Ok setup ->
  make_client = Ok client ->
  crawl_run E settings make_client fuel rid domain keywords excludes db
  = (Crud.start_run db rid, Unfinished).
Proof.
  intros Hconc Hmax Hsetup Hclient. unfold crawl_run.
  rewrite Hsetup, Hclient. destruct setup as [[[netloc kr] er] first].
  rewrite crawl_loop_spins; [done|lia|done|].
  cbn [visited]. rewrite size_empty. lia.
Qed.

(** X17.  The pages that a run registers are the seed and links with the
    host of the seed, each in the form that the canonicalisation gives;
    no two of them have the same normal form, so no page is registered
    under two spellings of its URL, and no URL twice. *)
Theorem registered_urls_are_distinct (fuel : nat) (rid : nat)
    (domain : string) (keywords excludes : list string) (db : Crud.pool)
    (netloc : string) (kr er : list Matcher.Rule) (first : string) :
  ids_issued db ->
  crawl_setup E settings domain keywords excludes
  = Ok (netloc, kr, er, first) ->
  let out := crawl_run E settings make_client fuel rid domain keywords
               excludes db in
  exists rows norms,
    Crud.pages out.1 = Crud.pages db ++ rows
    /\ normal_forms rows norms
    /\ NoDup norms
    /\ NoDup (map Crud.url rows)
    /\ Forall (fun p => in_scope netloc first (Crud.url p)) rows.
Proof.
  intros Hids Hsetup. cbv zeta. unfold crawl_run. rewrite Hsetup.
  assert (exists rows norms,
            Crud.pages db = Crud.pages db ++ rows
            /\ normal_forms rows norms
            /\ NoDup norms
            /\ NoDup (map Crud.url rows)
            /\ Forall (fun p => in_scope netloc first (Crud.url p)) rows)
    as Hnone.
  { exists [], []. rewrite app_nil_r. repeat split; constructor. }
  destruct make_client as [client|e]; [|exact Hnone].
  destruct (crawl_loop_pages fuel client rid netloc kr er first
              {| queue := [first]; visited := ∅;
                 pool := Crud.start_run db rid |})
    as (_ & rows & norms & Hp & Hn & Hnd & _ & Hin).
  { exact Hids. }
  { apply Forall_singleton. split; [|by left].
    by eapply crawl_setup_first. }
  cbv zeta in Hp. cbn [pool] in Hp.
  change (Crud.pages (Crud.start_run db rid)) with (Crud.pages db) in Hp.
  exists rows, norms.
  destruct (crawl_loop E settings fuel client rid netloc kr er _)
    as [st ending]; cbn [fst snd] in *.
  assert (NoDup (map Crud.url rows)) by by eapply normal_forms_urls.
  destruct ending; cbn [fst]; by repeat split.
Qed.

End WithClient.
End WithEnvironment.

Lemma crawl_run_ledger_witness :
  let out := crawl_run Fixtures.page_engine Config.defaults
               (Ok Fixtures.html_client) 10 1 "example.com" [] []
               Fixtures.fresh_db in
  exists rows ms errors,
    ledger 1 (marked (status_after out.2) 1 Fixtures.fresh_db) out.1
      rows ms errors.
Proof.
  apply (crawl_run_ledger Fixtures.page_engine Config.defaults
           (Ok Fixtures.html_client) 10 1 "example.com" [] []
           Fixtures.fresh_db).
  constructor.
Defined.

Lemma page_ceiling_witness :
  let out := crawl_run Fixtures.page_engine Fixtures2.small_settings
               (Ok Fixtures.html_client) 10 1 "example.com" [] []
               Fixtures.fresh_db in
  Z.of_nat (length (Crud.pages out.1))
  <= Z.of_nat (length (Crud.pages Fixtures.fresh_db)) + Z.max 0 (3 + 2 - 1).
Proof.
  apply (page_ceiling Fixtures.page_engine Fixtures2.small_settings
           (Ok Fixtures.html_client) 10 1 "example.com" [] []
           Fixtures.fresh_db).
  constructor.
Defined.

Lemma crawl_run_terminates_witness :
  (crawl_run Fixtures.page_engine Fixtures2.small_settings
     (Ok Fixtures.html_client) 5 1 "example.com" [] [] Fixtures.fresh_db).2
  <> Unfinished
  /\ crawl_run Fixtures.page_engine Fixtures2.small_settings
       (Ok Fixtures.html_client) 9 1 "example.com" [] [] Fixtures.fresh_db
     = crawl_run Fixtures.page_engine Fixtures2.small_settings
         (Ok Fixtures.html_client) 5 1 "example.com" [] [] Fixtures.fresh_db.
Proof.
  apply (crawl_run_terminates Fixtures.page_engine Fixtures2.small_settings
           (Ok Fixtures.html_client) 5 9 1 "example.com" [] []
           Fixtures.fresh_db).
  - simpl. lia.
  - vm_compute. lia.
  - lia.
Defined.

Lemma zero_concurrency_never_ends_witness :
  crawl_run Fixtures.page_engine Fixtures2.idle_settings
    (Ok Fixtures.html_client) 10 1 "example.com" [] [] Fixtures.fresh_db
  = (Crud.start_run Fixtures.fresh_db 1, Unfinished).
Proof.
  apply (zero_concurrency_never_ends Fixtures.page_engine
           Fixtures2.idle_settings (Ok Fixtures.html_client) 10 1
           "example.com" [] [] Fixtures.fresh_db Fixtures.html_client
           ("example.com", [], [], "https://example.com")).
  - reflexivity.
  - simpl. lia.
  - vm_compute. reflexivity.
  - reflexivity.
Defined.

Lemma registered_urls_are_distinct_witness :
  let out := crawl_run Fixtures.page_engine Config.defaults
               (Ok Fixtures.html_client) 10 1 "example.com" [] []
               Fixtures.fresh_db in
  exists rows norms,
    Crud.pages out.1 = Crud.pages Fixtures.fresh_db ++ rows
    /\ normal_forms rows norms
    /\ NoDup norms
    /\ NoDup (map Crud.url rows)
    /\ Forall (fun p => in_scope "example.com" "https://example.com"
                          (Crud.url p)) rows.
Proof.
  apply (registered_urls_are_distinct Fixtures.page_engine Config.defaults
           (Ok Fixtures.html_client) 10 1 "example.com" [] []
           Fixtures.fresh_db "example.com" [] [] "https://example.com").
  - constructor.
  - vm_compute. reflexivity.
Defined.

End CrawlFacts.

(* ===================================================================== *)
(** * More on URLs *)
(* ===================================================================== *)

Module UrlMore.
Import Url Crawler MoreSpec.

Lemma elem_drop_while (p : ascii -> bool) (l : list ascii) (x : ascii) :
  x ∈ Py.drop_while p l -> x ∈ l.
Proof.
  induction l as [|c l IH]; simpl; [done|].
  destruct (p c); [|done]. intros H. right. by apply IH.
Qed.

Lemma elem_rev (l : list ascii) (x : ascii) : x ∈ rev l <-> x ∈ l.
Proof. rewrite !list_elem_of_In. symmetry. apply in_rev. Qed.

Lemma chars_rstrip_by (p : ascii -> bool) (s : string) (x : ascii) :
  x ∈ Py.chars (Py.rstrip_by p s) -> x ∈ Py.chars s.
Proof.
  unfold Py.rstrip_by. rewrite MatcherFacts.chars_str.
  intros H. apply (proj1 (elem_rev _ _)) in H.
  apply elem_drop_while in H. by apply (proj1 (elem_rev _ _)) in H.
Qed.

Lemma break_at_Some (p : ascii -> bool) (l a b : list ascii) :
  break_at p l = Some (a, b) ->
  (forall x, x ∈ a -> p x = false) /\ (forall x, x ∈ a ++ b -> x ∈ l).
Proof.
  revert a b. induction l as [|c l IH]; intros a b H; simpl in H; [done|].
  destruct (p c) eqn:Hc.
  - inversion H; subst. split; [by intros x ?%elem_of_nil|].
    intros x Hx. by right.
  - destruct (break_at p l) as [[a' b']|]; [|done].
    inversion H; subst. destruct (IH a' b eq_refl) as [H1 H2]. split.
    + intros x [->|Hx]%elem_of_cons; [done|by apply H1].
    + intros x [->|Hx]%elem_of_cons; [by left|right; by apply H2].
Qed.

Lemma break_at_None (p : ascii -> bool) (l : list ascii) :
  break_at p l = None -> forall x, x ∈ l -> p x = false.
Proof.
  induction l as [|c l IH]; simpl; intros H x Hx;
    [by apply elem_of_nil in Hx|].
  destruct (p c) eqn:Hc; [done|].
  destruct (break_at p l) as [[a b]|]; [done|].
  apply elem_of_cons in Hx as [->|Hx]; [done|by apply IH].
Qed.

Lemma take_until_free (p : ascii -> bool) (l : list ascii) (x : ascii) :
  x ∈ take_until p l -> p x = false.
Proof.
  induction l as [|c l IH]; simpl; [by intros ?%elem_of_nil|].
  destruct (p c) eqn:Hc; [by intros ?%elem_of_nil|].
  intros [->|Hx]%elem_of_cons; [done|by apply IH].
Qed.

Lemma scheme_char_lower (c : ascii) :
  scheme_char c = true ->
  (if is_upper c then ascii_of_nat (nat_of_ascii c + 32) else c) <> hash.
Proof.
  destruct c as [b0 b1 b2 b3 b4 b5 b6 b7].
  destruct b0, b1, b2, b3, b4, b5, b6, b7; vm_compute; congruence.
Qed.

Lemma lower_free (before : string) :
  forallb scheme_char (Py.chars before) = true ->
  hash ∉ Py.chars (lower before).
Proof.
  intros Hall. unfold lower. rewrite MatcherFacts.chars_str.
  intros Hin. apply list_elem_of_In, in_map_iff in Hin as (c & Hc & Hin).
  rewrite forallb_forall in Hall. by apply (scheme_char_lower c (Hall c Hin)).
Qed.

Lemma split_once_Some (c : ascii) (s a b : string) :
  split_once c s = Some (a, b) ->
  (c ∉ Py.chars a)
  /\ (forall x, x ∈ Py.chars a -> x ∈ Py.chars s)
  /\ (forall x, x ∈ Py.chars b -> x ∈ Py.chars s).
Proof.
  unfold split_once.
  destruct (break_at (Ascii.eqb c) (Py.chars s)) as [[a' b']|] eqn:Hb;
    [|done].
  intros [= <- <-]. rewrite !MatcherFacts.chars_str.
  destruct (break_at_Some _ _ _ _ Hb) as [H1 H2]. split; [|split].
  - intros Hin. specialize (H1 c Hin). by rewrite Ascii.eqb_refl in H1.
  - intros x Hx. apply H2, elem_of_app. by left.
  - intros x Hx. apply H2, elem_of_app. by right.
Qed.

Lemma split_once_None (c : ascii) (s : string) :
  split_once c s = None -> c ∉ Py.chars s.
Proof.
  unfold split_once.
  destruct (break_at (Ascii.eqb c) (Py.chars s)) as [[a' b']|] eqn:Hb;
    [done|].
  intros _ Hin. pose proof (break_at_None _ _ Hb c Hin) as H.
  by rewrite Ascii.eqb_refl in H.
Qed.

Lemma urlsplit_tail_free (scheme1 netloc1 url0 : string) (sr : SplitResult) :
  hash ∉ Py.chars scheme1 ->
  hash ∉ Py.chars netloc1 ->
  (let '(url1, fragment) :=
     match split_once "#" url0 with
     | Some (before, after) => (before, after)
     | None => (url0, "")
     end in
   let '(url2, query) :=
     match split_once "?" url1 with
     | Some (before, after) => (before, after)
     | None => (url1, "")
     end in
   Ok {| s_scheme := scheme1; s_netloc := netloc1; s_path := url2;
         s_query := query; s_fragment := fragment |}) = Ok sr ->
  (hash ∉ Py.chars (s_scheme sr))
  /\ (hash ∉ Py.chars (s_netloc sr))
  /\ (hash ∉ Py.chars (s_path sr))
  /\ (hash ∉ Py.chars (s_query sr)).
Proof.
  intros Hscheme Hnetloc.
  assert (exists url1 fragment1,
            match split_once "#" url0 with
            | Some (before, after) => (before, after)
            | None => (url0, "")
            end = (url1, fragment1)
            /\ hash ∉ Py.chars url1) as (url1 & fragment1 & -> & Hurl1).
  { destruct (split_once "#" url0) as [[b a]|] eqn:H1.
    - exists b, a. split; [done|]. by apply split_once_Some in H1 as [? _].
    - exists url0, "". split; [done|]. by apply split_once_None in H1. }
  destruct (split_once "?" url1) as [[b a]|] eqn:H2.
  - apply split_once_Some in H2 as (_ & Hb & Ha).
    intros [= <-]. cbn. repeat split; try done.
    + intros Hin. by apply Hurl1, Hb.
    + intros Hin. by apply Hurl1, Ha.
  - intros [= <-]. cbn. repeat split; try done.
    by intros ?%elem_of_nil.
Qed.

Lemma urlsplit_free {lib : Url.Library} (url : string) (sr : SplitResult) :
  urlsplit url "" = Ok sr ->
  (hash ∉ Py.chars (s_scheme sr))
  /\ (hash ∉ Py.chars (s_netloc sr))
  /\ (hash ∉ Py.chars (s_path sr))
  /\ (hash ∉ Py.chars (s_query sr)).
Proof.
  unfold urlsplit.
  change (remove_unsafe (Py.strip_by c0_control_or_space "")) with "".
  set (u0 := remove_unsafe (Py.lstrip_by c0_control_or_space url)).
  assert (hash ∉ Py.chars "") as Hempty by by intros ?%elem_of_nil.
  destruct (split_once ":" u0) as [[before after]|];
    [destruct (Py.truthy before && _ && forallb scheme_char (Py.chars before))
       eqn:Hc|].
  1: apply andb_prop in Hc as [_ Hc]; apply lower_free in Hc.
  all: cbv beta iota.
  all: match goal with
       | |- context [Py.startswith ?u "//"] =>
           destruct (Py.startswith u "//")
       end.
  all: cbv beta iota zeta delta [_splitnetloc].
  all: try match goal with
           | |- context [if ?b then Raise _ else _] => destruct b; [done|]
           end.
  all: try match goal with
           | |- context [if ?b then _ else Ok _] => destruct b
           end.
  all: try match goal with
           | |- context [check_bracketed_netloc ?n] =>
               destruct (check_bracketed_netloc n) as [[]|?]; [|done]
           end.
  all: cbn [mbind]; unfold result_bind; cbv beta iota.
  all: apply urlsplit_tail_free; try assumption.
  all: rewrite MatcherFacts.chars_str; intros Hin;
    by apply take_until_free in Hin.
Qed.

Lemma elem_slice (s : string) (a b : Z) (x : ascii) :
  x ∈ Py.chars (Py.slice s a b) -> x ∈ Py.chars s.
Proof.
  unfold Py.slice. rewrite MatcherFacts.chars_str. intros H.
  eapply elem_of_sublist; [exact H|].
  etrans; [apply sublist_take|apply sublist_drop].
Qed.

Lemma splitparams_free (url : string) (x : ascii) :
  (x ∈ Py.chars (_splitparams url).1 -> x ∈ Py.chars url)
  /\ (x ∈ Py.chars (_splitparams url).2 -> x ∈ Py.chars url).
Proof.
  unfold _splitparams.
  destruct (match rfind_slash (Py.chars url) with
            | Some r => find_from ";" r (Py.chars url) 0
            | None => find_from ";" 0 (Py.chars url) 0
            end) as [i|].
  - cbn [fst snd]. rewrite !MatcherFacts.chars_str. split; intros H.
    + eapply elem_of_sublist; [exact H|apply sublist_take].
    + eapply elem_of_sublist; [exact H|apply sublist_drop].
  - destruct (rfind_slash (Py.chars url)); cbn [fst snd].
    + split; [done|]. by intros ?%elem_of_nil.
    + split; [|done]. apply elem_slice.
Qed.

Lemma urlparse_free {lib : Url.Library} (url : string) (p : ParseResult) :
  urlparse url = Ok p ->
  (hash ∉ Py.chars (scheme p))
  /\ (hash ∉ Py.chars (netloc p))
  /\ (hash ∉ Py.chars (path p))
  /\ (hash ∉ Py.chars (params p))
  /\ (hash ∉ Py.chars (query p)).
Proof.
  unfold urlparse, urlparse_with.
  destruct (urlsplit url "") as [sr|e] eqn:Hsplit; [|done].
  apply urlsplit_free in Hsplit as (Hs & Hn & Hp & Hq).
  cbn [mbind]. unfold result_bind.
  destruct (Py.mem (s_scheme sr) uses_params && has_char ";" (s_path sr)).
  - destruct (splitparams_free (s_path sr) hash) as [H1 H2].
    destruct (_splitparams (s_path sr)) as [u params1]. cbn [fst snd] in *.
    intros [= <-]. cbn. repeat split; try done.
    + intros Hin. by apply Hp, H1.
    + intros Hin. by apply Hp, H2.
  - intros [= <-]. cbn. repeat split; try done. by intros ?%elem_of_nil.
Qed.

Lemma free_app (a b : string) :
  hash ∉ Py.chars a -> hash ∉ Py.chars b -> hash ∉ Py.chars (a +:+ b).
Proof.
  intros Ha Hb. rewrite SnippetFacts.chars_app. by apply not_elem_of_app.
Qed.

Lemma geturl_free (p : ParseResult) :
  hash ∉ Py.chars (scheme p) ->
  hash ∉ Py.chars (netloc p) ->
  hash ∉ Py.chars (path p) ->
  hash ∉ Py.chars (params p) ->
  hash ∉ Py.chars (query p) ->
  hash ∉ Py.chars (geturl (replace_fragment p "")).
Proof.
  intros Hs Hn Hp Hpa Hq. unfold geturl, replace_fragment, urlunsplit.
  cbn [scheme netloc path params query fragment Py.truthy].
  assert (forall c : ascii, c <> hash -> hash ∉ Py.chars (String c ""))
    as Hone.
  { intros c Hc Hin. apply list_elem_of_In in Hin as [Heq|[]].
    by apply Hc. }
  assert (hash ∉ Py.chars "//") as Hslashes.
  { intros Hin. apply list_elem_of_In in Hin as [Heq|[Heq|[]]]; done. }
  repeat match goal with
         | |- context [if ?b then _ else _] => destruct b
         end;
    repeat (first [assumption | apply free_app | by apply Hone]).
Qed.

Lemma canonical_bare {lib : Url.Library}
    (url : string) : UrlSpec.canonical url -> bare url.
Proof.
  intros [raw H]. unfold _normalise_url in H.
  destruct (urlparse raw) as [p|e] eqn:Hp; [|done].
  simpl in H. inversion H; subst url; clear H. split.
  - apply StripFacts.rstrip_slash_no_slash.
  - unfold has_char. apply bool_decide_eq_false. intros Hin.
    apply chars_rstrip_by in Hin.
    destruct (urlparse_free raw p Hp) as (? & ? & ? & ? & ?).
    by apply (geturl_free p).
Qed.

(** X18.  What [_normalise_url] returns has no fragment, contains no [#]
    at all, and does not end with a slash. *)
Theorem canonical_urls_are_bare {lib : Url.Library} (url : string) :
  UrlSpec.canonical url -> bare url.
Proof. apply canonical_bare. Qed.

Lemma canonical_urls_are_bare_witness : bare "https://example.com/a".
Proof.
  apply (canonical_urls_are_bare "https://example.com/a").
  exists "https://example.com/a/#top". vm_compute. reflexivity.
Defined.

(** X19.  Every link that [extract_links] returns is without a fragment
    and without a slash at its end. *)
Theorem extracted_links_are_bare {lib : Url.Library}
    (html : Extractor.soup) (base_url : string)
    (links : list string) :
  Extractor.extract_links html base_url = Ok links ->
  Forall bare links.
Proof.
  intros H. eapply Forall_impl.
  - exact (FrontierFacts.extract_links_canonical html base_url links H).
  - apply canonical_bare.
Qed.

Lemma extracted_links_are_bare_witness :
  Forall bare ["https://example.com/about"].
Proof.
  apply (extracted_links_are_bare Fixtures.linking_page
           "https://example.com").
  vm_compute. reflexivity.
Defined.

End UrlMore.

(* ===================================================================== *)
(** * Exclusion and matching *)
(* ===================================================================== *)

Module MatchMore.
Import Matcher MoreSpec.

Lemma coherent_of_table (sources : list string)
    (rows : list (string * string * list (Z * string))) :
  coherent (Re.of_table sources rows).
Proof.
  intros p t. cbn.
  destruct (match find _ rows with Some row => row.2 | None => [] end);
    split; done.
Qed.

Section WithEngine.
Context (E : Re.engine).

(** X20.  With an engine whose [search] finds a match exactly when
    [finditer] yields one, [any_match] says that some rule matches
    exactly when [find_matches] returns a match. *)
Theorem any_match_iff_find_matches (text : string) (rules : list Rule) :
  coherent E ->
  any_match E text rules = true <-> find_matches E text rules <> [].
Proof.
  intros Hco.
  assert (find_matches E text rules = []
          <-> Forall (fun r : Rule => Re.finditer E r.2 text = []) rules)
    as Hnone.
  { unfold find_matches. split.
    - intros Hnil.
      pose proof (MatcherMore.sort_by_position_perm
                    (flat_map
                       (fun '(keyword, pattern) =>
                          map (fun m => {| keyword := keyword;
                                           matched_text := m.2;
                                           position := m.1 |})
                              (Re.finditer E pattern text)) rules)) as Hp.
      rewrite Hnil in Hp. apply Permutation_nil in Hp.
      clear Hnil. induction rules as [|[k p] rules IH]; [constructor|].
      cbn [flat_map] in Hp. apply app_eq_nil in Hp as [H1 H2].
      constructor; [|by apply IH].
      cbn. by destruct (Re.finditer E p text).
    - intros Hall.
      assert (flat_map
                (fun '(keyword, pattern) =>
                   map (fun m => {| keyword := keyword; matched_text := m.2;
                                    position := m.1 |})
                       (Re.finditer E pattern text)) rules = []) as ->.
      { induction Hall as [|[k p] rules Hr _ IH]; [done|].
        cbn [flat_map]. cbn in Hr. by rewrite Hr, IH. }
      reflexivity. }
  unfold any_match. rewrite existsb_exists. split.
  - intros ([k p] & Hin & Hs) Hnil. apply Hnone in Hnil.
    rewrite Forall_forall in Hnil.
    apply list_elem_of_In in Hin. specialize (Hnil _ Hin). cbn in Hnil.
    by apply Hco in Hs.
  - intros Hne.
    destruct (decide (Exists (fun r : Rule => Re.finditer E r.2 text <> [])
                        rules)) as [Hex|Hnex].
    + apply Exists_exists in Hex as ([k p] & Hin & Hf).
      exists (k, p). split; [by apply list_elem_of_In|]. by apply Hco.
    + exfalso. apply Hne, Hnone. apply Forall_forall. intros r Hr.
      destruct (decide (Re.finditer E r.2 text = [])) as [|Hf]; [done|].
      exfalso. apply Hnex, Exists_exists. by exists r.
Qed.

End WithEngine.

Lemma any_match_iff_find_matches_witness :
  any_match Fixtures.page_engine "beta" [Fixtures.beta_rule] = true
  <-> find_matches Fixtures.page_engine "beta" [Fixtures.beta_rule] <> [].
Proof.
  apply (any_match_iff_find_matches Fixtures.page_engine "beta"
           [Fixtures.beta_rule]).
  apply coherent_of_table.
Defined.

End MatchMore.

(* ===================================================================== *)
(** * What concurrent workers never do *)
(* ===================================================================== *)

Module AppendFacts.
Import Crawler MoreSpec.

Lemma extends_refl (db : Crud.pool) : extends_ db db.
Proof. by repeat split. Qed.

Lemma extends_trans (db1 db2 db3 : Crud.pool) :
  extends_ db1 db2 -> extends_ db2 db3 -> extends_ db1 db3.
Proof.
  intros (Hp1 & Hm1 & Hr1) (Hp2 & Hm2 & Hr2). split; [|split].
  - by etrans.
  - by etrans.
  - intros rid. destruct (Hr1 rid) as [<- <-]. apply Hr2.
Qed.

Lemma extends_update_page (f : Crud.page_row -> Crud.page_row)
    (db : Crud.pool) (pid : nat) :
  (forall p, key (f p) = key p) ->
  extends_ db (Crud.update_page f db pid).
Proof.
  intros Hf. unfold extends_, Crud.update_page, Crud.with_pages. cbn.
  split; [|by split].
  assert (map key
            (map (fun p => if bool_decide (Crud.id p = pid) then f p else p)
               (Crud.pages db)) = map key (Crud.pages db)) as ->; [|done].
  rewrite map_map. apply map_ext. intros p. by case_bool_decide.
Qed.

Lemma extends_with_runs (f : Crud.crawl_run_row -> Crud.crawl_run_row)
    (db : Crud.pool) (rid : nat) :
  (forall r, Crud.status (f r) = Crud.status r) ->
  (forall r, Crud.domain (f r) = Crud.domain r) ->
  extends_ db (Crud.with_runs (alter f rid) db).
Proof.
  intros Hs Hd. unfold extends_, Crud.with_runs. cbn.
  split; [done|]. split; [done|]. intros rid'.
  destruct (decide (rid = rid')) as [<-|Hne].
  - rewrite lookup_alter_eq.
    destruct (Crud.crawl_runs db !! rid) as [r|]; cbn; [|done].
    by rewrite Hs, Hd.
  - by rewrite lookup_alter_ne.
Qed.

Lemma extends_execute (s : statement) (db : Crud.pool) :
  extends_ db (execute s db).
Proof.
  destruct s; cbn [execute];
    try (apply extends_update_page; by intros p);
    try (apply extends_with_runs; by intros r).
  destruct matches as [|m ms]; [apply extends_refl|].
  unfold extends_. cbn. split; [done|]. split; [|done].
  by apply prefix_app_r.
Qed.

Lemma extends_insert_page (db : Crud.pool) (rid : nat) (u : string) :
  extends_ db (Crud.insert_page db rid u).2.
Proof.
  unfold Crud.insert_page.
  destruct (Crud.conflicts db rid u); [|apply extends_refl].
  unfold extends_. cbn. split; [|by split].
  rewrite map_app. by apply prefix_app_r.
Qed.

Section WithEnvironment.
Context {lib : Url.Library}.
Context (E : Re.engine) (settings : Config.Settings).

Lemma extends_step (sys sys' : system) :
  step E settings sys sys' -> extends_ (store sys) (store sys').
Proof.
  intros []; cbn [store].
  - apply extends_refl.
  - apply extends_insert_page.
  - apply extends_refl.
  - apply extends_execute.
Qed.

(** X21.  However the event loop interleaves coroutines that await the
    statements of the worker, and whatever the servers answer, no page
    row and no match record is removed or reordered, no page row changes
    its identifier, its run or its URL, and no run changes its status or
    its domain: the workers only append rows, and update the status
    columns of pages and the counters of runs. *)
Theorem workers_only_append (sys sys' : system) :
  rtc (step E settings) sys sys' -> extends_ (store sys) (store sys').
Proof.
  induction 1 as [sys|sys sys1 sys2 Hstep _ IH].
  - apply extends_refl.
  - eapply extends_trans; [|exact IH]. by apply extends_step.
Qed.

End WithEnvironment.

Lemma workers_only_append_witness :
  extends_ Fixtures.fresh_db
    (Crud.insert_page Fixtures.fresh_db 1 "https://example.com").2.
Proof.
  apply (workers_only_append Fixtures.page_engine Config.defaults
           {| store := Fixtures.fresh_db; workers := [] |}
           {| store :=
                (Crud.insert_page Fixtures.fresh_db 1
                   "https://example.com").2;
              workers :=
                <[0%nat :=
                    (fun page_id : option nat =>
                       match page_id with
                       | None => Return []
                       | Some page_id =>
                           Await (increment_pages_found 1 1)
                             (Await (update_page_scanning page_id)
                                (then_
                                   (scan_body Fixtures.page_engine
                                      Config.defaults "https://example.com"
                                      1 page_id [] [])
                                   (scan_except 1 page_id)))
                       end)
                      (Crud.insert_page Fixtures.fresh_db 1
                         "https://example.com").1]>
                  [_scan_page Fixtures.page_engine Config.defaults
                     "https://example.com" 1 "example.com" [] []] |}).
  eapply rtc_l.
  - apply (step_create_task Fixtures.page_engine Config.defaults
             Fixtures.fresh_db [] "https://example.com" 1 "example.com"
             [] []).
  - apply rtc_once.
    apply (step_insert_page Fixtures.page_engine Config.defaults
             Fixtures.fresh_db
             [_scan_page Fixtures.page_engine Config.defaults
                "https://example.com" 1 "example.com" [] []]
             0 1 "https://example.com"
             (fun page_id : option nat =>
                match page_id with
                | None => Return []
                | Some page_id =>
                    Await (increment_pages_found 1 1)
                      (Await (update_page_scanning page_id)
                         (then_
                            (scan_body Fixtures.page_engine
                               Config.defaults "https://example.com"
                               1 page_id [] [])
                            (scan_except 1 page_id)))
                end)).
    reflexivity.
Defined.

End AppendFacts.

(* ===================================================================== *)
(** * The keywords of a page *)
(* ===================================================================== *)

Module CsvFacts.
Import Crawler.

(** X22.  The [keywords_csv] of a completed page is the comma-separated
    list of the keywords of its match records, each keyword once, in
    ascending order; it is [None] when that text is empty. *)
Theorem keywords_csv_lists_hits (all_matches : list Crud.match_row) :
  exists ks : list string,
    StronglySorted String.le ks
    /\ NoDup ks
    /\ (forall k, k ∈ ks <-> exists m, m ∈ all_matches /\ Crud.keyword m = k)
    /\ keywords_csv_of all_matches
       = (if Py.truthy (Py.join "," ks) then Some (Py.join "," ks)
          else None).
Proof.
  exists (merge_sort String.le
            (elements (list_to_set (map Crud.keyword all_matches)
                       : gset string))).
  split; [apply StronglySorted_merge_sort; apply _|].
  split; [|split; [|reflexivity]].
  - rewrite merge_sort_Permutation. apply NoDup_elements.
  - intros k. rewrite merge_sort_Permutation, elem_of_elements,
      elem_of_list_to_set.
    change (map Crud.keyword all_matches)
      with (Crud.keyword <$> all_matches).
    rewrite list_elem_of_fmap. split.
    + intros (m & -> & Hm). by exists m.
    + intros (m & Hm & <-). by exists m.
Qed.

End CsvFacts.
